(** * Berth Ansible modules: the exec and stack clients

    A shallow embedding of [library/berth_exec.py] and
    [library/berth_stack.py].  Python text ([str]) is a list of Unicode
    code points; values that come out of [json.loads] are an inductive
    type; the network peer is a script of what each blocking call
    returns or raises, and the receive loops are folds over that
    script. *)

From Equations Require Import Equations.
From Stdlib Require Import List Bool Arith ZArith NArith QArith Lia.
From Stdlib Require Import Strings.String Strings.Ascii.
From Stdlib Require Import Floats.PrimFloat.
From Stdlib Require DecimalString.
Import ListNotations.
Close Scope Q_scope.

Set Warnings "-register-all".
Set Default Proof Using "Type".

(** ** Python text *)

Module Text.

(** A code point of a Python [str]. *)
Definition char := N.

(** A Python [str]. *)
Definition str := list char.

(** A string literal of the source, as text. *)
Definition lit (s : string) : str :=
  List.map N_of_ascii (list_ascii_of_string s).

(** [a == b] on text. *)
Fixpoint eqb (a b : str) : bool :=
  match a, b with
  | [], [] => true
  | x :: a', y :: b' => N.eqb x y && eqb a' b'
  | _, _ => false
  end.

(** [s.startswith(p)]. *)
Fixpoint startswith (p s : str) : bool :=
  match p, s with
  | [], _ => true
  | x :: p', y :: s' => N.eqb x y && startswith p' s'
  | _ :: _, [] => false
  end.

(** [p in s]: [p] occurs in [s] as a contiguous substring. *)
Fixpoint contains (p s : str) : bool :=
  startswith p s ||
  match s with
  | [] => false
  | _ :: s' => contains p s'
  end.

(** [s.rstrip(c)] for a one-character argument: every trailing [c] goes. *)
Fixpoint rstrip (c : char) (s : str) : str :=
  match s with
  | [] => []
  | x :: s' =>
      match rstrip c s' with
      | [] => if N.eqb x c then [] else [x]
      | r => x :: r
      end
  end.

(** [sep.join(parts)]. *)
Fixpoint join (sep : str) (parts : list str) : str :=
  match parts with
  | [] => []
  | [p] => p
  | p :: rest => p ++ sep ++ join sep rest
  end.

(** [''.join(parts)]. *)
Definition concat (parts : list str) : str := List.concat parts.

(** [str(n)] for an [int]. *)
Definition of_Z (z : Z) : str :=
  lit (DecimalString.NilZero.string_of_int (Z.to_int z)).

End Text.

Import Text.

(** ** The fragment of Python's [re] that [ANSI_ESCAPE_REGEX] uses *)

Module Re.

(** Patterns: a literal, a character class, a greedy starred class,
    concatenation and ordered alternation. *)
Inductive regex : Type :=
| Lit (c : char)
| Class (p : char -> bool)
| StarClass (p : char -> bool)
| Seq (r1 r2 : regex)
| Alt (r1 r2 : regex).

(** [[...]*] against [s]: take as many characters as the class allows,
    giving them back one at a time while the rest of the pattern, the
    continuation [k], fails. *)
Fixpoint star (p : char -> bool) (k : str -> option str) (s : str)
  : option str :=
  match s with
  | c :: s' =>
      if p c then
        match star p k s' with
        | Some r => Some r
        | None => k s
        end
      else k s
  | [] => k s
  end.

(** The backtracking matcher: [run r s k] matches [r] at the head of [s]
    and hands what is left to [k]; the first success wins, the left
    alternative being tried first. *)
Fixpoint run (r : regex) (s : str) (k : str -> option str) : option str :=
  match r with
  | Lit c =>
      match s with
      | x :: s' => if N.eqb x c then k s' else None
      | [] => None
      end
  | Class p =>
      match s with
      | x :: s' => if p x then k s' else None
      | [] => None
      end
  | StarClass p => star p k s
  | Seq r1 r2 => run r1 s (fun s1 => run r2 s1 k)
  | Alt r1 r2 =>
      match run r1 s k with
      | Some rest => Some rest
      | None => run r2 s k
      end
  end.

(** [pattern.match(s)]: what follows the match at the head of [s]. *)
Definition match_at (r : regex) (s : str) : option str := run r s Some.

(** [pattern.sub('', s)]: scan from the left; where the pattern matches a
    non-empty piece, drop it and go on after it; elsewhere keep the
    character.  (An empty match substitutes nothing for nothing.) *)
Equations? sub_empty (r : regex) (s : str) : str by wf (List.length s) lt :=
  sub_empty r [] := [];
  sub_empty r (c :: s') with match_at r (c :: s') => {
    | Some rest with le_lt_dec (List.length rest) (List.length s') => {
        | left _ := sub_empty r rest;
        | right _ := c :: sub_empty r s' };
    | None := c :: sub_empty r s' }.
Proof. all: simpl; lia. Qed.

End Re.

(** ** [BerthExecOperator]: escape stripping *)

Definition ESC : char := 27%N.
Definition BEL : char := 7%N.
Definition LBRACKET : char := 91%N.
Definition RBRACKET : char := 93%N.

(** The class [[0-9;?]]. *)
Definition is_param (c : char) : bool :=
  (N.leb 48 c && N.leb c 57) || N.eqb c 59 || N.eqb c 63.

(** The class [[a-zA-Z]]. *)
Definition is_letter (c : char) : bool :=
  (N.leb 97 c && N.leb c 122) || (N.leb 65 c && N.leb c 90).

(** The class [[^\x07]]. *)
Definition not_bel (c : char) : bool := negb (N.eqb c BEL).

(** [ANSI_ESCAPE_REGEX = re.compile(r'\x1b\[[0-9;?]*[a-zA-Z]|\x1b\][^\x07]*\x07')]. *)
Definition ANSI_ESCAPE_REGEX : Re.regex :=
  Re.Alt
    (Re.Seq (Re.Lit ESC) (Re.Seq (Re.Lit LBRACKET)
       (Re.Seq (Re.StarClass is_param) (Re.Class is_letter))))
    (Re.Seq (Re.Lit ESC) (Re.Seq (Re.Lit RBRACKET)
       (Re.Seq (Re.StarClass not_bel) (Re.Lit BEL)))).

(** [strip_ansi_codes(self, text)]. *)
Definition strip_ansi_codes (text : str) : str :=
  Re.sub_empty ANSI_ESCAPE_REGEX text.

(** ** Values produced by [json.loads] *)

Module Py.

(** [None], [bool], [int], [float], [str], [list] and [dict].  A [dict] is
    the list of its items, a key occurring once. *)
Inductive value : Type :=
| Null
| Bool (b : bool)
| Int (n : Z)
| Float (f : float)
| Str (s : str)
| Arr (items : list value)
| Obj (items : list (str * value)).

Definition dict := list (str * value).

(** [d.get(key, default)]. *)
Fixpoint get (d : dict) (key : str) (default : value) : value :=
  match d with
  | [] => default
  | (k, v) :: d' => if Text.eqb k key then v else get d' key default
  end.

(** The truth value of [v], as [if v:] and [not v] take it. *)
Definition truthy (v : value) : bool :=
  match v with
  | Null => false
  | Bool b => b
  | Int n => negb (Z.eqb n 0)
  | Float f => negb (PrimFloat.eqb f PrimFloat.zero)
  | Str s => negb (Text.eqb s [])
  | Arr items => match items with [] => false | _ => true end
  | Obj items => match items with [] => false | _ => true end
  end.

(** [v != 0]. *)
Definition ne_zero (v : value) : bool :=
  match v with
  | Bool b => b
  | Int n => negb (Z.eqb n 0)
  | Float f => negb (PrimFloat.eqb f PrimFloat.zero)
  | Null | Str _ | Arr _ | Obj _ => true
  end.

(** [key not in d]. *)
Definition lacks (d : dict) (key : str) : Prop :=
  forall k v, In (k, v) d -> k <> key.

(** [msg_data.get('type', '')]. *)
Definition msg_type (msg_data : dict) : value :=
  get msg_data (lit "type") (Str []).

(** [v == 'literal']. *)
Definition eq_str (v : value) (s : str) : bool :=
  match v with
  | Str t => Text.eqb t s
  | _ => false
  end.

(** [type(v).__name__]. *)
Definition type_name (v : value) : str :=
  match v with
  | Null => lit "NoneType"
  | Bool _ => lit "bool"
  | Int _ => lit "int"
  | Float _ => lit "float"
  | Str _ => lit "str"
  | Arr _ => lit "list"
  | Obj _ => lit "dict"
  end.

(** The text of the [AttributeError] that [v.attr] raises. *)
Definition attribute_error (v : value) (attr : str) : str :=
  lit "'" ++ type_name v ++ lit "' object has no attribute '" ++ attr ++ lit "'".

End Py.

Import Py.

(** ** The Python runtime the clients call into

    Library functions the two modules use and do not define. *)
Class Runtime : Type := {
  (** [base64.b64decode(v).decode('utf-8', errors='replace')]: the decoded
      text, or the text of the exception [b64decode] raises. *)
  b64decode_utf8 : value -> str + str;
  (** [repr(v)], asked for a [float], a [list] or a [dict]. *)
  repr : value -> str;
  (** [s.encode()]: the UTF-8 bytes, or the text of the
      [UnicodeEncodeError]. *)
  encode : str -> list Z + str;
  (** [urlparse(url).scheme] and [urlparse(url).netloc]. *)
  urlparse_scheme : str -> str;
  urlparse_netloc : str -> str;
  (** [str(e)] of the exception with which [http.client] refuses the
      header value [v]: the [ValueError] whose text is
      [Invalid header value ] and [repr(v.encode('latin-1'))], or the
      [UnicodeEncodeError] of that encoding. *)
  header_error : str -> str
}.

(** [str(v)], which is what an f-string field [{v}] renders. *)
Definition format `{Runtime} (v : value) : str :=
  match v with
  | Null => lit "None"
  | Bool true => lit "True"
  | Bool false => lit "False"
  | Int n => Text.of_Z n
  | Str s => s
  | Float _ | Arr _ | Obj _ => repr v
  end.

(** ** Effects: what a client does to the network, and what comes back *)

(** The keyword arguments of [module.fail_json]. *)
Record failure : Type := {
  msg : str;
  fail_output : option (list str);
  fail_operation_id : option value;
  fail_details : option str
}.

(** Calls on the network and the clock, in the order they are made. *)
Inductive action : Type :=
| HttpPost (url : str) (headers : list (str * str)) (body : value)
    (unverified_context : bool)
| WsConnect (url : str) (header : list str) (cert_none : bool) (timeout : Z)
| WsSend (message : value)
| WsRecv
| WsClose
| Sleep (milliseconds : Z).

(** What a call into [websocket] raises. *)
Inductive lib_error : Type :=
| WebSocketTimeoutException (e : str)
| WebSocketException (e : str)
| OtherException (e : str).

(** [str(e)]. *)
Definition error_text (e : lib_error) : str :=
  match e with
  | WebSocketTimeoutException t | WebSocketException t | OtherException t => t
  end.

(** What is propagating: a library exception, or the [SystemExit] of
    [fail_json], which no [except Exception] catches. *)
Inductive raised : Type :=
| Lib (e : lib_error)
| SystemExit (f : failure).

(** What [json.loads] makes of a text. *)
Inductive parsed : Type :=
| Malformed (e : str)
| Parsed (v : value).

(** What [ws.recv()] does. *)
Inductive recv_result : Type :=
| EmptyFrame
| Frame (p : parsed)
| RecvRaises (e : lib_error).

(** [ws.recv()] raises [WebSocketTimeoutException]. *)
Definition transport_timeout (r : recv_result) : Prop :=
  exists e, r = RecvRaises (WebSocketTimeoutException e).

(** A computation over the object state [S]: it runs from a state and a
    log of actions, and ends with a value or with an exception; the state
    and the log survive the exception. *)
Module IO.
Section Monad.
Variable S : Type.

Definition io (A : Type) : Type :=
  S -> list action -> (A + raised) * S * list action.

Definition ret {A} (a : A) : io A := fun s l => (inl a, s, l).

Definition bind {A B} (m : io A) (f : A -> io B) : io B :=
  fun s l =>
    match m s l with
    | (inl a, s', l') => f a s' l'
    | (inr e, s', l') => (inr e, s', l')
    end.

Definition raise {A} (e : raised) : io A := fun s l => (inr e, s, l).

(** [self.module.fail_json(...)]. *)
Definition fail_json {A} (f : S -> failure) : io A :=
  fun s l => (inr (SystemExit (f s)), s, l).

Definition read : io S := fun s l => (inl s, s, l).

Definition modify (f : S -> S) : io unit := fun s l => (inl tt, f s, l).

(** A call that returns nothing: logged, then it returns or raises. *)
Definition call (a : action) (r : option lib_error) : io unit :=
  fun s l =>
    match r with
    | None => (inl tt, s, l ++ [a])
    | Some e => (inr (Lib e), s, l ++ [a])
    end.

(** A call that cannot raise. *)
Definition perform (a : action) : io unit := call a None.

(** [try: m  except ...: h]: [h] says which exceptions it handles. *)
Definition try_except {A} (m : io A) (h : raised -> option (io A)) : io A :=
  fun s l =>
    match m s l with
    | (inl a, s', l') => (inl a, s', l')
    | (inr e, s', l') =>
        match h e with
        | Some k => k s' l'
        | None => (inr e, s', l')
        end
    end.
End Monad.

(** The state and the result of a computation do not depend on the log
    it started with. *)
Definition log_blind {S A : Type} (m : io S A) : Prop :=
  forall s l1 l2, fst (m s l1) = fst (m s l2).

Arguments ret {S A} a.
Arguments bind {S A B} m f.
Arguments modify {S} f.
Arguments try_except {S A} m h.
Arguments raise {S A} e.
Arguments fail_json {S A} f.
Arguments call {S} a r.
Arguments perform {S} a.
Arguments read {S}.
End IO.

Import IO.

Declare Scope io_scope.
Delimit Scope io_scope with io.
Notation "x <- m ;; k" := (bind m (fun x => k))
  (at level 61, m at next level, right associativity) : io_scope.
Notation "m ;; k" := (bind m (fun _ => k))
  (at level 61, right associativity) : io_scope.

(** How one pass through a [while True:] body ends. *)
Inductive control : Type :=
| Continue
| Return.

(** How a client method ends: it returns, [fail_json] exits the process,
    the peer's script is used up while the loop still receives, or an
    exception that no handler of the method catches leaves it, [e] being
    its text. *)
Inductive outcome (R S : Type) : Type :=
| Returned (r : R)
| Exited (f : failure)
| Pending (s : S)
| Uncaught (e : str).
Arguments Returned {R S} r.
Arguments Exited {R S} f.
Arguments Pending {R S} s.
Arguments Uncaught {R S} e.

Definition NL : char := 10%N.

(** [time.time() - start_time > self.timeout]. *)
Definition timed_out (elapsed : Q) (timeout : Z) : bool :=
  negb (Qle_bool elapsed (inject_Z timeout)).

(** How a receive loop over a script of iterations ends. *)
Inductive loop_end : Type :=
| Done
| Raised (e : raised)
| Starved.

(** [while True: body], one script entry per pass. *)
Fixpoint while_true {S I : Type} (body : I -> io S control)
    (script : list I) (s : S) (l : list action)
  : loop_end * S * list action :=
  match script with
  | [] => (Starved, s, l)
  | it :: rest =>
      match body it s l with
      | (inl Continue, s', l') => while_true body rest s' l'
      | (inl Return, s', l') => (Done, s', l')
      | (inr e, s', l') => (Raised e, s', l')
      end
  end.

(** [ws.recv()]: the frame, [None] standing for an empty one. *)
Definition ws_recv {S : Type} (r : recv_result) : io S (option parsed) :=
  fun s l =>
    match r with
    | EmptyFrame => (inl None, s, l ++ [WsRecv])
    | Frame p => (inl (Some p), s, l ++ [WsRecv])
    | RecvRaises e => (inr (Lib e), s, l ++ [WsRecv])
    end.

(** ** Kinds of action, and how [main] ends *)

Definition is_close (a : action) : bool :=
  match a with WsClose => true | _ => false end.

Definition is_connect (a : action) : bool :=
  match a with WsConnect _ _ _ _ => true | _ => false end.

Definition is_post (a : action) : bool :=
  match a with HttpPost _ _ _ _ => true | _ => false end.

Definition is_send (a : action) : bool :=
  match a with WsSend _ => true | _ => false end.

(** An action that checks certificates, if it opens a connection: no
    [CERT_NONE], no unverified context. *)
Definition verifies (a : action) : bool :=
  match a with
  | WsConnect _ _ cert_none _ => negb cert_none
  | HttpPost _ _ _ unverified_context => negb unverified_context
  | _ => true
  end.

(** How many actions of a kind a log holds. *)
Definition count (kind : action -> bool) (l : list action) : nat :=
  List.length (List.filter kind l).

(** How [main] ends.  [ExitJson]: [module.exit_json] with the result as
    keyword arguments.  [FailJson]: a [fail_json] on the way.
    [TypeError]: [module.fail_json] with the result as keyword
    arguments, which raises [TypeError]: [AnsibleModule.fail_json]
    requires the argument [msg], and the dictionary [execute] returns
    has no such key; nothing is reported.  [Propagated]: an exception
    that [execute] lets out.  [Waiting]: the session is still in its
    loop when the peer's script is used up. *)
Inductive ending (R S : Type) : Type :=
| ExitJson (r : R)
| FailJson (f : failure)
| TypeError (r : R)
| Propagated (e : str)
| Waiting (s : S).
Arguments ExitJson {R S} r.
Arguments FailJson {R S} f.
Arguments TypeError {R S} r.
Arguments Propagated {R S} e.
Arguments Waiting {R S} s.

(** The message of [main] when [import websocket] failed. *)
Definition missing_websocket : failure :=
  {| msg := lit "The websocket-client Python module is required. Install with: pip install websocket-client";
     fail_output := None; fail_operation_id := None; fail_details := None |}.

(** ** [berth_exec.py]: [BerthExecOperator] *)

Module Exec.
Section Operator.
Context {rt : Runtime}.
Open Scope io_scope.

(** [module.params]. *)
Record params : Type := {
  berth_url : str;
  api_key : str;
  server_id : str;
  stack_name : str;
  service_name : str;
  container_name : str;
  command : str;
  validate_certs : bool;
  timeout : Z
}.

(** The fields [__init__] sets to a constant, and the local
    [session_ready] of [execute_command]. *)
Record state : Type := {
  session_id : value;
  output_lines : list str;
  exit_code : value;
  command_sent : bool;
  session_ready : bool
}.

Definition init : state :=
  {| session_id := Null; output_lines := []; exit_code := Null;
     command_sent := false; session_ready := false |}.

Definition set_session_id (v : value) (st : state) : state :=
  {| session_id := v; output_lines := output_lines st;
     exit_code := exit_code st; command_sent := command_sent st;
     session_ready := session_ready st |}.

Definition append_output (line : str) (st : state) : state :=
  {| session_id := session_id st;
     output_lines := output_lines st ++ [line];
     exit_code := exit_code st; command_sent := command_sent st;
     session_ready := session_ready st |}.

Definition set_exit_code (v : value) (st : state) : state :=
  {| session_id := session_id st; output_lines := output_lines st;
     exit_code := v; command_sent := command_sent st;
     session_ready := session_ready st |}.

Definition set_command_sent (b : bool) (st : state) : state :=
  {| session_id := session_id st; output_lines := output_lines st;
     exit_code := exit_code st; command_sent := b;
     session_ready := session_ready st |}.

Definition set_session_ready (b : bool) (st : state) : state :=
  {| session_id := session_id st; output_lines := output_lines st;
     exit_code := exit_code st; command_sent := command_sent st;
     session_ready := b |}.

(** What the peer does in one pass of the receive loop: the clock
    reading, the result of [ws.recv()], and, should the pass send the
    command and [exit], what each [ws.send] raises. *)
Record iteration : Type := {
  elapsed : Q;
  recv : recv_result;
  send_command : option lib_error;
  send_exit : option lib_error
}.

(** The peer of one invocation. *)
Record peer : Type := {
  connect : option lib_error;
  send_start : option lib_error;
  iterations : list iteration
}.

Definition PROMPT : str := lit "/app #".

(** [should_skip_output(self, output)]. *)
Definition should_skip_output (p : params) (st : state) (output : str)
  : bool :=
  if negb (command_sent st) then
    if Text.startswith PROMPT output then true else false
  else
    if Text.contains (command p) output
       || Text.startswith PROMPT output
       || Text.startswith (lit "exit") output
    then true else false.

(** [list(text.encode())] as a JSON array, or the exception. *)
Definition encoded (text : str) : io state value :=
  match encode text with
  | inl bytes => ret (Arr (List.map Int bytes))
  | inr e => raise (Lib (OtherException e))
  end.

Definition terminal_input (st : state) (input : value) : value :=
  Obj [(lit "type", Str (lit "terminal_input"));
       (lit "session_id", session_id st);
       (lit "input", input)].

(** The branch [msg_type == 'success']. *)
Definition on_success (p : params) (it : iteration) (msg_data : dict)
  : io state control :=
  modify (set_session_id (get msg_data (lit "session_id") Null)) ;;
  modify (set_session_ready true) ;;
  perform (Sleep 200) ;;
  input <- encoded (command p ++ [NL]) ;;
  st <- read ;;
  call (WsSend (terminal_input st input)) (send_command it) ;;
  modify (set_command_sent true) ;;
  perform (Sleep 100) ;;
  input <- encoded (lit "exit" ++ [NL]) ;;
  st <- read ;;
  call (WsSend (terminal_input st input)) (send_exit it) ;;
  ret Continue.

(** The branch [msg_type == 'terminal_output']. *)
Definition on_terminal_output (p : params) (msg_data : dict)
  : io state control :=
  st <- read ;;
  if session_ready st then
    let output_bytes := get msg_data (lit "output") (Str []) in
    if truthy output_bytes then
      match b64decode_utf8 output_bytes with
      | inr e => raise (Lib (OtherException e))
      | inl decoded =>
          let cleaned := strip_ansi_codes decoded in
          if negb (Text.eqb cleaned [])
             && negb (should_skip_output p st cleaned)
          then modify (append_output cleaned) ;; ret Continue
          else ret Continue
      end
    else ret Continue
  else ret Continue.

(** The branch [msg_type == 'terminal_close']. *)
Definition on_terminal_close (msg_data : dict) : io state control :=
  modify (set_exit_code (get msg_data (lit "exit_code") (Int 0))) ;;
  perform WsClose ;;
  perform (Sleep 100) ;;
  ret Return.

(** [full_error] of the branch [msg_type == 'error']. *)
Definition full_error (msg_data : dict) : value :=
  let error_msg := get msg_data (lit "error") (Str (lit "Unknown error")) in
  let context := get msg_data (lit "context") (Str []) in
  if truthy context
  then Str (format error_msg ++ lit ": " ++ format context)
  else error_msg.

(** The branch [msg_type == 'error']. *)
Definition on_error (msg_data : dict) : io state control :=
  perform WsClose ;;
  fail_json (fun st =>
    {| msg := lit "Terminal error: " ++ format (full_error msg_data);
       fail_output := Some (output_lines st);
       fail_operation_id := None; fail_details := None |}).

(** From [json.loads(message)] to the end of the [if]/[elif] chain. *)
Definition dispatch (p : params) (it : iteration) (message : parsed)
  : io state control :=
  match message with
  | Malformed e => raise (Lib (OtherException e))
  | Parsed (Obj msg_data) =>
      if eq_str (msg_type msg_data) (lit "success")
      then on_success p it msg_data
      else if eq_str (msg_type msg_data) (lit "terminal_output")
      then on_terminal_output p msg_data
      else if eq_str (msg_type msg_data) (lit "terminal_close")
      then on_terminal_close msg_data
      else if eq_str (msg_type msg_data) (lit "error")
      then on_error msg_data
      else ret Continue
  | Parsed v => raise (Lib (OtherException (attribute_error v (lit "get"))))
  end.

(** The two [except] clauses of the inner [try]. *)
Definition on_websocket_exception (e : raised)
  : option (io state control) :=
  match e with
  | Lib (WebSocketTimeoutException _) => Some (ret Continue)
  | Lib (WebSocketException t) =>
      Some (perform WsClose ;;
            fail_json (fun st =>
              {| msg := lit "WebSocket error: " ++ t;
                 fail_output := Some (output_lines st);
                 fail_operation_id := None; fail_details := None |}))
  | Lib (OtherException _) | SystemExit _ => None
  end.

(** One pass through the body of [while True:]. *)
Definition loop_body (p : params) (it : iteration) : io state control :=
  (if timed_out (elapsed it) (timeout p) then
     perform WsClose ;;
     fail_json (fun st =>
       {| msg := lit "Command execution timed out after "
                 ++ Text.of_Z (timeout p) ++ lit " seconds";
          fail_output := Some (output_lines st);
          fail_operation_id := None; fail_details := None |})
   else ret tt) ;;
  try_except
    (message <- ws_recv (recv it) ;;
     match message with
     | None => ret Continue
     | Some m => dispatch p it m
     end)
    on_websocket_exception.

Definition ws_scheme (p : params) : str :=
  if Text.eqb (urlparse_scheme (Text.rstrip 47%N (berth_url p))) (lit "https")
  then lit "wss" else lit "ws".

Definition ws_url (p : params) : str :=
  ws_scheme p ++ lit "://"
  ++ urlparse_netloc (Text.rstrip 47%N (berth_url p))
  ++ lit "/ws/api/servers/" ++ server_id p ++ lit "/terminal".

Definition start_msg (p : params) : value :=
  Obj [(lit "type", Str (lit "terminal_start"));
       (lit "stack_name", Str (stack_name p));
       (lit "service_name", Str (service_name p));
       (lit "container_name", Str (container_name p));
       (lit "cols", Int 80);
       (lit "rows", Int 24)].

(** The outer [except Exception as e:] and the end of the method. *)
Definition finish (r : loop_end * state * list action)
  : outcome state state * list action :=
  match r with
  | (Done, s, l) => (Returned s, l)
  | (Starved, s, l) => (Pending s, l)
  | (Raised (SystemExit f), _, l) => (Exited f, l)
  | (Raised (Lib e), _, l) =>
      (Exited {| msg := lit "Failed to connect to terminal WebSocket: "
                        ++ error_text e;
                 fail_output := None; fail_operation_id := None;
                 fail_details := None |}, l)
  end.

(** From [websocket.create_connection] to [ws.send(json.dumps(start_msg))]. *)
Definition opening (p : params) (w : peer) : io state unit :=
  call (WsConnect (ws_url p)
          [lit "Authorization: Bearer " ++ api_key p]
          (Text.eqb (ws_scheme p) (lit "wss") && negb (validate_certs p))
          (timeout p))
       (connect w) ;;
  call (WsSend (start_msg p)) (send_start w).

(** [execute_command(self)], from the [try] on.  (What stands before
    it cannot fail once [urlparse(self.berth_url)] has returned, and
    [urlparse_scheme] and [urlparse_netloc] are the attributes of what
    it returned.) *)
Definition execute_command (p : params) (w : peer)
  : outcome state state * list action :=
  match opening p w init [] with
  | (inl _, s, l) => finish (while_true (loop_body p) (iterations w) s l)
  | (inr e, s, l) => finish (Raised e, s, l)
  end.

(** The dictionary [execute] returns. *)
Record result : Type := {
  changed : bool;
  result_exit_code : value;
  stdout : str;
  stderr : str;
  output : list str;
  failed : bool
}.

Definition is_none (v : value) : bool :=
  match v with Null => true | _ => false end.

Definition result_of (st : state) : result :=
  {| changed := false;
     result_exit_code :=
       if negb (is_none (exit_code st)) then exit_code st else Int 0;
     stdout := Text.concat (output_lines st);
     stderr := [];
     output := output_lines st;
     failed :=
       if negb (is_none (exit_code st)) then ne_zero (exit_code st)
       else false |}.

(** [execute(self)]. *)
Definition execute (p : params) (w : peer)
  : outcome result state * list action :=
  match execute_command p w with
  | (Returned st, l) => (Returned (result_of st), l)
  | (Exited f, l) => (Exited f, l)
  | (Pending st, l) => (Pending st, l)
  | (Uncaught e, l) => (Uncaught e, l)
  end.

(** The clock reading of [it] is within the timeout. *)
Definition in_time (p : params) (it : iteration) : Prop :=
  timed_out (elapsed it) (timeout p) = false.

(** The peer [w] with the passes [its] and no more. *)
Definition with_iterations (w : peer) (its : list iteration) : peer :=
  {| connect := connect w; send_start := send_start w; iterations := its |}.

(** After the passes [pre] the session is still in its receive loop, in
    state [st], having done [l]. *)
Definition running (p : params) (w : peer) (pre : list iteration)
    (st : state) (l : list action) : Prop :=
  execute_command p (with_iterations w pre) = (Pending st, l).

(** The frame of a message [msg_data]. *)
Definition frame_of (msg_data : dict) : recv_result :=
  Frame (Parsed (Obj msg_data)).

(** [it] brings a [success] message. *)
Definition is_success (it : iteration) : bool :=
  match recv it with
  | Frame (Parsed (Obj msg_data)) => eq_str (msg_type msg_data) (lit "success")
  | _ => false
  end.

(** [it] brings, in time, a [terminal_output] message whose payload
    decodes to [decoded]. *)
Definition brings_output (p : params) (it : iteration) (decoded : str)
  : Prop :=
  in_time p it /\
  exists msg_data,
    recv it = frame_of msg_data /\
    msg_type msg_data = Str (lit "terminal_output") /\
    truthy (get msg_data (lit "output") (Str [])) = true /\
    b64decode_utf8 (get msg_data (lit "output") (Str [])) = inl decoded.

(** [it] brings, in time, a [success] message, and the command and
    [exit] are sent. *)
Definition brings_success (p : params) (it : iteration) : Prop :=
  in_time p it /\
  send_command it = None /\ send_exit it = None /\
  (exists bytes, encode (command p ++ [NL]) = inl bytes) /\
  (exists bytes, encode (lit "exit" ++ [NL]) = inl bytes) /\
  exists msg_data,
    recv it = frame_of msg_data /\ msg_type msg_data = Str (lit "success").

(** [it] brings, in time, a [terminal_close] message whose exit code,
    0 if it has none, is [code]. *)
Definition brings_close (p : params) (it : iteration) (code : value)
  : Prop :=
  in_time p it /\
  exists msg_data,
    recv it = frame_of msg_data /\
    msg_type msg_data = Str (lit "terminal_close") /\
    get msg_data (lit "exit_code") (Int 0) = code.

(** [q] is [p] under another API key. *)
Definition same_but_key (p q : params) : Prop :=
  berth_url p = berth_url q /\ server_id p = server_id q
  /\ stack_name p = stack_name q /\ service_name p = service_name q
  /\ container_name p = container_name q /\ command p = command q
  /\ validate_certs p = validate_certs q /\ timeout p = timeout q.

(** A line the filter lets through, whether the command has been sent or
    not: not empty, and not beginning with the prompt. *)
Definition kept_line (line : str) : Prop :=
  line <> [] /\ Text.startswith PROMPT line = false.

(** The output lines an outcome hands over: those of the result, of the
    [fail_json] (none when it names no output), or of the session so
    far; an uncaught exception hands over none. *)
Definition lines_of (o : outcome result state) : list str :=
  match o with
  | Returned r => output r
  | Exited f => match fail_output f with Some lines => lines | None => [] end
  | Pending st => output_lines st
  | Uncaught _ => []
  end.

(** A message whose type is none of the four the loop knows. *)
Definition unknown_type (msg_data : dict) : Prop :=
  eq_str (msg_type msg_data) (lit "success") = false
  /\ eq_str (msg_type msg_data) (lit "terminal_output") = false
  /\ eq_str (msg_type msg_data) (lit "terminal_close") = false
  /\ eq_str (msg_type msg_data) (lit "error") = false.

(** [p] with another [berth_url]. *)
Definition with_berth_url (p : params) (url : str) : params :=
  {| berth_url := url; api_key := api_key p; server_id := server_id p;
     stack_name := stack_name p; service_name := service_name p;
     container_name := container_name p; command := command p;
     validate_certs := validate_certs p; timeout := timeout p |}.

(** [main()], from [if not HAS_WEBSOCKET:] on; the module's parameters
    are those [AnsibleModule] has accepted. *)
Definition main (HAS_WEBSOCKET : bool) (p : params) (w : peer)
  : ending result state * list action :=
  if negb HAS_WEBSOCKET then (FailJson missing_websocket, [])
  else
    match execute p w with
    | (Returned r, l) =>
        if failed r then (TypeError r, l) else (ExitJson r, l)
    | (Exited f, l) => (FailJson f, l)
    | (Pending st, l) => (Waiting st, l)
    | (Uncaught e, l) => (Propagated e, l)
    end.

(** The call [websocket.create_connection(...)] of [execute_command]. *)
Definition connecting (p : params) : action :=
  WsConnect (ws_url p) [lit "Authorization: Bearer " ++ api_key p]
    (Text.eqb (ws_scheme p) (lit "wss") && negb (validate_certs p))
    (timeout p).

(** The [fail_json] of the outer [except Exception as e:]. *)
Definition connect_failed (e : lib_error) : failure :=
  {| msg := lit "Failed to connect to terminal WebSocket: " ++ error_text e;
     fail_output := None; fail_operation_id := None;
     fail_details := None |}.

(** [it] receives, in time, a frame that is text. *)
Definition receives (p : params) (it : iteration) (m : parsed) : Prop :=
  in_time p it /\ recv it = Frame m.

(** The end of [execute], after [execute_command]. *)
Definition report (o : outcome state state) : outcome result state :=
  match o with
  | Returned st => Returned (result_of st)
  | Exited f => Exited f
  | Pending st => Pending st
  | Uncaught e => Uncaught e
  end.

End Operator.
End Exec.

(** ** [berth_stack.py]: [BerthStackOperator] *)

Module Stack.
Section Operator.
Context {rt : Runtime}.
Open Scope io_scope.

(** [module.params]. *)
Record params : Type := {
  berth_url : str;
  api_key : str;
  server_id : str;
  stack_name : str;
  operation : str;
  options : list str;
  services : list str;
  validate_certs : bool;
  timeout : Z
}.

(** The fields [__init__] sets to a constant. *)
Record state : Type := {
  output_lines : list str;
  success : value;
  exit_code : value;
  operation_id : value
}.

Definition init : state :=
  {| output_lines := []; success := Null; exit_code := Null;
     operation_id := Null |}.

Definition append_output (line : str) (st : state) : state :=
  {| output_lines := output_lines st ++ [line]; success := success st;
     exit_code := exit_code st; operation_id := operation_id st |}.

Definition set_success (v : value) (st : state) : state :=
  {| output_lines := output_lines st; success := v;
     exit_code := exit_code st; operation_id := operation_id st |}.

Definition set_exit_code (v : value) (st : state) : state :=
  {| output_lines := output_lines st; success := success st;
     exit_code := v; operation_id := operation_id st |}.

Definition set_operation_id (v : value) (st : state) : state :=
  {| output_lines := output_lines st; success := success st;
     exit_code := exit_code st; operation_id := v |}.

(** The body of an [HTTPError] [e], as the [except] clause reads it:
    [e.fp] is [None], or [e.read().decode('utf-8')] gives a text, or it
    raises, as it does with [UnicodeDecodeError] on a body that is not
    UTF-8. *)
Inductive error_body : Type :=
| NoBody
| Body (text : str)
| Undecodable (e : str).

(** What the request comes to.  [InvalidURL]: [Request(url, ...)]
    raises [ValueError], as it does on a URL without scheme; [urlopen]
    is not called.  Otherwise what [urlopen] does: a response whose body
    is read, decoded and parsed, or one of the exceptions the method
    tells apart.  [InvalidHeader]: [http.client] refuses the value of
    the [Authorization] header, as it does when the key holds a line
    break or a character outside Latin-1, before anything is sent. *)
Inductive http_result : Type :=
| InvalidURL (e : str)
| Response (body : parsed)
| HTTPError (code : Z) (body : error_body)
| URLError (e : str)
| InvalidHeader
| HttpException (e : str).

(** One pass of the receive loop: the clock reading and [ws.recv()]. *)
Record iteration : Type := {
  elapsed : Q;
  recv : recv_result
}.

(** The peer of one invocation. *)
Record peer : Type := {
  post : http_result;
  connect : option lib_error;
  iterations : list iteration
}.

Definition just (text : str) : failure :=
  {| msg := text; fail_output := None; fail_operation_id := None;
     fail_details := None |}.

Definition operations_url (p : params) : str :=
  Text.rstrip 47%N (berth_url p) ++ lit "/api/v1/servers/" ++ server_id p
  ++ lit "/stacks/" ++ stack_name p ++ lit "/operations".

Definition payload (p : params) : value :=
  Obj [(lit "command", Str (operation p));
       (lit "options", Arr (List.map Str (options p)));
       (lit "services", Arr (List.map Str (services p)))].

(** [start_operation(self)]: the request, which stands before the
    [try], then the [try] with its three [except] clauses.  The
    [SystemExit] of the [fail_json] inside the [try] passes
    [except Exception]; the [ValueError] of [Request] and the
    [UnicodeDecodeError] raised inside [except HTTPError] meet no
    handler. *)
Definition start_operation (p : params) (w : peer) : io state value :=
  let urlopen :=
    perform (HttpPost (operations_url p)
               [(lit "Authorization", lit "Bearer " ++ api_key p);
                (lit "Content-Type", lit "application/json")]
               (payload p) (negb (validate_certs p))) in
  match post w with
  | InvalidURL e => raise (Lib (OtherException e))
  | Response (Parsed (Obj result)) =>
      urlopen ;;
      modify (set_operation_id (get result (lit "operationId") Null)) ;;
      st <- read ;;
      if negb (truthy (operation_id st))
      then fail_json (fun _ => just (lit "No operation ID returned from server"))
      else ret (operation_id st)
  | Response (Parsed v) =>
      urlopen ;;
      fail_json (fun _ => just (lit "Unexpected error starting operation: "
                                ++ attribute_error v (lit "get")))
  | Response (Malformed e) =>
      urlopen ;;
      fail_json (fun _ => just (lit "Unexpected error starting operation: " ++ e))
  | HTTPError code NoBody =>
      urlopen ;;
      fail_json (fun _ =>
        {| msg := lit "Failed to start operation: HTTP " ++ Text.of_Z code;
           fail_output := None; fail_operation_id := None;
           fail_details := Some [] |})
  | HTTPError code (Body text) =>
      urlopen ;;
      fail_json (fun _ =>
        {| msg := lit "Failed to start operation: HTTP " ++ Text.of_Z code;
           fail_output := None; fail_operation_id := None;
           fail_details := Some text |})
  | HTTPError code (Undecodable e) =>
      urlopen ;;
      raise (Lib (OtherException e))
  | URLError e =>
      urlopen ;;
      fail_json (fun _ => just (lit "Failed to connect to Berth server: " ++ e))
  | InvalidHeader =>
      urlopen ;;
      fail_json (fun _ =>
        just (lit "Unexpected error starting operation: "
              ++ header_error (lit "Bearer " ++ api_key p)))
  | HttpException e =>
      urlopen ;;
      fail_json (fun _ => just (lit "Unexpected error starting operation: " ++ e))
  end.

(** The branch [msg_type in ['stdout', 'stderr']]. *)
Definition on_output (msg_data : dict) : io state control :=
  let data := get msg_data (lit "data") (Str []) in
  if truthy data then
    match data with
    | Str text => modify (append_output (Text.rstrip NL text)) ;; ret Continue
    | v => raise (Lib (OtherException (attribute_error v (lit "rstrip"))))
    end
  else ret Continue.

(** The branch [msg_type == 'progress']. *)
Definition on_progress (msg_data : dict) : io state control :=
  let data := get msg_data (lit "data") (Str []) in
  if truthy data then
    let timestamp := get msg_data (lit "timestamp") (Str []) in
    modify (append_output
              (lit "[" ++ format timestamp ++ lit "] " ++ format data)) ;;
    ret Continue
  else ret Continue.

(** The branch [msg_type == 'complete']. *)
Definition on_complete (msg_data : dict) : io state control :=
  modify (set_success (get msg_data (lit "success") (Bool false))) ;;
  st <- read ;;
  modify (set_exit_code
            (get msg_data (lit "exitCode")
               (if negb (truthy (success st)) then Int 1 else Int 0))) ;;
  perform WsClose ;;
  ret Return.

(** The branch [msg_type == 'error']. *)
Definition on_error (msg_data : dict) : io state control :=
  let error_msg := get msg_data (lit "data") (Str (lit "Unknown error")) in
  perform WsClose ;;
  fail_json (fun st =>
    {| msg := lit "Operation error: " ++ format error_msg;
       fail_output := Some (output_lines st);
       fail_operation_id := Some (operation_id st);
       fail_details := None |}).

(** From [json.loads(message)] to the end of the [if]/[elif] chain. *)
Definition dispatch (message : parsed) : io state control :=
  match message with
  | Malformed e => raise (Lib (OtherException e))
  | Parsed (Obj msg_data) =>
      if eq_str (msg_type msg_data) (lit "stdout")
         || eq_str (msg_type msg_data) (lit "stderr")
      then on_output msg_data
      else if eq_str (msg_type msg_data) (lit "progress")
      then on_progress msg_data
      else if eq_str (msg_type msg_data) (lit "complete")
      then on_complete msg_data
      else if eq_str (msg_type msg_data) (lit "error")
      then on_error msg_data
      else ret Continue
  | Parsed v => raise (Lib (OtherException (attribute_error v (lit "get"))))
  end.

(** The two [except] clauses of the inner [try]. *)
Definition on_websocket_exception (e : raised)
  : option (io state control) :=
  match e with
  | Lib (WebSocketTimeoutException _) => Some (ret Continue)
  | Lib (WebSocketException t) =>
      Some (perform WsClose ;;
            fail_json (fun st =>
              {| msg := lit "WebSocket error: " ++ t;
                 fail_output := Some (output_lines st);
                 fail_operation_id := Some (operation_id st);
                 fail_details := None |}))
  | Lib (OtherException _) | SystemExit _ => None
  end.

(** One pass through the body of [while True:]. *)
Definition loop_body (p : params) (it : iteration) : io state control :=
  (if timed_out (elapsed it) (timeout p) then
     perform WsClose ;;
     fail_json (fun st =>
       {| msg := lit "Operation timed out after "
                 ++ Text.of_Z (timeout p) ++ lit " seconds";
          fail_output := Some (output_lines st);
          fail_operation_id := Some (operation_id st);
          fail_details := None |})
   else ret tt) ;;
  try_except
    (message <- ws_recv (recv it) ;;
     match message with
     | None => ret Continue
     | Some m => dispatch m
     end)
    on_websocket_exception.

Definition ws_scheme (p : params) : str :=
  if Text.eqb (urlparse_scheme (Text.rstrip 47%N (berth_url p))) (lit "https")
  then lit "wss" else lit "ws".

Definition ws_url (p : params) (st : state) : str :=
  ws_scheme p ++ lit "://"
  ++ urlparse_netloc (Text.rstrip 47%N (berth_url p))
  ++ lit "/ws/api/servers/" ++ server_id p
  ++ lit "/stacks/" ++ stack_name p
  ++ lit "/operations/" ++ format (operation_id st).

(** The outer [except Exception as e:] and the end of the method. *)
Definition finish (r : loop_end * state * list action)
  : outcome state state * list action :=
  match r with
  | (Done, s, l) => (Returned s, l)
  | (Starved, s, l) => (Pending s, l)
  | (Raised (SystemExit f), _, l) => (Exited f, l)
  | (Raised (Lib e), s, l) =>
      (Exited {| msg := lit "Failed to connect to WebSocket: " ++ error_text e;
                 fail_output := None;
                 fail_operation_id := Some (operation_id s);
                 fail_details := None |}, l)
  end.

(** [websocket.create_connection], to the URL of the operation. *)
Definition opening (p : params) (w : peer) : io state unit :=
  fun s =>
    call (WsConnect (ws_url p s)
            [lit "Authorization: Bearer " ++ api_key p]
            (Text.eqb (ws_scheme p) (lit "wss") && negb (validate_certs p))
            (timeout p))
         (connect w) s.

(** [stream_operation(self)], from the state and log [start_operation]
    left.  ([urlparse(self.berth_url)], which stands before the [try],
    returns: [Request] has parsed the same address.) *)
Definition stream_operation (p : params) (w : peer)
    (s : state) (l : list action)
  : outcome state state * list action :=
  match opening p w s l with
  | (inl _, s', l') => finish (while_true (loop_body p) (iterations w) s' l')
  | (inr e, s', l') => finish (Raised e, s', l')
  end.

(** The dictionary [execute] returns. *)
Record result : Type := {
  changed : bool;
  result_operation_id : value;
  message : str;
  result_exit_code : value;
  output : list str;
  failed : bool
}.

Definition services_str (p : params) : str :=
  match services p with
  | [] => []
  | _ => lit " on services " ++ Text.join (lit ", ") (services p)
  end.

Definition result_of (p : params) (st : state) : result :=
  {| changed := true;
     result_operation_id := operation_id st;
     message :=
       if negb (truthy (success st))
       then lit "Failed " ++ operation p ++ lit " operation on stack "
            ++ stack_name p ++ services_str p
       else lit "Successfully completed " ++ operation p
            ++ lit " operation on stack " ++ stack_name p ++ services_str p;
     result_exit_code := exit_code st;
     output := output_lines st;
     failed := negb (truthy (success st)) |}.

(** The end of [execute], after [stream_operation]. *)
Definition conclude (p : params) (r : outcome state state * list action)
  : outcome result state * list action :=
  match r with
  | (Returned st, l) => (Returned (result_of p st), l)
  | (Exited f, l) => (Exited f, l)
  | (Pending st, l) => (Pending st, l)
  | (Uncaught e, l) => (Uncaught e, l)
  end.

(** [execute(self)].  It has no handler of its own: what
    [start_operation] lets out leaves it. *)
Definition execute (p : params) (w : peer)
  : outcome result state * list action :=
  match start_operation p w init [] with
  | (inr (SystemExit f), _, l) => (Exited f, l)
  | (inr (Lib e), _, l) => (Uncaught (error_text e), l)
  | (inl _, s, l) => conclude p (stream_operation p w s l)
  end.

(** The clock reading of [it] is within the timeout. *)
Definition in_time (p : params) (it : iteration) : Prop :=
  timed_out (elapsed it) (timeout p) = false.

(** The peer [w] with the passes [its] and no more. *)
Definition with_iterations (w : peer) (its : list iteration) : peer :=
  {| post := post w; connect := connect w; iterations := its |}.

(** After the passes [pre] the session is still in its receive loop, in
    state [st], having done [l]. *)
Definition running (p : params) (w : peer) (pre : list iteration)
    (st : state) (l : list action) : Prop :=
  execute p (with_iterations w pre) = (Pending st, l).

(** The frame of a message [msg_data]. *)
Definition frame_of (msg_data : dict) : recv_result :=
  Frame (Parsed (Obj msg_data)).

(** [it] brings, in time, a message of type [kind]. *)
Definition brings (p : params) (it : iteration) (kind : string)
    (msg_data : dict) : Prop :=
  in_time p it /\
  recv it = frame_of msg_data /\
  msg_type msg_data = Str (lit kind).

(** The server accepts the request and the WebSocket opens. *)
Definition accepted (w : peer) (id : value) : Prop :=
  (exists body, post w = Response (Parsed (Obj body))
                /\ get body (lit "operationId") Null = id)
  /\ truthy id = true
  /\ connect w = None.

(** The reading under which every [stdout] or [stderr] message adds a
    line: its payload text, the trailing newline stripped. *)
Definition every_output_appends : Prop :=
  forall p w pre it msg_data text st l,
    running p w pre st l ->
    in_time p it -> recv it = frame_of msg_data ->
    msg_type msg_data = Str (lit "stdout")
    \/ msg_type msg_data = Str (lit "stderr") ->
    get msg_data (lit "data") (Str []) = Str text ->
    exists st' l',
      running p w (pre ++ [it]) st' l'
      /\ output_lines st' = output_lines st ++ [Text.rstrip NL text].

(** [q] is [p] under another API key. *)
Definition same_but_key (p q : params) : Prop :=
  berth_url p = berth_url q /\ server_id p = server_id q
  /\ stack_name p = stack_name q /\ operation p = operation q
  /\ options p = options q /\ services p = services q
  /\ validate_certs p = validate_certs q /\ timeout p = timeout q.

(** The reading under which no data the stack client returns or fails
    with holds the API key: whatever the request and the stream come
    to, the outcome is the same under any two keys. *)
Definition key_never_returned : Prop :=
  forall p q w,
    same_but_key p q -> fst (execute p w) = fst (execute q w).

(** The output lines an outcome hands over: those of the result, of the
    [fail_json] (none when it names no output), or of the session so
    far; an uncaught exception hands over none. *)
Definition lines_of (o : outcome result state) : list str :=
  match o with
  | Returned r => output r
  | Exited f => match fail_output f with Some lines => lines | None => [] end
  | Pending st => output_lines st
  | Uncaught _ => []
  end.

(** A message whose type is none of the five the loop knows. *)
Definition unknown_type (msg_data : dict) : Prop :=
  eq_str (msg_type msg_data) (lit "stdout") = false
  /\ eq_str (msg_type msg_data) (lit "stderr") = false
  /\ eq_str (msg_type msg_data) (lit "progress") = false
  /\ eq_str (msg_type msg_data) (lit "complete") = false
  /\ eq_str (msg_type msg_data) (lit "error") = false.

(** [p] with another [berth_url]. *)
Definition with_berth_url (p : params) (url : str) : params :=
  {| berth_url := url; api_key := api_key p; server_id := server_id p;
     stack_name := stack_name p; operation := operation p;
     options := options p; services := services p;
     validate_certs := validate_certs p; timeout := timeout p |}.

(** [main()], from [if not HAS_WEBSOCKET:] on; the module's parameters
    are those [AnsibleModule] has accepted. *)
Definition main (HAS_WEBSOCKET : bool) (p : params) (w : peer)
  : ending result state * list action :=
  if negb HAS_WEBSOCKET then (FailJson missing_websocket, [])
  else
    match execute p w with
    | (Returned r, l) =>
        if failed r then (TypeError r, l) else (ExitJson r, l)
    | (Exited f, l) => (FailJson f, l)
    | (Pending st, l) => (Waiting st, l)
    | (Uncaught e, l) => (Propagated e, l)
    end.

(** The call [urlopen(request, ...)] of [start_operation]. *)
Definition requesting (p : params) : action :=
  HttpPost (operations_url p)
    [(lit "Authorization", lit "Bearer " ++ api_key p);
     (lit "Content-Type", lit "application/json")]
    (payload p) (negb (validate_certs p)).

(** The call [websocket.create_connection(...)] of [stream_operation],
    for the operation [id]. *)
Definition connecting (p : params) (id : value) : action :=
  WsConnect (ws_url p (set_operation_id id init))
    [lit "Authorization: Bearer " ++ api_key p]
    (Text.eqb (ws_scheme p) (lit "wss") && negb (validate_certs p))
    (timeout p).

(** The [fail_json] of the outer [except Exception as e:], for the
    operation [id]. *)
Definition connect_failed (e : lib_error) (id : value) : failure :=
  {| msg := lit "Failed to connect to WebSocket: " ++ error_text e;
     fail_output := None; fail_operation_id := Some id;
     fail_details := None |}.

(** [it] receives, in time, a frame that is text. *)
Definition receives (p : params) (it : iteration) (m : parsed) : Prop :=
  in_time p it /\ recv it = Frame m.

(** The outcome of [execute] for the outcome of [stream_operation]. *)
Definition report (p : params) (o : outcome state state)
  : outcome result state :=
  match o with
  | Returned st => Returned (result_of p st)
  | Exited f => Exited f
  | Pending st => Pending st
  | Uncaught e => Uncaught e
  end.

End Operator.
End Stack.

(** ** Escape sequences, as the specification names them *)

(** A CSI sequence [ESC [ ... letter], the dots being characters of
    [[0-9;?]], and an OSC sequence [ESC ] ... BEL], the dots being any
    characters but BEL. *)
Inductive escape_sequence : str -> Prop :=
| CSI (parameters : str) (final : char) :
    forallb is_param parameters = true ->
    is_letter final = true ->
    escape_sequence (ESC :: LBRACKET :: parameters ++ [final])
| OSC (body : str) :
    forallb not_bel body = true ->
    escape_sequence (ESC :: RBRACKET :: body ++ [BEL]).

(** [text] holds no escape sequence. *)
Definition clean (text : str) : Prop :=
  forall before m after,
    escape_sequence m -> text <> before ++ m ++ after.

(** [strips_to text out]: reading [text] from the left, [out] is [text]
    without the escape sequences met, every other character kept in
    place. *)
Inductive strips_to : str -> str -> Prop :=
| strips_end : strips_to [] []
| strips_drop (m rest out : str) :
    escape_sequence m ->
    strips_to rest out ->
    strips_to (m ++ rest) out
| strips_keep (c : char) (rest out : str) :
    (forall m after, escape_sequence m -> c :: rest <> m ++ after) ->
    strips_to rest out ->
    strips_to (c :: rest) (c :: out).

(** The longest prefix of [s] inside the class [p], and what follows. *)
Fixpoint take_while (p : char -> bool) (s : str) : str :=
  match s with
  | c :: s' => if p c then c :: take_while p s' else []
  | [] => []
  end.

Fixpoint drop_while (p : char -> bool) (s : str) : str :=
  match s with
  | c :: s' => if p c then drop_while p s' else s
  | [] => []
  end.

(** What [ANSI_ESCAPE_REGEX] matches at the head of a text, decided by
    the first two characters. *)
Definition ansi_match (s : str) : option str :=
  match s with
  | c0 :: c1 :: s2 =>
      if N.eqb c0 ESC then
        if N.eqb c1 LBRACKET then
          match drop_while is_param s2 with
          | final :: rest => if is_letter final then Some rest else None
          | [] => None
          end
        else if N.eqb c1 RBRACKET then
          match drop_while not_bel s2 with
          | _ :: rest => Some rest
          | [] => None
          end
        else None
      else None
  | _ => None
  end.


(** [out] is [text] with some characters left out. *)
Inductive subsequence : str -> str -> Prop :=
| subsequence_end : subsequence [] []
| subsequence_skip (c : char) (out text : str) :
    subsequence out text -> subsequence out (c :: text)
| subsequence_take (c : char) (out text : str) :
    subsequence out text -> subsequence (c :: out) (c :: text).

(** [text] has no ESC character. *)
Definition no_esc (text : str) : Prop := existsb (N.eqb ESC) text = false.

(** ** A runtime and peers for the examples *)

Module Demo.

(** The value of a character of the base64 alphabet. *)
Definition b64_digit (c : char) : option N :=
  if N.leb 65 c && N.leb c 90 then Some (c - 65)%N
  else if N.leb 97 c && N.leb c 122 then Some (c - 71)%N
  else if N.leb 48 c && N.leb c 57 then Some (c + 4)%N
  else if N.eqb c 43 then Some 62%N
  else if N.eqb c 47 then Some 63%N
  else None.

(** Canonical base64: groups of four characters, the last one padded
    with [=]. *)
Fixpoint b64decode (s : str) : option (list N) :=
  match s with
  | [] => Some []
  | a :: b :: c :: d :: rest =>
      match b64_digit a, b64_digit b with
      | Some x, Some y =>
          let b0 := (x * 4 + y / 16)%N in
          if N.eqb c 61 then
            match rest with
            | [] => if N.eqb d 61 then Some [b0] else None
            | _ => None
            end
          else
            match b64_digit c with
            | Some z =>
                let b1 := ((y mod 16) * 16 + z / 4)%N in
                if N.eqb d 61 then
                  match rest with
                  | [] => Some [b0; b1]
                  | _ => None
                  end
                else
                  match b64_digit d, b64decode rest with
                  | Some w, Some tail =>
                      Some (b0 :: b1 :: ((z mod 4) * 64 + w)%N :: tail)
                  | _, _ => None
                  end
            | None => None
            end
      | _, _ => None
      end
  | _ => None
  end.

Definition is_ascii (s : str) : bool := forallb (fun c => N.ltb c 128) s.

(** The text up to the first [c], and the text after it. *)
Fixpoint before (c : char) (s : str) : str :=
  match s with
  | [] => []
  | x :: s' => if N.eqb x c then [] else x :: before c s'
  end.

Fixpoint after (c : char) (s : str) : str :=
  match s with
  | [] => []
  | x :: s' => if N.eqb x c then s' else after c s'
  end.

(** A character of a [bytes] value as [repr] shows it: a line break as
    the two characters backslash and [n] (the literals below have no
    escapes: they are a backslash and a letter). *)
Definition repr_byte (c : char) : str :=
  if N.eqb c 9 then lit "\t"
  else if N.eqb c 10 then lit "\n"
  else if N.eqb c 13 then lit "\r"
  else if N.leb 32 c && N.leb c 126 && negb (N.eqb c 39) && negb (N.eqb c 92)
  then [c]
  else lit "?".

(** Python's library on the inputs of the examples: base64 in canonical
    form carrying ASCII text, ASCII commands, URLs of the form
    [scheme://host/path], and header values of printable ASCII (quotes
    and backslashes apart), tabs and line breaks.  Elsewhere it answers
    with an error or a placeholder, which no example reaches. *)
Definition runtime : Runtime := {|
  b64decode_utf8 v :=
    match v with
    | Str s =>
        match b64decode s with
        | Some bytes =>
            if is_ascii bytes then inl bytes
            else inr (lit "not ASCII")
        | None => inr (lit "Incorrect padding")
        end
    | _ => inr (lit "argument should be a bytes-like object or ASCII string")
    end;
  repr v := lit "<" ++ type_name v ++ lit ">";
  encode s :=
    if is_ascii s then inl (List.map Z.of_N s)
    else inr (lit "not ASCII");
  urlparse_scheme url := before 58%N url;
  urlparse_netloc url := before 47%N (List.skipn 2 (after 58%N url));
  header_error v :=
    lit "Invalid header value b'" ++ List.flat_map repr_byte v ++ lit "'"
|}.

(** An invocation of [berth_exec]: [hostname] in the service [web]. *)
Definition exec_params : Exec.params :=
  {| Exec.berth_url := lit "https://berth.example.com/";
     Exec.api_key := lit "brth_0123456789";
     Exec.server_id := lit "1";
     Exec.stack_name := lit "myapp";
     Exec.service_name := lit "web";
     Exec.container_name := [];
     Exec.command := lit "hostname";
     Exec.validate_certs := true;
     Exec.timeout := 30 |}.

(** The same invocation under another key. *)
Definition exec_params_other_key : Exec.params :=
  {| Exec.berth_url := lit "https://berth.example.com/";
     Exec.api_key := lit "brth_abcdefghij";
     Exec.server_id := lit "1";
     Exec.stack_name := lit "myapp";
     Exec.service_name := lit "web";
     Exec.container_name := [];
     Exec.command := lit "hostname";
     Exec.validate_certs := true;
     Exec.timeout := 30 |}.

(** A pass of the exec loop that receives the message [items] at
    [tenths] tenths of a second. *)
Definition exec_pass (tenths : Z) (items : dict) : Exec.iteration :=
  {| Exec.elapsed := Qmake tenths 10;
     Exec.recv := Exec.frame_of items;
     Exec.send_command := None;
     Exec.send_exit := None |}.

(** A pass of the exec loop in which [ws.recv()] raises [e]. *)
Definition exec_raise (tenths : Z) (e : lib_error) : Exec.iteration :=
  {| Exec.elapsed := Qmake tenths 10;
     Exec.recv := RecvRaises e;
     Exec.send_command := None;
     Exec.send_exit := None |}.

Definition success_msg : dict :=
  [(lit "type", Str (lit "success")); (lit "session_id", Str (lit "s-1"))].

(** [terminal_output] carrying [payload], which is base64. *)
Definition output_msg (payload : string) : dict :=
  [(lit "type", Str (lit "terminal_output")); (lit "output", Str (lit payload))].

Definition close_msg (code : Z) : dict :=
  [(lit "type", Str (lit "terminal_close")); (lit "exit_code", Int code)].

Definition exec_error_msg : dict :=
  [(lit "type", Str (lit "error"));
   (lit "error", Str (lit "container not found"));
   (lit "context", Str (lit "web"))].

(** The prompt [/app # ], the echo [hostname] and the output [web-1],
    the last two ending in CR LF. *)
Definition prompt_payload : string := "L2FwcCAjIA==".
Definition echo_payload : string := "aG9zdG5hbWUNCg==".
Definition real_payload : string := "d2ViLTENCg==".

(** [web-1] and CR LF. *)
Definition real_line : str := lit "web-1" ++ [13%N; 10%N].

Definition exec_prefix : list Exec.iteration :=
  [exec_pass 1 success_msg;
   exec_pass 2 (output_msg prompt_payload);
   exec_pass 3 (output_msg echo_payload);
   exec_pass 4 (output_msg real_payload)].

(** The peer that lets the session start and then sends [its]. *)
Definition exec_peer (its : list Exec.iteration) : Exec.peer :=
  {| Exec.connect := None; Exec.send_start := None; Exec.iterations := its |}.

(** An invocation of [berth_stack]: [restart] of the stack [myapp]. *)
Definition stack_params : Stack.params :=
  {| Stack.berth_url := lit "https://berth.example.com";
     Stack.api_key := lit "brth_0123456789";
     Stack.server_id := lit "1";
     Stack.stack_name := lit "myapp";
     Stack.operation := lit "restart";
     Stack.options := [];
     Stack.services := [lit "web"];
     Stack.validate_certs := true;
     Stack.timeout := 600 |}.

(** The same invocation under another key. *)
Definition stack_params_other_key : Stack.params :=
  {| Stack.berth_url := lit "https://berth.example.com";
     Stack.api_key := lit "brth_abcdefghij";
     Stack.server_id := lit "1";
     Stack.stack_name := lit "myapp";
     Stack.operation := lit "restart";
     Stack.options := [];
     Stack.services := [lit "web"];
     Stack.validate_certs := true;
     Stack.timeout := 600 |}.

Definition stack_pass (seconds : Z) (items : dict) : Stack.iteration :=
  {| Stack.elapsed := inject_Z seconds; Stack.recv := Stack.frame_of items |}.

Definition stack_raise (seconds : Z) (e : lib_error) : Stack.iteration :=
  {| Stack.elapsed := inject_Z seconds; Stack.recv := RecvRaises e |}.

Definition stdout_msg (data : str) : dict :=
  [(lit "type", Str (lit "stdout")); (lit "data", Str data)].

Definition progress_msg (data timestamp : string) : dict :=
  [(lit "type", Str (lit "progress")); (lit "data", Str (lit data));
   (lit "timestamp", Str (lit timestamp))].

Definition complete_msg (success : bool) : dict :=
  [(lit "type", Str (lit "complete")); (lit "success", Bool success)].

Definition stack_error_msg : dict :=
  [(lit "type", Str (lit "error")); (lit "data", Str (lit "compose failed"))].

(** The server that answers the request with [body] and then sends
    [its]. *)
Definition stack_peer (body : dict) (its : list Stack.iteration)
  : Stack.peer :=
  {| Stack.post := Stack.Response (Parsed (Obj body));
     Stack.connect := None;
     Stack.iterations := its |}.

Definition accepted_body : dict := [(lit "operationId", Str (lit "op-1"))].

(** A pass that receives [success] and whose first [ws.send] times out at
    the transport: the command is not sent. *)
Definition exec_pass_unsent : Exec.iteration :=
  {| Exec.elapsed := Qmake 1 10;
     Exec.recv := Exec.frame_of success_msg;
     Exec.send_command := Some (WebSocketTimeoutException (lit "timed out"));
     Exec.send_exit := None |}.

(** The same invocation of [berth_exec] with an empty command. *)
Definition exec_params_no_command : Exec.params :=
  {| Exec.berth_url := lit "https://berth.example.com/";
     Exec.api_key := lit "brth_0123456789";
     Exec.server_id := lit "1";
     Exec.stack_name := lit "myapp";
     Exec.service_name := lit "web";
     Exec.container_name := [];
     Exec.command := [];
     Exec.validate_certs := true;
     Exec.timeout := 30 |}.

(** The two escape sequences [ESC [0m] and [ESC [1m], and the text
    [anything]. *)
Definition escapes_payload : string := "G1swbRtbMW0=".
Definition anything_payload : string := "YW55dGhpbmc=".

(** A pass of the exec loop that receives a frame that is not JSON. *)
Definition exec_garbled (tenths : Z) : Exec.iteration :=
  {| Exec.elapsed := Qmake tenths 10;
     Exec.recv := Frame (Malformed (lit "Expecting value"));
     Exec.send_command := None;
     Exec.send_exit := None |}.

(** A pass of the exec loop that receives an empty frame. *)
Definition exec_empty (tenths : Z) : Exec.iteration :=
  {| Exec.elapsed := Qmake tenths 10;
     Exec.recv := EmptyFrame;
     Exec.send_command := None;
     Exec.send_exit := None |}.

(** A peer that refuses the connection. *)
Definition exec_peer_refusing : Exec.peer :=
  {| Exec.connect := Some (OtherException (lit "Connection refused"));
     Exec.send_start := None;
     Exec.iterations := [] |}.

Definition stack_peer_refusing : Stack.peer :=
  {| Stack.post := Stack.Response (Parsed (Obj accepted_body));
     Stack.connect := Some (OtherException (lit "Connection refused"));
     Stack.iterations := [] |}.

(** A server that answers the request with the status 500. *)
Definition stack_peer_http_error : Stack.peer :=
  {| Stack.post := Stack.HTTPError 500 (Stack.Body (lit "internal error"));
     Stack.connect := None;
     Stack.iterations := [] |}.

(** A server that answers the request with the status 502 and a body
    that is not UTF-8. *)
Definition stack_peer_undecodable : Stack.peer :=
  {| Stack.post :=
       Stack.HTTPError 502
         (Stack.Undecodable
            (lit "'utf-8' codec can't decode byte 0xff in position 0: invalid start byte"));
     Stack.connect := None;
     Stack.iterations := [] |}.

(** The invocation of [berth_stack] under a key that ends in a line
    break, and the same under another such key. *)
Definition stack_params_key_newline : Stack.params :=
  {| Stack.berth_url := lit "https://berth.example.com";
     Stack.api_key := lit "brth_0123456789" ++ [NL];
     Stack.server_id := lit "1";
     Stack.stack_name := lit "myapp";
     Stack.operation := lit "restart";
     Stack.options := [];
     Stack.services := [lit "web"];
     Stack.validate_certs := true;
     Stack.timeout := 600 |}.

Definition stack_params_other_key_newline : Stack.params :=
  {| Stack.berth_url := lit "https://berth.example.com";
     Stack.api_key := lit "brth_abcdefghij" ++ [NL];
     Stack.server_id := lit "1";
     Stack.stack_name := lit "myapp";
     Stack.operation := lit "restart";
     Stack.options := [];
     Stack.services := [lit "web"];
     Stack.validate_certs := true;
     Stack.timeout := 600 |}.

(** What the request of such an invocation comes to: [http.client]
    refuses the header. *)
Definition stack_peer_invalid_header : Stack.peer :=
  {| Stack.post := Stack.InvalidHeader;
     Stack.connect := None;
     Stack.iterations := [] |}.

(** The invocation of [berth_stack] with an address without scheme, and
    what its request comes to. *)
Definition stack_params_no_scheme : Stack.params :=
  {| Stack.berth_url := lit "berth.example.com";
     Stack.api_key := lit "brth_0123456789";
     Stack.server_id := lit "1";
     Stack.stack_name := lit "myapp";
     Stack.operation := lit "restart";
     Stack.options := [];
     Stack.services := [lit "web"];
     Stack.validate_certs := true;
     Stack.timeout := 600 |}.

Definition stack_peer_invalid_url : Stack.peer :=
  {| Stack.post :=
       Stack.InvalidURL
         (lit "unknown url type: 'berth.example.com/api/v1/servers/1/stacks/myapp/operations'");
     Stack.connect := None;
     Stack.iterations := [] |}.

(** A [stdout] message whose data is a number, a message of a type the
    client does not know, and an [error] message without data. *)
Definition stdout_number_msg : dict :=
  [(lit "type", Str (lit "stdout")); (lit "data", Int 5)].

Definition heartbeat_msg : dict := [(lit "type", Str (lit "heartbeat"))].

Definition bare_error_msg : dict := [(lit "type", Str (lit "error"))].

End Demo.

(** * Properties *)

(** ** Text *)

Lemma text_eqb_eq (a b : str) : Text.eqb a b = true <-> a = b.
Proof.
  revert b; induction a as [|x a IH]; intros [|y b]; simpl;
    try (split; [discriminate | congruence]); try tauto.
  rewrite andb_true_iff, N.eqb_eq, IH. split.
  - intros [-> ->]; reflexivity.
  - intros H; injection H; auto.
Qed.

Lemma text_eqb_refl (a : str) : Text.eqb a a = true.
Proof. apply text_eqb_eq; reflexivity. Qed.

Lemma startswith_prefix (p s : str) :
  Text.startswith p s = true <-> exists rest, s = p ++ rest.
Proof.
  revert s; induction p as [|x p IH]; intros s; simpl.
  - split; [intros _; exists s; reflexivity | reflexivity].
  - destruct s as [|y s].
    + split; [discriminate | intros [rest H]; discriminate].
    + rewrite andb_true_iff, N.eqb_eq, IH. split.
      * intros [-> [rest ->]]. exists rest; reflexivity.
      * intros [rest H]. injection H as -> ->. split; [reflexivity | eauto].
Qed.

Lemma contains_infix (p s : str) :
  Text.contains p s = true <-> exists before after, s = before ++ p ++ after.
Proof.
  induction s as [|y s IH]; simpl.
  - rewrite orb_false_r, startswith_prefix. split.
    + intros [rest H]. exists [], rest. exact H.
    + intros [[|b before] [after H]]; [eauto | discriminate].
  - rewrite orb_true_iff, startswith_prefix, IH. split.
    + intros [[rest H] | [before [after H]]].
      * exists [], rest. exact H.
      * exists (y :: before), after. rewrite H. reflexivity.
    + intros [[|b before] [after H]].
      * left. exists after. exact H.
      * right. injection H as _ H. eauto.
Qed.

(** ** The matcher on [ANSI_ESCAPE_REGEX] *)

Lemma take_drop_while (p : char -> bool) (s : str) :
  s = take_while p s ++ drop_while p s.
Proof.
  induction s as [|c s IH]; simpl; [reflexivity|].
  destruct (p c); simpl; congruence.
Qed.

Lemma take_while_all (p : char -> bool) (s : str) :
  forallb p (take_while p s) = true.
Proof.
  induction s as [|c s IH]; simpl; [reflexivity|].
  destruct (p c) eqn:E; simpl; [rewrite E; exact IH | reflexivity].
Qed.

Lemma drop_while_app (p : char -> bool) (a : str) (c : char) (rest : str) :
  forallb p a = true -> p c = false ->
  drop_while p (a ++ c :: rest) = c :: rest.
Proof.
  intros Ha Hc. induction a as [|x a IH]; simpl in *.
  - rewrite Hc. reflexivity.
  - apply andb_true_iff in Ha as [Hx Ha]. rewrite Hx. auto.
Qed.

(** A continuation that refuses every character of the class sees, of
    all the ways the star can stop, only the longest. *)
Lemma star_longest (p : char -> bool) (k : str -> option str) (s : str) :
  (forall c s', p c = true -> k (c :: s') = None) ->
  Re.star p k s = k (drop_while p s).
Proof.
  intros Hk. induction s as [|c s IH]; simpl; [reflexivity|].
  destruct (p c) eqn:E; [|reflexivity].
  rewrite IH. destruct (k (drop_while p s)); [reflexivity|]. auto.
Qed.

Lemma param_not_letter (c : char) : is_param c = true -> is_letter c = false.
Proof.
  unfold is_param, is_letter.
  rewrite !orb_true_iff, !andb_true_iff, !N.leb_le, !N.eqb_eq.
  intros H. apply orb_false_iff; split; apply andb_false_iff;
    rewrite !N.leb_gt; lia.
Qed.

Lemma not_bel_iff (c : char) : not_bel c = false <-> c = BEL.
Proof.
  unfold not_bel. rewrite negb_false_iff. apply N.eqb_eq.
Qed.

Lemma drop_while_head (p : char -> bool) (s : str) (c : char) (rest : str) :
  drop_while p s = c :: rest -> p c = false.
Proof.
  induction s as [|x s IH]; simpl; [discriminate|].
  destruct (p x) eqn:Ex; [exact IH|].
  intros H; injection H as -> _. exact Ex.
Qed.

Lemma match_at_ansi (s : str) :
  Re.match_at ANSI_ESCAPE_REGEX s = ansi_match s.
Proof.
  unfold Re.match_at, ANSI_ESCAPE_REGEX, ansi_match. cbn [Re.run].
  destruct s as [|c0 s]; [reflexivity|].
  destruct (N.eqb c0 ESC) eqn:E0.
  2:{ destruct s; reflexivity. }
  destruct s as [|c1 s2]; [reflexivity|].
  destruct (N.eqb c1 LBRACKET) eqn:E1.
  - apply N.eqb_eq in E1. subst c1.
    change (N.eqb LBRACKET RBRACKET) with false.
    rewrite star_longest.
    + destruct (drop_while is_param s2) as [|final rest]; [reflexivity|].
      destruct (is_letter final); reflexivity.
    + intros c s' Hc. rewrite (param_not_letter _ Hc). reflexivity.
  - destruct (N.eqb c1 RBRACKET) eqn:E2; [|reflexivity].
    rewrite star_longest.
    + destruct (drop_while not_bel s2) as [|b rest] eqn:Ed; [reflexivity|].
      apply drop_while_head in Ed. apply not_bel_iff in Ed. subst b.
      rewrite N.eqb_refl. reflexivity.
    + intros c s' Hc. unfold not_bel in Hc.
      apply negb_true_iff in Hc. rewrite Hc. reflexivity.
Qed.

Lemma ansi_match_sound (s rest : str) :
  ansi_match s = Some rest ->
  exists m, escape_sequence m /\ s = m ++ rest.
Proof.
  unfold ansi_match.
  destruct s as [|c0 [|c1 s2]]; try discriminate.
  destruct (N.eqb c0 ESC) eqn:E0; [|discriminate].
  apply N.eqb_eq in E0. subst c0.
  destruct (N.eqb c1 LBRACKET) eqn:E1.
  - apply N.eqb_eq in E1. subst c1.
    destruct (drop_while is_param s2) as [|final tail] eqn:Ed; [discriminate|].
    destruct (is_letter final) eqn:El; [|discriminate].
    intros H; injection H as ->.
    exists (ESC :: LBRACKET :: take_while is_param s2 ++ [final]). split.
    + apply CSI; [apply take_while_all | exact El].
    + simpl. rewrite <- app_assoc. simpl. rewrite <- Ed.
      rewrite <- take_drop_while. reflexivity.
  - destruct (N.eqb c1 RBRACKET) eqn:E2; [|discriminate].
    apply N.eqb_eq in E2. subst c1.
    destruct (drop_while not_bel s2) as [|b tail] eqn:Ed; [discriminate|].
    intros H; injection H as ->.
    pose proof (drop_while_head _ _ _ _ Ed) as Hb.
    apply not_bel_iff in Hb. subst b.
    exists (ESC :: RBRACKET :: take_while not_bel s2 ++ [BEL]). split.
    + apply OSC. apply take_while_all.
    + simpl. rewrite <- app_assoc. simpl. rewrite <- Ed.
      rewrite <- take_drop_while. reflexivity.
Qed.

Lemma ansi_match_complete (m after : str) :
  escape_sequence m -> ansi_match (m ++ after) = Some after.
Proof.
  intros [parameters final Hp Hf | body Hb]; unfold ansi_match; simpl.
  - rewrite <- app_assoc. simpl.
    rewrite drop_while_app; trivial.
    + rewrite Hf. reflexivity.
    + destruct (is_param final) eqn:E; [|reflexivity].
      apply param_not_letter in E. congruence.
  - rewrite <- app_assoc. simpl.
    rewrite drop_while_app; trivial.
Qed.

(** A match of [ANSI_ESCAPE_REGEX] takes at least three characters. *)
Lemma ansi_match_shorter (c : char) (s rest : str) :
  ansi_match (c :: s) = Some rest -> List.length rest <= List.length s.
Proof.
  intros H. apply ansi_match_sound in H as [m [Hm E]].
  apply (f_equal (@List.length _)) in E.
  destruct Hm; simpl in E; rewrite ?length_app in E; simpl in E;
    rewrite ?length_app in E; simpl in E; lia.
Qed.

Lemma strip_nil : strip_ansi_codes [] = [].
Proof. unfold strip_ansi_codes. simp sub_empty. reflexivity. Qed.

Lemma strip_match (c : char) (s rest : str) :
  ansi_match (c :: s) = Some rest ->
  strip_ansi_codes (c :: s) = strip_ansi_codes rest.
Proof.
  intros H. unfold strip_ansi_codes. simp sub_empty.
  rewrite match_at_ansi, H. simpl.
  destruct (le_lt_dec (List.length rest) (List.length s)) as [Hle|Hlt]; simpl.
  - reflexivity.
  - apply ansi_match_shorter in H. lia.
Qed.

Lemma strip_no_match (c : char) (s : str) :
  ansi_match (c :: s) = None ->
  strip_ansi_codes (c :: s) = c :: strip_ansi_codes s.
Proof.
  intros H. unfold strip_ansi_codes. simp sub_empty.
  rewrite match_at_ansi, H. reflexivity.
Qed.

Lemma strip_strips (text : str) : strips_to text (strip_ansi_codes text).
Proof.
  remember (List.length text) as n eqn:Hn.
  revert text Hn. induction n as [n IH] using lt_wf_ind. intros text Hn.
  destruct text as [|c s].
  - rewrite strip_nil. constructor.
  - destruct (ansi_match (c :: s)) as [rest|] eqn:E.
    + rewrite (strip_match c s rest E).
      pose proof (ansi_match_shorter c s rest E) as Hlen.
      destruct (ansi_match_sound _ _ E) as [m [Hm ->]].
      apply strips_drop; [exact Hm|].
      apply (IH (List.length rest)); [subst n; simpl; lia | reflexivity].
    + rewrite (strip_no_match c s E).
      apply strips_keep.
      * intros m after Hm Heq. rewrite Heq in E.
        rewrite (ansi_match_complete m after Hm) in E. discriminate.
      * apply (IH (List.length s)); [subst n; simpl; lia | reflexivity].
Qed.

Lemma strips_to_functional (text out : str) :
  strips_to text out -> out = strip_ansi_codes text.
Proof.
  induction 1 as [|m rest out Hm _ IH|c rest out Hno _ IH].
  - rewrite strip_nil. reflexivity.
  - pose proof (ansi_match_complete m rest Hm) as E.
    destruct (m ++ rest) as [|c s] eqn:Hs.
    + destruct Hm; discriminate.
    + rewrite (strip_match c s rest E). exact IH.
  - rewrite strip_no_match; [congruence|].
    destruct (ansi_match (c :: rest)) as [after|] eqn:E; [|reflexivity].
    apply ansi_match_sound in E as [m [Hm Heq]].
    exfalso. exact (Hno m after Hm Heq).
Qed.

Lemma clean_tail (c : char) (s : str) : clean (c :: s) -> clean s.
Proof.
  intros H before m after Hm ->.
  exact (H (c :: before) m after Hm eq_refl).
Qed.

Lemma strips_clean (text out : str) :
  strips_to text out -> clean text -> out = text.
Proof.
  induction 1 as [|m rest out Hm _ _|c rest out _ _ IH]; intros Hc.
  - reflexivity.
  - exfalso. exact (Hc [] m rest Hm eq_refl).
  - f_equal. apply IH. exact (clean_tail _ _ Hc).
Qed.

(** ** Stepping through a receive loop *)

(** Comparisons between two literals of the source are computed. *)
Ltac literal_tests :=
  repeat match goal with
  | |- context [Text.eqb (lit ?a) (lit ?b)] =>
      let v := eval vm_compute in (Text.eqb (lit a) (lit b)) in
      change (Text.eqb (lit a) (lit b)) with v
  end.

(** The type of a message is known. *)
Ltac known_type H :=
  rewrite H; cbn [eq_str]; literal_tests; cbn [orb].

Lemma while_true_app {S I : Type} (body : I -> io S control)
    (pre post : list I) (s : S) (l : list action) :
  while_true body (pre ++ post) s l =
  match while_true body pre s l with
  | (Starved, s', l') => while_true body post s' l'
  | r => r
  end.
Proof.
  revert s l. induction pre as [|it pre IH]; intros s l; simpl.
  - reflexivity.
  - destruct (body it s l) as [[[[]|e] s'] l']; auto.
Qed.

Lemma get_lacks (d : dict) (key : str) (default : value) :
  lacks d key -> get d key default = default.
Proof.
  induction d as [|[k v] d IH]; intros H; simpl; [reflexivity|].
  destruct (Text.eqb k key) eqn:E.
  - apply text_eqb_eq in E. exfalso. exact (H k v (or_introl eq_refl) E).
  - apply IH. intros k' v' Hin. apply (H k' v'). right. exact Hin.
Qed.

(** A key that is in a dictionary reads the same under every default. *)
Lemma get_present (d : dict) (key : str) (a b : value) :
  ~ lacks d key -> get d key a = get d key b.
Proof.
  unfold lacks. induction d as [|[k v] d IH]; intros Hhas.
  - exfalso. apply Hhas. intros k v [].
  - cbn [get]. destruct (Text.eqb k key) eqn:E; [reflexivity|].
    apply IH. intro Hd. apply Hhas. intros k' v' [H|H].
    + injection H as <- <-. intros ->.
      rewrite text_eqb_refl in E. discriminate.
    + exact (Hd k' v' H).
Qed.

Section ExecSteps.
Context {rt : Runtime}.
Import Exec.

Variable p : params.

Lemma exec_body_timed_out (it : iteration) (st : state) (l : list action) :
  timed_out (elapsed it) (timeout p) = true ->
  loop_body p it st l =
  (inr (SystemExit
     {| msg := lit "Command execution timed out after "
               ++ Text.of_Z (timeout p) ++ lit " seconds";
        fail_output := Some (output_lines st);
        fail_operation_id := None; fail_details := None |}),
   st, l ++ [WsClose]).
Proof.
  intros H. unfold loop_body, bind. rewrite H. reflexivity.
Qed.

Lemma exec_body_frame (it : iteration) (m : parsed) (st : state)
    (l : list action) :
  in_time p it -> recv it = Frame m ->
  loop_body p it st l =
  try_except (dispatch p it m) on_websocket_exception st (l ++ [WsRecv]).
Proof.
  intros Ht Hr. unfold loop_body, bind, try_except, ws_recv.
  rewrite Ht, Hr. reflexivity.
Qed.

Lemma exec_body_recv_timeout (it : iteration) (e : str) (st : state)
    (l : list action) :
  in_time p it -> recv it = RecvRaises (WebSocketTimeoutException e) ->
  loop_body p it st l = (inl Continue, st, l ++ [WsRecv]).
Proof.
  intros Ht Hr. unfold loop_body, bind, try_except, ws_recv.
  rewrite Ht, Hr. reflexivity.
Qed.

Lemma exec_body_empty (it : iteration) (st : state) (l : list action) :
  in_time p it -> recv it = EmptyFrame ->
  loop_body p it st l = (inl Continue, st, l ++ [WsRecv]).
Proof.
  intros Ht Hr. unfold loop_body, bind, try_except, ws_recv.
  rewrite Ht, Hr. reflexivity.
Qed.

Lemma exec_dispatch_success (it : iteration) (d : dict) :
  msg_type d = Str (lit "success") ->
  dispatch p it (Parsed (Obj d)) = on_success p it d.
Proof. intros H. unfold dispatch. known_type H. reflexivity. Qed.

Lemma exec_dispatch_output (it : iteration) (d : dict) :
  msg_type d = Str (lit "terminal_output") ->
  dispatch p it (Parsed (Obj d)) = on_terminal_output p d.
Proof. intros H. unfold dispatch. known_type H. reflexivity. Qed.

Lemma exec_dispatch_close (it : iteration) (d : dict) :
  msg_type d = Str (lit "terminal_close") ->
  dispatch p it (Parsed (Obj d)) = on_terminal_close d.
Proof. intros H. unfold dispatch. known_type H. reflexivity. Qed.

Lemma exec_dispatch_error (it : iteration) (d : dict) :
  msg_type d = Str (lit "error") ->
  dispatch p it (Parsed (Obj d)) = on_error d.
Proof. intros H. unfold dispatch. known_type H. reflexivity. Qed.

(** A [terminal_output] in a session that is ready: the payload is
    decoded and cleaned, and kept unless empty or filtered. *)
Lemma exec_body_output (it : iteration) (d : dict) (decoded : str)
    (st : state) (l : list action) :
  in_time p it -> recv it = Frame (Parsed (Obj d)) ->
  msg_type d = Str (lit "terminal_output") ->
  session_ready st = true ->
  truthy (get d (lit "output") (Str [])) = true ->
  b64decode_utf8 (get d (lit "output") (Str [])) = inl decoded ->
  loop_body p it st l =
  (inl Continue,
   (if negb (Text.eqb (strip_ansi_codes decoded) [])
       && negb (should_skip_output p st (strip_ansi_codes decoded))
    then append_output (strip_ansi_codes decoded) st else st),
   l ++ [WsRecv]).
Proof.
  intros Ht Hr Hty Hready Htruthy Hdec.
  rewrite (exec_body_frame it _ st l Ht Hr), (exec_dispatch_output it d Hty).
  unfold try_except, on_terminal_output, bind, read.
  rewrite Hready, Htruthy, Hdec.
  destruct (negb (Text.eqb (strip_ansi_codes decoded) [])
            && negb (should_skip_output p st (strip_ansi_codes decoded)));
    reflexivity.
Qed.

(** A [terminal_output] in a session that is not ready. *)
Lemma exec_body_output_early (it : iteration) (d : dict) (st : state)
    (l : list action) :
  in_time p it -> recv it = Frame (Parsed (Obj d)) ->
  msg_type d = Str (lit "terminal_output") ->
  session_ready st = false ->
  loop_body p it st l = (inl Continue, st, l ++ [WsRecv]).
Proof.
  intros Ht Hr Hty Hready.
  rewrite (exec_body_frame it _ st l Ht Hr), (exec_dispatch_output it d Hty).
  unfold try_except, on_terminal_output, bind, read.
  rewrite Hready. reflexivity.
Qed.

(** A [success] whose two sends go through. *)
Lemma exec_body_success (it : iteration) (d : dict) (b1 b2 : list Z)
    (st : state) (l : list action) :
  in_time p it -> recv it = Frame (Parsed (Obj d)) ->
  msg_type d = Str (lit "success") ->
  encode (command p ++ [NL]) = inl b1 ->
  encode (lit "exit" ++ [NL]) = inl b2 ->
  send_command it = None -> send_exit it = None ->
  let st' := set_command_sent true (set_session_ready true
               (set_session_id (get d (lit "session_id") Null) st)) in
  loop_body p it st l =
  (inl Continue, st',
   l ++ [WsRecv; Sleep 200;
         WsSend (terminal_input st' (Arr (List.map Int b1)));
         Sleep 100;
         WsSend (terminal_input st' (Arr (List.map Int b2)))]).
Proof.
  intros Ht Hr Hty He1 He2 Hs1 Hs2 st'.
  rewrite (exec_body_frame it _ st l Ht Hr), (exec_dispatch_success it d Hty).
  unfold try_except, on_success, bind, modify, perform, call, encoded, read.
  rewrite He1, He2, Hs1, Hs2. cbn [ret].
  rewrite <- !app_assoc. reflexivity.
Qed.

Lemma exec_body_close (it : iteration) (d : dict) (st : state)
    (l : list action) :
  in_time p it -> recv it = Frame (Parsed (Obj d)) ->
  msg_type d = Str (lit "terminal_close") ->
  loop_body p it st l =
  (inl Return, set_exit_code (get d (lit "exit_code") (Int 0)) st,
   l ++ [WsRecv; WsClose; Sleep 100]).
Proof.
  intros Ht Hr Hty.
  rewrite (exec_body_frame it _ st l Ht Hr), (exec_dispatch_close it d Hty).
  unfold try_except, on_terminal_close, bind, modify, perform, call, ret.
  rewrite <- !app_assoc. reflexivity.
Qed.

Lemma exec_body_error (it : iteration) (d : dict) (st : state)
    (l : list action) :
  in_time p it -> recv it = Frame (Parsed (Obj d)) ->
  msg_type d = Str (lit "error") ->
  loop_body p it st l =
  (inr (SystemExit
     {| msg := lit "Terminal error: " ++ format (full_error d);
        fail_output := Some (output_lines st);
        fail_operation_id := None; fail_details := None |}),
   st, l ++ [WsRecv; WsClose]).
Proof.
  intros Ht Hr Hty.
  rewrite (exec_body_frame it _ st l Ht Hr), (exec_dispatch_error it d Hty).
  unfold try_except, on_error, bind, perform, call, fail_json.
  cbn [on_websocket_exception].
  rewrite <- !app_assoc. reflexivity.
Qed.

End ExecSteps.

Section ExecSessions.
Context {rt : Runtime}.
Import Exec.

(** A session that is still running after [pre] goes on with what
    follows [pre]. *)
Lemma exec_resume (p : params) (w : peer) (pre post : list iteration)
    (st : state) (l : list action) :
  iterations w = pre ++ post -> running p w pre st l ->
  execute_command p w = finish (while_true (loop_body p) post st l).
Proof.
  unfold running, execute_command.
  change (opening p (with_iterations w pre)) with (opening p w).
  cbn [with_iterations iterations].
  intros Hw. rewrite Hw.
  destruct (opening p w init []) as [[[u|e] s0] l0].
  - rewrite while_true_app.
    destruct (while_true (loop_body p) pre s0 l0) as [[[|e|] s1] l1];
      cbn [finish].
    + discriminate.
    + destruct e; discriminate.
    + intros H. injection H as -> ->. reflexivity.
  - cbn [finish]. destruct e; discriminate.
Qed.

(** The session runs from the start: nothing has been received yet. *)
Lemma exec_running_start (p : params) (w : peer) :
  connect w = None -> send_start w = None ->
  running p w [] init
    [WsConnect (ws_url p) [lit "Authorization: Bearer " ++ api_key p]
       (Text.eqb (ws_scheme p) (lit "wss") && negb (validate_certs p))
       (timeout p);
     WsSend (start_msg p)].
Proof.
  intros Hc Hs. unfold running, execute_command.
  change (opening p (with_iterations w [])) with (opening p w).
  unfold opening, bind, call. rewrite Hc, Hs. reflexivity.
Qed.

(** One more pass that ends in [continue]. *)
Lemma exec_running_step (p : params) (w : peer) (pre : list iteration)
    (it : iteration) (st st' : state) (l l' : list action) :
  running p w pre st l ->
  loop_body p it st l = (inl Continue, st', l') ->
  running p w (pre ++ [it]) st' l'.
Proof.
  intros Hrun Hstep. unfold running.
  rewrite (exec_resume p (with_iterations w (pre ++ [it])) pre [it] st l).
  - cbn [while_true]. rewrite Hstep. reflexivity.
  - reflexivity.
  - exact Hrun.
Qed.

End ExecSessions.

Section ExecPasses.
Context {rt : Runtime}.
Import Exec.

Lemma should_skip_before (p : params) (st : state) (line : str) :
  command_sent st = false ->
  (should_skip_output p st line = true <-> exists rest, line = PROMPT ++ rest).
Proof.
  intros H. unfold should_skip_output. rewrite H. cbn [negb].
  rewrite <- startswith_prefix.
  destruct (Text.startswith PROMPT line); split; congruence.
Qed.

Lemma should_skip_after (p : params) (st : state) (line : str) :
  command_sent st = true ->
  (should_skip_output p st line = true <->
   (exists before after, line = before ++ command p ++ after)
   \/ (exists rest, line = PROMPT ++ rest)
   \/ (exists rest, line = lit "exit" ++ rest)).
Proof.
  intros H. unfold should_skip_output. rewrite H. cbn [negb].
  rewrite <- contains_infix, <- !startswith_prefix.
  destruct (Text.contains (command p) line);
    destruct (Text.startswith PROMPT line);
    destruct (Text.startswith (lit "exit") line); cbn [orb];
    split; try tauto; try congruence.
Qed.

(** What a pass does with a [terminal_output] once the session is
    ready. *)
Lemma exec_output_step (p : params) (w : peer) (pre : list iteration)
    (it : iteration) (decoded : str) (st : state) (l : list action) :
  running p w pre st l -> session_ready st = true ->
  brings_output p it decoded ->
  running p w (pre ++ [it])
    (if negb (Text.eqb (strip_ansi_codes decoded) [])
        && negb (should_skip_output p st (strip_ansi_codes decoded))
     then append_output (strip_ansi_codes decoded) st else st)
    (l ++ [WsRecv]).
Proof.
  intros Hrun Hready [Ht [d [Hr [Hty [Htr Hdec]]]]].
  apply (exec_running_step p w pre it st _ l _ Hrun).
  apply (exec_body_output p it d decoded st l); assumption.
Qed.

Lemma exec_success_step (p : params) (w : peer) (pre : list iteration)
    (it : iteration) (st : state) (l : list action) :
  running p w pre st l -> brings_success p it ->
  exists st' l',
    running p w (pre ++ [it]) st' l'
    /\ session_ready st' = true /\ command_sent st' = true
    /\ output_lines st' = output_lines st /\ exit_code st' = exit_code st.
Proof.
  intros Hrun [Ht [Hs1 [Hs2 [[b1 He1] [[b2 He2] [d [Hr Hty]]]]]]].
  pose proof (exec_body_success p it d b1 b2 st l Ht Hr Hty He1 He2 Hs1 Hs2)
    as Hstep.
  cbv zeta in Hstep.
  eexists. eexists. split.
  - exact (exec_running_step p w pre it st _ l _ Hrun Hstep).
  - repeat split.
Qed.

Lemma exec_close_step (p : params) (w : peer) (pre post : list iteration)
    (it : iteration) (code : value) (st : state) (l : list action) :
  iterations w = pre ++ it :: post ->
  running p w pre st l -> brings_close p it code ->
  execute p w =
  (Returned (result_of (set_exit_code code st)),
   l ++ [WsRecv; WsClose; Sleep 100]).
Proof.
  intros Hw Hrun [Ht [d [Hr [Hty Hcode]]]].
  unfold execute. rewrite (exec_resume p w pre (it :: post) st l Hw Hrun).
  cbn [while_true].
  rewrite (exec_body_close p it d st l Ht Hr Hty), Hcode. reflexivity.
Qed.

End ExecPasses.

Section ExecFilter.
Context {rt : Runtime}.
Import Exec.

(** What a filtered line leaves behind, and what a kept one does. *)
Lemma exec_output_dropped (p : params) (w : peer) (pre : list iteration)
    (it : iteration) (decoded : str) (st : state) (l : list action) :
  running p w pre st l -> session_ready st = true ->
  brings_output p it decoded ->
  should_skip_output p st (strip_ansi_codes decoded) = true ->
  running p w (pre ++ [it]) st (l ++ [WsRecv]).
Proof.
  intros Hrun Hready Hout Hskip.
  pose proof (exec_output_step p w pre it decoded st l Hrun Hready Hout) as H.
  rewrite Hskip, andb_false_r in H. exact H.
Qed.

Lemma exec_output_kept (p : params) (w : peer) (pre : list iteration)
    (it : iteration) (decoded : str) (st : state) (l : list action) :
  running p w pre st l -> session_ready st = true ->
  brings_output p it decoded ->
  strip_ansi_codes decoded <> [] ->
  should_skip_output p st (strip_ansi_codes decoded) = false ->
  running p w (pre ++ [it]) (append_output (strip_ansi_codes decoded) st)
    (l ++ [WsRecv]).
Proof.
  intros Hrun Hready Hout Hne Hskip.
  pose proof (exec_output_step p w pre it decoded st l Hrun Hready Hout) as H.
  rewrite Hskip in H.
  destruct (Text.eqb (strip_ansi_codes decoded) []) eqn:E.
  - apply text_eqb_eq in E. contradiction.
  - exact H.
Qed.

(** C2.  The output filter of the exec client.  Before the command has
    been sent, [should_skip_output] drops a cleaned line if and only if
    it begins with the prompt [/app #]; after the command has been sent,
    if and only if it contains the command text, begins with the prompt,
    or begins with [exit].  In a session that is ready, a
    [terminal_output] whose cleaned text is not empty and is not dropped
    is appended to the captured output, and any other leaves it as it
    was.  For the peer that sends [success], a prompt echo, a command
    echo, a line of real output and [terminal_close] with exit code 0,
    the captured output is the real line alone and [failed] is false. *)
Theorem exec_output_filter (p : params) :
  (forall st line, command_sent st = false ->
     (should_skip_output p st line = true <->
      exists rest, line = PROMPT ++ rest))
  /\ (forall st line, command_sent st = true ->
     (should_skip_output p st line = true <->
      (exists before after, line = before ++ command p ++ after)
      \/ (exists rest, line = PROMPT ++ rest)
      \/ (exists rest, line = lit "exit" ++ rest)))
  /\ (forall w pre it decoded st l,
        running p w pre st l -> session_ready st = true ->
        brings_output p it decoded ->
        exists st',
          running p w (pre ++ [it]) st' (l ++ [WsRecv])
          /\ output_lines st' =
             if negb (Text.eqb (strip_ansi_codes decoded) [])
                && negb (should_skip_output p st (strip_ansi_codes decoded))
             then output_lines st ++ [strip_ansi_codes decoded]
             else output_lines st)
  /\ (forall w i0 i1 i2 i3 i4 prompt echo real,
        connect w = None -> send_start w = None ->
        iterations w = [i0; i1; i2; i3; i4] ->
        brings_success p i0 ->
        brings_output p i1 prompt ->
        (exists rest, strip_ansi_codes prompt = PROMPT ++ rest) ->
        brings_output p i2 echo ->
        (exists before after,
           strip_ansi_codes echo = before ++ command p ++ after) ->
        brings_output p i3 real ->
        strip_ansi_codes real <> [] ->
        Text.contains (command p) (strip_ansi_codes real) = false ->
        Text.startswith PROMPT (strip_ansi_codes real) = false ->
        Text.startswith (lit "exit") (strip_ansi_codes real) = false ->
        brings_close p i4 (Int 0) ->
        fst (execute p w) =
        Returned {| changed := false; result_exit_code := Int 0;
                    stdout := strip_ansi_codes real; stderr := [];
                    output := [strip_ansi_codes real]; failed := false |}).
Proof.
  split; [|split; [|split]].
  - intros st line. apply should_skip_before.
  - intros st line. apply should_skip_after.
  - intros w pre it decoded st l Hrun Hready Hout.
    eexists. split.
    + exact (exec_output_step p w pre it decoded st l Hrun Hready Hout).
    + destruct (negb (Text.eqb (strip_ansi_codes decoded) [])
                && negb (should_skip_output p st (strip_ansi_codes decoded)));
        reflexivity.
  - intros w i0 i1 i2 i3 i4 prompt echo real Hc Hs Hw H0 H1 Hprompt H2 Hecho
      H3 Hne Hcmd Hpr Hex H4.
    pose proof (exec_running_start p w Hc Hs) as R0.
    destruct (exec_success_step p w [] i0 init _ R0 H0)
      as [st1 [l1 [R1 [Hready [Hsent [Hlines Hcode]]]]]].
    assert (R2 : running p w ([] ++ [i0] ++ [i1]) st1 (l1 ++ [WsRecv])).
    { apply (exec_output_dropped p w _ i1 prompt st1 l1 R1 Hready H1).
      apply (should_skip_after p st1 _ Hsent). right. left. exact Hprompt. }
    assert (R3 : running p w (([] ++ [i0] ++ [i1]) ++ [i2]) st1
                   ((l1 ++ [WsRecv]) ++ [WsRecv])).
    { apply (exec_output_dropped p w _ i2 echo st1 _ R2 Hready H2).
      apply (should_skip_after p st1 _ Hsent). left. exact Hecho. }
    assert (R4 : running p w ((([] ++ [i0] ++ [i1]) ++ [i2]) ++ [i3])
                   (append_output (strip_ansi_codes real) st1)
                   (((l1 ++ [WsRecv]) ++ [WsRecv]) ++ [WsRecv])).
    { apply (exec_output_kept p w _ i3 real st1 _ R3 Hready H3 Hne).
      unfold should_skip_output. rewrite Hsent, Hcmd, Hpr, Hex. reflexivity. }
    rewrite (exec_close_step p w [i0; i1; i2; i3] [] i4 (Int 0) _ _ Hw R4 H4).
    cbn [fst]. unfold result_of, set_exit_code, append_output.
    cbn [exit_code output_lines is_none negb ne_zero Z.eqb].
    rewrite Hlines. cbn [init output_lines app Text.concat List.concat].
    rewrite app_nil_r. reflexivity.
Qed.

End ExecFilter.

Section ExecResult.
Context {rt : Runtime}.
Import Exec.

(** C3.  An exec session that ends with [terminal_close].  The result
    of [execute] has [stdout] equal to the concatenation of the captured
    lines, [stderr] empty and [output] equal to the list of captured
    lines; its [exit_code] is the one the message carries, 0 when the
    message has none, and [failed] is true if and only if that code is
    not 0.  A code of [null] counts as no exit code observed: the result
    has [exit_code] 0 and [failed] false. *)
Theorem exec_close_result (p : params) (w : peer)
    (pre post : list iteration) (it : iteration) (msg_data : dict)
    (st : state) (l : list action) :
  iterations w = pre ++ it :: post ->
  running p w pre st l ->
  in_time p it ->
  recv it = frame_of msg_data ->
  msg_type msg_data = Str (lit "terminal_close") ->
  exists r,
    execute p w = (Returned r, l ++ [WsRecv; WsClose; Sleep 100])
    /\ stdout r = Text.concat (output_lines st)
    /\ stderr r = []
    /\ output r = output_lines st
    /\ (forall n, get msg_data (lit "exit_code") (Int 0) = Int n ->
          result_exit_code r = Int n /\ (failed r = true <-> n <> 0%Z))
    /\ (lacks msg_data (lit "exit_code") ->
          result_exit_code r = Int 0 /\ failed r = false)
    /\ (get msg_data (lit "exit_code") (Int 0) = Null ->
          result_exit_code r = Int 0 /\ failed r = false)
    /\ (get msg_data (lit "exit_code") (Int 0) <> Null ->
          result_exit_code r = get msg_data (lit "exit_code") (Int 0)
          /\ failed r = ne_zero (get msg_data (lit "exit_code") (Int 0))).
Proof.
  intros Hw Hrun Ht Hr Hty.
  exists (result_of (set_exit_code (get msg_data (lit "exit_code") (Int 0)) st)).
  split.
  { apply (exec_close_step p w pre post it _ st l Hw Hrun).
    split; [exact Ht|]. exists msg_data. auto. }
  unfold result_of, set_exit_code.
  cbn [stdout stderr output result_exit_code failed exit_code output_lines].
  repeat split.
  - rewrite H. reflexivity.
  - rewrite H. cbn [is_none negb ne_zero]. rewrite negb_true_iff.
    apply Z.eqb_neq.
  - rewrite H. cbn [is_none negb ne_zero]. rewrite negb_true_iff.
    apply Z.eqb_neq.
  - rewrite (get_lacks _ _ _ H). reflexivity.
  - rewrite (get_lacks _ _ _ H). reflexivity.
  - rewrite H. reflexivity.
  - rewrite H. reflexivity.
  - destruct (get msg_data (lit "exit_code") (Int 0)); try reflexivity.
    contradiction.
  - destruct (get msg_data (lit "exit_code") (Int 0)); try reflexivity.
    contradiction.
Qed.

End ExecResult.

Section ExecReady.
Context {rt : Runtime}.
Import Exec.

(** A pass that brings no [success] leaves a session that is not ready
    not ready, and captures nothing. *)
Lemma exec_body_not_ready (p : params) (it : iteration) (st : state)
    (l : list action) :
  is_success it = false -> session_ready st = false ->
  session_ready (snd (fst (loop_body p it st l))) = false
  /\ output_lines (snd (fst (loop_body p it st l))) = output_lines st.
Proof.
  intros Hs Hready. unfold is_success in Hs.
  unfold loop_body, bind, try_except, ws_recv.
  destruct (timed_out (elapsed it) (timeout p)); [split; [exact Hready|reflexivity]|].
  cbn [ret].
  destruct (recv it) as [|[e|v]|[e|e|e]];
    try (split; [exact Hready|reflexivity]).
  destruct v as [|b|n|f|s|items|d];
    try (split; [exact Hready|reflexivity]).
  unfold dispatch. rewrite Hs.
  destruct (eq_str (msg_type d) (lit "terminal_output")).
  { unfold on_terminal_output, bind, read. rewrite Hready.
    split; [exact Hready|reflexivity]. }
  destruct (eq_str (msg_type d) (lit "terminal_close")).
  { split; [exact Hready|reflexivity]. }
  destruct (eq_str (msg_type d) (lit "error"));
    split; first [exact Hready|reflexivity].
Qed.

Lemma exec_loop_not_ready (p : params) (pre : list iteration) :
  forallb (fun it => negb (is_success it)) pre = true ->
  forall st l,
    session_ready st = false ->
    session_ready (snd (fst (while_true (loop_body p) pre st l))) = false
    /\ output_lines (snd (fst (while_true (loop_body p) pre st l)))
       = output_lines st.
Proof.
  induction pre as [|it pre IH]; intros Hall st l Hready; cbn [while_true].
  - split; [exact Hready|reflexivity].
  - cbn [forallb] in Hall. apply andb_true_iff in Hall as [Hit Hall].
    apply negb_true_iff in Hit.
    pose proof (exec_body_not_ready p it st l Hit Hready) as [H1 H2].
    destruct (loop_body p it st l) as [[[[]|e] s'] l']; cbn [fst snd] in *.
    + destruct (IH Hall s' l' H1) as [H3 H4]. split; congruence.
    + split; assumption.
    + split; assumption.
Qed.

(** The opening does not touch the state. *)
Lemma exec_opening_state (p : params) (w : peer) (u : unit) (s : state)
    (l : list action) :
  opening p w init [] = (inl u, s, l) -> s = init.
Proof.
  unfold opening, bind, call.
  destruct (connect w); [intros H; discriminate|].
  destruct (send_start w); [intros H; discriminate|].
  intros H. injection H as _ <- _. reflexivity.
Qed.

(** What [running] says about the loop. *)
Lemma exec_running_inv (p : params) (w : peer) (pre : list iteration)
    (st : state) (l : list action) :
  running p w pre st l ->
  exists l0, while_true (loop_body p) pre init l0 = (Starved, st, l).
Proof.
  unfold running, execute_command.
  change (opening p (with_iterations w pre)) with (opening p w).
  cbn [with_iterations iterations].
  destruct (opening p w init []) as [[[u|e] s0] l0] eqn:E.
  - rewrite (exec_opening_state p w u s0 l0 E).
    destruct (while_true (loop_body p) pre init l0) as [[[|e|] s1] l1] eqn:Ew;
      cbn [finish]; try discriminate.
    + destruct e; discriminate.
    + intros H. injection H as <- <-. exists l0. exact Ew.
  - cbn [finish]. destruct e; discriminate.
Qed.

(** C10.  A [terminal_output] received while the session is not ready
    changes nothing, whatever it carries; and as long as no [success]
    has been received the session is not ready and the captured output
    is empty, whatever else has been received. *)
Theorem exec_output_before_success (p : params) :
  (forall it msg_data st l,
     in_time p it -> recv it = frame_of msg_data ->
     msg_type msg_data = Str (lit "terminal_output") ->
     session_ready st = false ->
     loop_body p it st l = (inl Continue, st, l ++ [WsRecv]))
  /\ (forall w pre st l,
        forallb (fun it => negb (is_success it)) pre = true ->
        running p w pre st l ->
        session_ready st = false /\ output_lines st = []).
Proof.
  split.
  - intros it d st l Ht Hr Hty Hready.
    exact (exec_body_output_early p it d st l Ht Hr Hty Hready).
  - intros w pre st l Hall Hrun.
    destruct (exec_running_inv p w pre st l Hrun) as [l0 Hloop].
    pose proof (exec_loop_not_ready p pre Hall init l0 eq_refl) as [H1 H2].
    rewrite Hloop in H1, H2. cbn [fst snd] in H1, H2. split; assumption.
Qed.

End ExecReady.

Section StackSteps.
Context {rt : Runtime}.
Import Stack.

Variable p : params.

Lemma stack_body_timed_out (it : iteration) (st : state) (l : list action) :
  timed_out (elapsed it) (timeout p) = true ->
  loop_body p it st l =
  (inr (SystemExit
     {| msg := lit "Operation timed out after "
               ++ Text.of_Z (timeout p) ++ lit " seconds";
        fail_output := Some (output_lines st);
        fail_operation_id := Some (operation_id st);
        fail_details := None |}),
   st, l ++ [WsClose]).
Proof.
  intros H. unfold loop_body, bind. rewrite H. reflexivity.
Qed.

Lemma stack_body_frame (it : iteration) (m : parsed) (st : state)
    (l : list action) :
  in_time p it -> recv it = Frame m ->
  loop_body p it st l =
  try_except (dispatch m) on_websocket_exception st (l ++ [WsRecv]).
Proof.
  intros Ht Hr. unfold loop_body, bind, try_except, ws_recv.
  rewrite Ht, Hr. reflexivity.
Qed.

Lemma stack_body_recv_timeout (it : iteration) (e : str) (st : state)
    (l : list action) :
  in_time p it -> recv it = RecvRaises (WebSocketTimeoutException e) ->
  loop_body p it st l = (inl Continue, st, l ++ [WsRecv]).
Proof.
  intros Ht Hr. unfold loop_body, bind, try_except, ws_recv.
  rewrite Ht, Hr. reflexivity.
Qed.

Lemma stack_dispatch_stdout (d : dict) :
  msg_type d = Str (lit "stdout") ->
  dispatch (Parsed (Obj d)) = on_output d.
Proof. intros H. unfold dispatch. known_type H. reflexivity. Qed.

Lemma stack_dispatch_stderr (d : dict) :
  msg_type d = Str (lit "stderr") ->
  dispatch (Parsed (Obj d)) = on_output d.
Proof. intros H. unfold dispatch. known_type H. reflexivity. Qed.

Lemma stack_dispatch_progress (d : dict) :
  msg_type d = Str (lit "progress") ->
  dispatch (Parsed (Obj d)) = on_progress d.
Proof. intros H. unfold dispatch. known_type H. reflexivity. Qed.

Lemma stack_dispatch_complete (d : dict) :
  msg_type d = Str (lit "complete") ->
  dispatch (Parsed (Obj d)) = on_complete d.
Proof. intros H. unfold dispatch. known_type H. reflexivity. Qed.

Lemma stack_dispatch_error (d : dict) :
  msg_type d = Str (lit "error") ->
  dispatch (Parsed (Obj d)) = on_error d.
Proof. intros H. unfold dispatch. known_type H. reflexivity. Qed.

(** A [stdout] or [stderr] message. *)
Lemma stack_body_output (it : iteration) (d : dict) (st : state)
    (l : list action) :
  in_time p it -> recv it = Frame (Parsed (Obj d)) ->
  msg_type d = Str (lit "stdout") \/ msg_type d = Str (lit "stderr") ->
  loop_body p it st l =
  try_except (on_output d) on_websocket_exception st (l ++ [WsRecv]).
Proof.
  intros Ht Hr [Hty|Hty]; rewrite (stack_body_frame it _ st l Ht Hr).
  - rewrite (stack_dispatch_stdout d Hty). reflexivity.
  - rewrite (stack_dispatch_stderr d Hty). reflexivity.
Qed.

Lemma stack_body_text (it : iteration) (d : dict) (text : str) (st : state)
    (l : list action) :
  in_time p it -> recv it = Frame (Parsed (Obj d)) ->
  msg_type d = Str (lit "stdout") \/ msg_type d = Str (lit "stderr") ->
  get d (lit "data") (Str []) = Str text -> text <> [] ->
  loop_body p it st l =
  (inl Continue, append_output (Text.rstrip NL text) st, l ++ [WsRecv]).
Proof.
  intros Ht Hr Hty Hdata Hne.
  rewrite (stack_body_output it d st l Ht Hr Hty).
  unfold try_except, on_output. rewrite Hdata. cbn [truthy].
  destruct (Text.eqb text []) eqn:E.
  - apply text_eqb_eq in E. contradiction.
  - reflexivity.
Qed.

Lemma stack_body_progress (it : iteration) (d : dict) (st : state)
    (l : list action) :
  in_time p it -> recv it = Frame (Parsed (Obj d)) ->
  msg_type d = Str (lit "progress") ->
  truthy (get d (lit "data") (Str [])) = true ->
  loop_body p it st l =
  (inl Continue,
   append_output (lit "[" ++ format (get d (lit "timestamp") (Str []))
                  ++ lit "] " ++ format (get d (lit "data") (Str []))) st,
   l ++ [WsRecv]).
Proof.
  intros Ht Hr Hty Hdata.
  rewrite (stack_body_frame it _ st l Ht Hr), (stack_dispatch_progress d Hty).
  unfold try_except, on_progress. rewrite Hdata. reflexivity.
Qed.

(** A [stdout], [stderr] or [progress] message without data. *)
Lemma stack_body_no_data (it : iteration) (d : dict) (st : state)
    (l : list action) :
  in_time p it -> recv it = Frame (Parsed (Obj d)) ->
  msg_type d = Str (lit "stdout") \/ msg_type d = Str (lit "stderr")
  \/ msg_type d = Str (lit "progress") ->
  truthy (get d (lit "data") (Str [])) = false ->
  loop_body p it st l = (inl Continue, st, l ++ [WsRecv]).
Proof.
  intros Ht Hr Hty Hdata.
  rewrite (stack_body_frame it _ st l Ht Hr).
  destruct Hty as [Hty|[Hty|Hty]].
  - rewrite (stack_dispatch_stdout d Hty).
    unfold try_except, on_output. rewrite Hdata. reflexivity.
  - rewrite (stack_dispatch_stderr d Hty).
    unfold try_except, on_output. rewrite Hdata. reflexivity.
  - rewrite (stack_dispatch_progress d Hty).
    unfold try_except, on_progress. rewrite Hdata. reflexivity.
Qed.

Lemma stack_body_complete (it : iteration) (d : dict) (st : state)
    (l : list action) :
  in_time p it -> recv it = Frame (Parsed (Obj d)) ->
  msg_type d = Str (lit "complete") ->
  loop_body p it st l =
  (inl Return,
   set_exit_code
     (get d (lit "exitCode")
        (if negb (truthy (get d (lit "success") (Bool false)))
         then Int 1 else Int 0))
     (set_success (get d (lit "success") (Bool false)) st),
   l ++ [WsRecv; WsClose]).
Proof.
  intros Ht Hr Hty.
  rewrite (stack_body_frame it _ st l Ht Hr), (stack_dispatch_complete d Hty).
  unfold try_except, on_complete, bind, modify, read, perform, call, ret.
  rewrite <- !app_assoc. reflexivity.
Qed.

Lemma stack_body_error (it : iteration) (d : dict) (st : state)
    (l : list action) :
  in_time p it -> recv it = Frame (Parsed (Obj d)) ->
  msg_type d = Str (lit "error") ->
  loop_body p it st l =
  (inr (SystemExit
     {| msg := lit "Operation error: "
               ++ format (get d (lit "data") (Str (lit "Unknown error")));
        fail_output := Some (output_lines st);
        fail_operation_id := Some (operation_id st);
        fail_details := None |}),
   st, l ++ [WsRecv; WsClose]).
Proof.
  intros Ht Hr Hty.
  rewrite (stack_body_frame it _ st l Ht Hr), (stack_dispatch_error d Hty).
  unfold try_except, on_error, bind, perform, call, fail_json.
  cbn [on_websocket_exception].
  rewrite <- !app_assoc. reflexivity.
Qed.

End StackSteps.

Section StackSessions.
Context {rt : Runtime}.
Import Stack.

(** How [start_operation] ends: with an identifier that counts as true,
    set in the state, or with the [SystemExit] of a [fail_json], after
    the one request; or an exception leaves it, before the request or
    after it. *)
Lemma start_operation_cases (p : params) (w : peer) :
  let request :=
    HttpPost (operations_url p)
      [(lit "Authorization", lit "Bearer " ++ api_key p);
       (lit "Content-Type", lit "application/json")]
      (payload p) (negb (validate_certs p)) in
  (exists body,
     post w = Response (Parsed (Obj body))
     /\ truthy (get body (lit "operationId") Null) = true
     /\ start_operation p w init [] =
        (inl (get body (lit "operationId") Null),
         set_operation_id (get body (lit "operationId") Null) init,
         [request]))
  \/ (exists f,
        start_operation p w init [] =
        (inr (SystemExit f), match post w with
                             | Response (Parsed (Obj body)) =>
                                 set_operation_id
                                   (get body (lit "operationId") Null) init
                             | _ => init
                             end, [request])
        /\ forall body, post w = Response (Parsed (Obj body)) ->
             truthy (get body (lit "operationId") Null) = false
             /\ f = just (lit "No operation ID returned from server"))
  \/ (exists e l,
        start_operation p w init [] = (inr (Lib e), init, l)
        /\ (l = [] \/ l = [request])
        /\ forall body, post w <> Response (Parsed (Obj body))).
Proof.
  intros request. unfold start_operation, bind, perform, call.
  destruct (post w) as [e|[e|v]|code [|text|e]|e| |e].
  - right. right. exists (OtherException e), []. split; [reflexivity|].
    split; [left; reflexivity|]. intros body H. discriminate.
  - right. left. eexists. split; [reflexivity|]. intros body H.
    discriminate.
  - destruct v as [|b|n|f|s|items|body];
      try (right; left; eexists; split; [reflexivity|]; intros body' H;
           discriminate).
    unfold modify, read. cbn [operation_id set_operation_id].
    destruct (truthy (get body (lit "operationId") Null)) eqn:E.
    + left. exists body. repeat split. exact E.
    + right. left. eexists. split; [reflexivity|].
      intros body' H. injection H as <-. split; [exact E|reflexivity].
  - right. left. eexists. split; [reflexivity|]. intros body H.
    discriminate.
  - right. left. eexists. split; [reflexivity|]. intros body H.
    discriminate.
  - right. right. exists (OtherException e), [request].
    split; [reflexivity|]. split; [right; reflexivity|].
    intros body H. discriminate.
  - right. left. eexists. split; [reflexivity|]. intros body H.
    discriminate.
  - right. left. eexists. split; [reflexivity|]. intros body H.
    discriminate.
  - right. left. eexists. split; [reflexivity|]. intros body H.
    discriminate.
Qed.

(** A session that is still running after [pre] goes on with what
    follows [pre]. *)
Lemma stack_resume (p : params) (w : peer) (pre post : list iteration)
    (st : state) (l : list action) :
  iterations w = pre ++ post -> running p w pre st l ->
  execute p w = conclude p (finish (while_true (loop_body p) post st l)).
Proof.
  unfold running, execute.
  change (start_operation p (with_iterations w pre))
    with (start_operation p w).
  destruct (start_operation p w init []) as [[[v|[e|f]] s0] l0];
    try discriminate.
  unfold stream_operation.
  change (opening p (with_iterations w pre)) with (opening p w).
  cbn [with_iterations iterations].
  intros Hw. rewrite Hw.
  destruct (opening p w s0 l0) as [[[u|e] s1] l1].
  - rewrite while_true_app.
    destruct (while_true (loop_body p) pre s1 l1) as [[[|e|] s2] l2];
      cbn [finish conclude].
    + discriminate.
    + destruct e; discriminate.
    + intros H. injection H as -> ->. reflexivity.
  - cbn [finish conclude]. destruct e; discriminate.
Qed.

(** The session runs from the start: the operation is accepted and
    nothing has been received yet. *)
Lemma stack_running_start (p : params) (w : peer) (id : value) :
  accepted w id ->
  running p w [] (set_operation_id id init)
    [HttpPost (operations_url p)
       [(lit "Authorization", lit "Bearer " ++ api_key p);
        (lit "Content-Type", lit "application/json")]
       (payload p) (negb (validate_certs p));
     WsConnect (ws_url p (set_operation_id id init))
       [lit "Authorization: Bearer " ++ api_key p]
       (Text.eqb (ws_scheme p) (lit "wss") && negb (validate_certs p))
       (timeout p)].
Proof.
  intros [[body [Hpost Hid]] [Htrue Hc]]. unfold running, execute.
  change (start_operation p (with_iterations w []))
    with (start_operation p w).
  unfold start_operation, bind, perform, call, modify, read.
  rewrite Hpost. cbn [operation_id set_operation_id].
  rewrite Hid, Htrue. cbn [negb ret].
  unfold stream_operation.
  change (opening p (with_iterations w [])) with (opening p w).
  unfold opening, call. rewrite Hc. reflexivity.
Qed.

(** One more pass that ends in [continue]. *)
Lemma stack_running_step (p : params) (w : peer) (pre : list iteration)
    (it : iteration) (st st' : state) (l l' : list action) :
  running p w pre st l ->
  loop_body p it st l = (inl Continue, st', l') ->
  running p w (pre ++ [it]) st' l'.
Proof.
  intros Hrun Hstep. unfold running.
  rewrite (stack_resume p (with_iterations w (pre ++ [it])) pre [it] st l).
  - cbn [while_true]. rewrite Hstep. reflexivity.
  - reflexivity.
  - exact Hrun.
Qed.

(** C4.  A 2xx response whose parsed body has no operation identifier
    (the key is absent, or its value counts as false) makes the stack
    client fail with [No operation ID returned from server] after the
    one HTTP request, no WebSocket connection having been attempted; and
    whenever a WebSocket connection is attempted, the response carried
    an operation identifier. *)
Theorem stack_missing_operation_id (p : params) :
  (forall w body,
     post w = Response (Parsed (Obj body)) ->
     lacks body (lit "operationId")
     \/ truthy (get body (lit "operationId") Null) = false ->
     execute p w =
     (Exited (just (lit "No operation ID returned from server")),
      [HttpPost (operations_url p)
         [(lit "Authorization", lit "Bearer " ++ api_key p);
          (lit "Content-Type", lit "application/json")]
         (payload p) (negb (validate_certs p))]))
  /\ (forall w url header cert_none seconds,
        In (WsConnect url header cert_none seconds) (snd (execute p w)) ->
        exists body,
          post w = Response (Parsed (Obj body))
          /\ truthy (get body (lit "operationId") Null) = true).
Proof.
  split.
  - intros w body Hpost Hid.
    assert (Hfalse : truthy (get body (lit "operationId") Null) = false).
    { destruct Hid as [Hlacks|H]; [|exact H].
      rewrite (get_lacks _ _ _ Hlacks). reflexivity. }
    unfold execute.
    destruct (start_operation_cases p w)
      as [[body' [Hpost' [Htrue _]]]|[[f [Hrun Hwhy]]|[e [l [_ [_ Hno]]]]]].
    + rewrite Hpost in Hpost'. injection Hpost' as <-. congruence.
    + rewrite Hrun. destruct (Hwhy body Hpost) as [_ ->]. reflexivity.
    + exfalso. exact (Hno body Hpost).
  - intros w url header cert_none seconds Hin.
    unfold execute in Hin.
    destruct (start_operation_cases p w)
      as [[body [Hpost [Htrue _]]]|[[f [Hrun _]]|[e [l [Hrun [Hl _]]]]]].
    + exists body. split; assumption.
    + rewrite Hrun in Hin. cbn [snd In] in Hin.
      destruct Hin as [H|[]]. discriminate.
    + rewrite Hrun in Hin. cbn [snd] in Hin.
      destruct Hl as [->| ->]; cbn [In] in Hin.
      * destruct Hin.
      * destruct Hin as [H|[]]. discriminate.
Qed.

End StackSessions.

Section StackResults.
Context {rt : Runtime}.
Import Stack.

Lemma stack_complete_step (p : params) (w : peer)
    (pre post : list iteration) (it : iteration) (d : dict)
    (st : state) (l : list action) :
  iterations w = pre ++ it :: post ->
  running p w pre st l -> brings p it "complete" d ->
  execute p w =
  (Returned
     (result_of p
        (set_exit_code
           (get d (lit "exitCode")
              (if negb (truthy (get d (lit "success") (Bool false)))
               then Int 1 else Int 0))
           (set_success (get d (lit "success") (Bool false)) st))),
   l ++ [WsRecv; WsClose]).
Proof.
  intros Hw Hrun [Ht [Hr Hty]].
  rewrite (stack_resume p w pre (it :: post) st l Hw Hrun).
  cbn [while_true].
  rewrite (stack_body_complete p it d st l Ht Hr Hty). reflexivity.
Qed.

(** C5, as amended.  A [stdout] or [stderr] message whose payload text
    is not empty appends that text, its trailing newlines stripped; a
    [progress] message whose payload is not empty appends the line
    [[timestamp] payload]; a message of these types whose payload is
    empty or missing appends nothing.  For the stream [stdout] with [a],
    [progress] with [b] at time [T], [complete] with [success] true, the
    result has the output lines [a] (its trailing newlines stripped) and
    [[T] b], [failed] false and [exit_code] 0. *)
Theorem stack_output_lines (p : params) :
  (forall w pre it msg_data st l,
     running p w pre st l ->
     in_time p it -> recv it = frame_of msg_data ->
     (forall text,
        msg_type msg_data = Str (lit "stdout")
        \/ msg_type msg_data = Str (lit "stderr") ->
        get msg_data (lit "data") (Str []) = Str text -> text <> [] ->
        running p w (pre ++ [it])
          (append_output (Text.rstrip NL text) st) (l ++ [WsRecv]))
     /\ (msg_type msg_data = Str (lit "progress") ->
         truthy (get msg_data (lit "data") (Str [])) = true ->
         running p w (pre ++ [it])
           (append_output
              (lit "[" ++ format (get msg_data (lit "timestamp") (Str []))
               ++ lit "] " ++ format (get msg_data (lit "data") (Str [])))
              st)
           (l ++ [WsRecv]))
     /\ (msg_type msg_data = Str (lit "stdout")
         \/ msg_type msg_data = Str (lit "stderr")
         \/ msg_type msg_data = Str (lit "progress") ->
         truthy (get msg_data (lit "data") (Str [])) = false ->
         running p w (pre ++ [it]) st (l ++ [WsRecv])))
  /\ (forall w id i0 i1 i2 d0 d1 d2 a b T,
        accepted w id ->
        iterations w = [i0; i1; i2] ->
        brings p i0 "stdout" d0 ->
        get d0 (lit "data") (Str []) = Str a -> a <> [] ->
        brings p i1 "progress" d1 ->
        get d1 (lit "data") (Str []) = Str b -> b <> [] ->
        get d1 (lit "timestamp") (Str []) = Str T ->
        brings p i2 "complete" d2 ->
        get d2 (lit "success") (Bool false) = Bool true ->
        lacks d2 (lit "exitCode") ->
        exists r l,
          execute p w = (Returned r, l)
          /\ output r = [Text.rstrip NL a; lit "[" ++ T ++ lit "] " ++ b]
          /\ failed r = false
          /\ result_exit_code r = Int 0).
Proof.
  split.
  - intros w pre it d st l Hrun Ht Hr. split; [|split].
    + intros text Hty Hdata Hne.
      apply (stack_running_step p w pre it st _ l _ Hrun).
      exact (stack_body_text p it d text st l Ht Hr Hty Hdata Hne).
    + intros Hty Hdata.
      apply (stack_running_step p w pre it st _ l _ Hrun).
      exact (stack_body_progress p it d st l Ht Hr Hty Hdata).
    + intros Hty Hdata.
      apply (stack_running_step p w pre it st _ l _ Hrun).
      exact (stack_body_no_data p it d st l Ht Hr Hty Hdata).
  - intros w id i0 i1 i2 d0 d1 d2 a b T Hacc Hw [Ht0 [Hr0 Hty0]] Ha Hane
      [Ht1 [Hr1 Hty1]] Hb Hbne HT H2 Hsucc Hcode.
    pose proof (stack_running_start p w id Hacc) as R0.
    pose proof (stack_running_step p w [] i0 _ _ _ _ R0
                  (stack_body_text p i0 d0 a _ _ Ht0 Hr0 (or_introl Hty0)
                     Ha Hane)) as R1.
    assert (Hbt : truthy (get d1 (lit "data") (Str [])) = true).
    { rewrite Hb. cbn [truthy]. destruct (Text.eqb b []) eqn:E;
        [|reflexivity]. apply text_eqb_eq in E. contradiction. }
    pose proof (stack_running_step p w _ i1 _ _ _ _ R1
                  (stack_body_progress p i1 d1 _ _ Ht1 Hr1 Hty1 Hbt)) as R2.
    eexists. eexists. split.
    + exact (stack_complete_step p w [i0; i1] [] i2 d2 _ _ Hw R2 H2).
    + rewrite Hsucc, (get_lacks _ _ _ Hcode), Hb, HT.
      repeat split.
Qed.

(** C6.  A stack session that ends with [complete].  The success flag
    recorded is the one of the message ([False] if it has none); the
    exit code is the one of the message, and without one it is 1 when
    the flag counts as false and 0 when it counts as true; the result
    has [changed] true and [failed] equal to the negation of the
    recorded flag.  Every result [execute] returns has [changed] true. *)
Theorem stack_complete_result (p : params) (w : peer)
    (pre post : list iteration) (it : iteration) (msg_data : dict)
    (st : state) (l : list action) :
  iterations w = pre ++ it :: post ->
  running p w pre st l ->
  brings p it "complete" msg_data ->
  exists r,
    execute p w = (Returned r, l ++ [WsRecv; WsClose])
    /\ changed r = true
    /\ failed r = negb (truthy (get msg_data (lit "success") (Bool false)))
    /\ (forall flag, get msg_data (lit "success") (Bool false) = Bool flag ->
          failed r = negb flag)
    /\ (lacks msg_data (lit "success") -> failed r = true)
    /\ (lacks msg_data (lit "exitCode") ->
          result_exit_code r =
          if failed r then Int 1 else Int 0)
    /\ (forall code, ~ lacks msg_data (lit "exitCode") ->
          get msg_data (lit "exitCode") code = result_exit_code r)
    /\ output r = output_lines st
    /\ result_operation_id r = operation_id st
    /\ (forall w' r' l', execute p w' = (Returned r', l') ->
          changed r' = true).
Proof.
  intros Hw Hrun Hcomplete. eexists. split.
  { exact (stack_complete_step p w pre post it msg_data st l Hw Hrun
             Hcomplete). }
  unfold result_of, set_exit_code, set_success.
  cbn [changed failed result_exit_code output result_operation_id
       success exit_code output_lines operation_id].
  repeat split.
  - intros flag H. rewrite H. reflexivity.
  - intros H. rewrite (get_lacks _ _ _ H). reflexivity.
  - intros H. rewrite (get_lacks _ _ _ H).
    destruct (negb (truthy (get msg_data (lit "success") (Bool false))));
      reflexivity.
  - intros code Hhas. apply get_present. exact Hhas.
  - intros w' r' l'. unfold execute.
    destruct (start_operation p w' init []) as [[[v|[e|f]] s0] l0];
      try discriminate.
    destruct (stream_operation p w' s0 l0) as [[s1|f|s1|e1] l1];
      cbn [conclude]; try discriminate.
    intros H. injection H as <- _. reflexivity.
Qed.

End StackResults.

Section Failures.
Context {rt : Runtime}.

(** The combined message of the exec client, for an error and a context
    that are texts. *)
Lemma exec_full_error_text (d : dict) (error context : str) :
  get d (lit "error") (Str (lit "Unknown error")) = Str error ->
  get d (lit "context") (Str []) = Str context ->
  format (Exec.full_error d) =
  match context with
  | [] => error
  | _ => error ++ lit ": " ++ context
  end.
Proof.
  intros He Hc. unfold Exec.full_error. rewrite He, Hc. cbn [truthy].
  destruct context; reflexivity.
Qed.

(** C7.  An [error] message received at any point of the stream ends
    the session at once, whatever the peer would send next: the
    connection is closed and the client fails.  The exec client fails
    with [Terminal error: ] and the error text, followed by [: ] and the
    context when there is one; the stack client with [Operation error: ]
    and the error text.  Both hand over the output lines captured up to
    that point. *)
Theorem error_frame_ends_session :
  (forall (p : Exec.params) w pre post it msg_data st l,
     Exec.iterations w = pre ++ it :: post ->
     Exec.running p w pre st l ->
     Exec.in_time p it -> Exec.recv it = Exec.frame_of msg_data ->
     msg_type msg_data = Str (lit "error") ->
     Exec.execute p w =
     (Exited {| msg := lit "Terminal error: "
                       ++ format (Exec.full_error msg_data);
                fail_output := Some (Exec.output_lines st);
                fail_operation_id := None; fail_details := None |},
      l ++ [WsRecv; WsClose])
     /\ (forall error context,
           get msg_data (lit "error") (Str (lit "Unknown error")) = Str error ->
           get msg_data (lit "context") (Str []) = Str context ->
           format (Exec.full_error msg_data) =
           match context with
           | [] => error
           | _ => error ++ lit ": " ++ context
           end))
  /\ (forall (p : Stack.params) w pre post it msg_data st l,
        Stack.iterations w = pre ++ it :: post ->
        Stack.running p w pre st l ->
        Stack.brings p it "error" msg_data ->
        Stack.execute p w =
        (Exited {| msg := lit "Operation error: "
                          ++ format (get msg_data (lit "data")
                                       (Str (lit "Unknown error")));
                   fail_output := Some (Stack.output_lines st);
                   fail_operation_id := Some (Stack.operation_id st);
                   fail_details := None |},
         l ++ [WsRecv; WsClose])).
Proof.
  split.
  - intros p w pre post it d st l Hw Hrun Ht Hr Hty. split.
    + unfold Exec.execute.
      rewrite (exec_resume p w pre (it :: post) st l Hw Hrun).
      cbn [while_true].
      rewrite (exec_body_error p it d st l Ht Hr Hty). reflexivity.
    + intros error context. apply exec_full_error_text.
  - intros p w pre post it d st l Hw Hrun [Ht [Hr Hty]].
    rewrite (stack_resume p w pre (it :: post) st l Hw Hrun).
    cbn [while_true].
    rewrite (stack_body_error p it d st l Ht Hr Hty). reflexivity.
Qed.

Lemma exec_timeouts_retry (p : Exec.params) (w : Exec.peer)
    (its pre : list Exec.iteration) (st : Exec.state) (l : list action) :
  Exec.running p w pre st l ->
  Forall (fun it => Exec.in_time p it /\ transport_timeout (Exec.recv it))
    its ->
  Exec.running p w (pre ++ its) st (l ++ repeat WsRecv (List.length its)).
Proof.
  revert pre l. induction its as [|it its IH]; intros pre l Hrun Hall.
  - cbn [List.length repeat]. rewrite !app_nil_r. exact Hrun.
  - inversion Hall as [|? ? [Ht [e Hr]] Hrest]; subst.
    pose proof (exec_running_step p w pre it st st l _ Hrun
                  (exec_body_recv_timeout p it e st l Ht Hr)) as Hnext.
    pose proof (IH _ _ Hnext Hrest) as H.
    rewrite <- !app_assoc in H. exact H.
Qed.

Lemma stack_timeouts_retry (p : Stack.params) (w : Stack.peer)
    (its pre : list Stack.iteration) (st : Stack.state) (l : list action) :
  Stack.running p w pre st l ->
  Forall (fun it => Stack.in_time p it /\ transport_timeout (Stack.recv it))
    its ->
  Stack.running p w (pre ++ its) st (l ++ repeat WsRecv (List.length its)).
Proof.
  revert pre l. induction its as [|it its IH]; intros pre l Hrun Hall.
  - cbn [List.length repeat]. rewrite !app_nil_r. exact Hrun.
  - inversion Hall as [|? ? [Ht [e Hr]] Hrest]; subst.
    pose proof (stack_running_step p w pre it st st l _ Hrun
                  (stack_body_recv_timeout p it e st l Ht Hr)) as Hnext.
    pose proof (IH _ _ Hnext Hrest) as H.
    rewrite <- !app_assoc in H. exact H.
Qed.

(** C8.  In both clients a receive that times out at the transport,
    while the clock is within the overall timeout, ends nothing: the
    session is still running, in the same state, after any number of
    them.  The pass whose clock reading exceeds the overall timeout
    closes the connection and fails with the timeout message, handing
    over the output lines captured so far. *)
Theorem timeouts :
  (forall (p : Exec.params) w pre its st l,
     Exec.running p w pre st l ->
     Forall (fun it => Exec.in_time p it /\ transport_timeout (Exec.recv it))
       its ->
     Exec.running p w (pre ++ its) st (l ++ repeat WsRecv (List.length its)))
  /\ (forall (p : Exec.params) w pre post it st l,
        Exec.iterations w = pre ++ it :: post ->
        Exec.running p w pre st l ->
        timed_out (Exec.elapsed it) (Exec.timeout p) = true ->
        Exec.execute p w =
        (Exited {| msg := lit "Command execution timed out after "
                          ++ Text.of_Z (Exec.timeout p) ++ lit " seconds";
                   fail_output := Some (Exec.output_lines st);
                   fail_operation_id := None; fail_details := None |},
         l ++ [WsClose]))
  /\ (forall (p : Stack.params) w pre its st l,
        Stack.running p w pre st l ->
        Forall (fun it => Stack.in_time p it
                          /\ transport_timeout (Stack.recv it)) its ->
        Stack.running p w (pre ++ its) st
          (l ++ repeat WsRecv (List.length its)))
  /\ (forall (p : Stack.params) w pre post it st l,
        Stack.iterations w = pre ++ it :: post ->
        Stack.running p w pre st l ->
        timed_out (Stack.elapsed it) (Stack.timeout p) = true ->
        Stack.execute p w =
        (Exited {| msg := lit "Operation timed out after "
                          ++ Text.of_Z (Stack.timeout p) ++ lit " seconds";
                   fail_output := Some (Stack.output_lines st);
                   fail_operation_id := Some (Stack.operation_id st);
                   fail_details := None |},
         l ++ [WsClose])).
Proof.
  split; [|split; [|split]].
  - intros p w pre its st l. apply exec_timeouts_retry.
  - intros p w pre post it st l Hw Hrun Hout.
    unfold Exec.execute.
    rewrite (exec_resume p w pre (it :: post) st l Hw Hrun).
    cbn [while_true].
    rewrite (exec_body_timed_out p it st l Hout). reflexivity.
  - intros p w pre its st l. apply stack_timeouts_retry.
  - intros p w pre post it st l Hw Hrun Hout.
    rewrite (stack_resume p w pre (it :: post) st l Hw Hrun).
    cbn [while_true].
    rewrite (stack_body_timed_out p it st l Hout). reflexivity.
Qed.

End Failures.

(** C1.  [strip_ansi_codes] removes exactly the escape sequences: read
    from the left, its result is the text without the CSI sequences
    (ESC, an opening bracket, characters among the digits, the semicolon
    and the question mark, a letter) and the OSC sequences (ESC, a
    closing bracket, characters other than BEL, BEL) it meets, every
    other character kept in its place; no other text stands in that
    relation to the input; and a text that holds no such sequence comes
    back unchanged. *)
Theorem strip_ansi_codes_exact (text : str) :
  strips_to text (strip_ansi_codes text)
  /\ (forall out, strips_to text out -> out = strip_ansi_codes text)
  /\ (clean text -> strip_ansi_codes text = text).
Proof.
  split; [|split].
  - apply strip_strips.
  - intros out. apply strips_to_functional.
  - intros Hclean. exact (strips_clean _ _ (strip_strips text) Hclean).
Qed.

(** ** The API key and the result *)

Section Secrecy.
Context {rt : Runtime}.

Lemma log_blind_ret {S A : Type} (a : A) : log_blind (@ret S A a).
Proof. intros s l1 l2. reflexivity. Qed.

Lemma log_blind_raise {S A : Type} (e : raised) : log_blind (@raise S A e).
Proof. intros s l1 l2. reflexivity. Qed.

Lemma log_blind_fail_json {S A : Type} (f : S -> failure) :
  log_blind (@fail_json S A f).
Proof. intros s l1 l2. reflexivity. Qed.

Lemma log_blind_read {S : Type} : log_blind (@read S).
Proof. intros s l1 l2. reflexivity. Qed.

Lemma log_blind_modify {S : Type} (f : S -> S) : log_blind (modify f).
Proof. intros s l1 l2. reflexivity. Qed.

Lemma log_blind_call {S : Type} (a : action) (r : option lib_error) :
  log_blind (@call S a r).
Proof. intros s l1 l2. unfold call. destruct r; reflexivity. Qed.

Lemma log_blind_ws_recv {S : Type} (r : recv_result) :
  log_blind (@ws_recv S r).
Proof. intros s l1 l2. unfold ws_recv. destruct r; reflexivity. Qed.

Lemma log_blind_bind {S A B : Type} (m : io S A) (f : A -> io S B) :
  log_blind m -> (forall a, log_blind (f a)) -> log_blind (bind m f).
Proof.
  intros Hm Hf s l1 l2. unfold bind.
  pose proof (Hm s l1 l2) as H.
  destruct (m s l1) as [[[a|e] s1] l1'], (m s l2) as [[[a'|e'] s2] l2'];
    cbn [fst] in H; try discriminate; injection H as <- <-.
  - apply Hf.
  - reflexivity.
Qed.

Lemma log_blind_try {S A : Type} (m : io S A)
    (h : raised -> option (io S A)) :
  log_blind m -> (forall e k, h e = Some k -> log_blind k) ->
  log_blind (try_except m h).
Proof.
  intros Hm Hh s l1 l2. unfold try_except.
  pose proof (Hm s l1 l2) as H.
  destruct (m s l1) as [[[a|e] s1] l1'], (m s l2) as [[[a'|e'] s2] l2'];
    cbn [fst] in H; try discriminate; injection H as <- <-.
  - reflexivity.
  - destruct (h e) as [k|] eqn:E; [|reflexivity].
    apply (Hh e k E).
Qed.

(** Blindness goals, by the shape of the computation. *)
Ltac blind :=
  repeat first
    [ apply log_blind_ret | apply log_blind_raise | apply log_blind_fail_json
    | apply log_blind_read | apply log_blind_modify | apply log_blind_call
    | apply log_blind_ws_recv
    | apply log_blind_bind; [|intros ?]
    | match goal with
      | |- log_blind (if ?c then _ else _) => destruct c
      | |- log_blind (match ?x with _ => _ end) => destruct x
      end ].

Lemma exec_handlers_blind (e : raised) (k : io Exec.state control) :
  Exec.on_websocket_exception e = Some k -> log_blind k.
Proof.
  destruct e as [[t|t|t]|f]; cbn [Exec.on_websocket_exception];
    intros H; try discriminate; injection H as <-.
  - apply log_blind_ret.
  - unfold perform. blind.
Qed.

Lemma exec_body_blind (p : Exec.params) (it : Exec.iteration) :
  log_blind (Exec.loop_body p it).
Proof.
  unfold Exec.loop_body. apply log_blind_bind.
  - unfold perform. blind.
  - intros _. apply log_blind_try; [|apply exec_handlers_blind].
    apply log_blind_bind; [apply log_blind_ws_recv|].
    intros [m|]; [|apply log_blind_ret].
    unfold Exec.dispatch, Exec.on_success, Exec.on_terminal_output,
      Exec.on_terminal_close, Exec.on_error, Exec.encoded, perform.
    blind.
Qed.

Lemma stack_handlers_blind (e : raised) (k : io Stack.state control) :
  Stack.on_websocket_exception e = Some k -> log_blind k.
Proof.
  destruct e as [[t|t|t]|f]; cbn [Stack.on_websocket_exception];
    intros H; try discriminate; injection H as <-.
  - apply log_blind_ret.
  - unfold perform. blind.
Qed.

Lemma stack_body_blind (p : Stack.params) (it : Stack.iteration) :
  log_blind (Stack.loop_body p it).
Proof.
  unfold Stack.loop_body. apply log_blind_bind.
  - unfold perform. blind.
  - intros _. apply log_blind_try; [|apply stack_handlers_blind].
    apply log_blind_bind; [apply log_blind_ws_recv|].
    intros [m|]; [|apply log_blind_ret].
    unfold Stack.dispatch, Stack.on_output, Stack.on_progress,
      Stack.on_complete, Stack.on_error, perform.
    blind.
Qed.

Lemma while_true_blind {S I : Type} (body1 body2 : I -> io S control)
    (script : list I) :
  (forall it s l1 l2, fst (body1 it s l1) = fst (body2 it s l2)) ->
  forall s l1 l2,
    fst (while_true body1 script s l1) = fst (while_true body2 script s l2).
Proof.
  intros Hbody. induction script as [|it script IH]; intros s l1 l2;
    cbn [while_true].
  - reflexivity.
  - pose proof (Hbody it s l1 l2) as H.
    destruct (body1 it s l1) as [[[[]|e] s1] l1'],
             (body2 it s l2) as [[[[]|e'] s2] l2'];
      cbn [fst] in H; try discriminate; injection H; intros; subst;
      try reflexivity.
    apply IH.
Qed.

Lemma exec_finish_blind (r1 r2 : loop_end * Exec.state * list action) :
  fst r1 = fst r2 -> fst (Exec.finish r1) = fst (Exec.finish r2).
Proof.
  destruct r1 as [[e1 s1] l1], r2 as [[e2 s2] l2]. cbn [fst].
  intros H. injection H as <- <-.
  destruct e1 as [|[e|f]|]; reflexivity.
Qed.

Lemma stack_finish_blind (r1 r2 : loop_end * Stack.state * list action) :
  fst r1 = fst r2 -> fst (Stack.finish r1) = fst (Stack.finish r2).
Proof.
  destruct r1 as [[e1 s1] l1], r2 as [[e2 s2] l2]. cbn [fst].
  intros H. injection H as <- <-.
  destruct e1 as [|[e|f]|]; reflexivity.
Qed.

(** C9, as amended.  Neither client writes the API key into the data
    it returns or fails with: under two keys, and otherwise the same
    parameters, the same answers of the library and the server lead to
    the same outcome, field for field, on every exit path.  The one
    exception is the stack client's request when [http.client] refuses
    the value of the [Authorization] header: the client then fails with
    [Unexpected error starting operation: ] and the text of that
    exception, which quotes the header value and with it the key. *)
Theorem api_key_only_in_header_error :
  (forall (p q : Exec.params) (w : Exec.peer),
     Exec.same_but_key p q ->
     fst (Exec.execute p w) = fst (Exec.execute q w))
  /\ (forall (p q : Stack.params) (w : Stack.peer),
        Stack.same_but_key p q ->
        Stack.post w <> Stack.InvalidHeader ->
        fst (Stack.execute p w) = fst (Stack.execute q w))
  /\ (forall (p : Stack.params) (w : Stack.peer),
        Stack.post w = Stack.InvalidHeader ->
        Stack.execute p w =
        (Exited (Stack.just
                   (lit "Unexpected error starting operation: "
                    ++ header_error (lit "Bearer " ++ Stack.api_key p))),
         [Stack.requesting p])).
Proof.
  split; [|split].
  - intros [u1 k1 i1 n1 v1 c1 m1 b1 t1] [u2 k2 i2 n2 v2 c2 m2 b2 t2] w.
    unfold Exec.same_but_key. cbn.
    intros [<- [<- [<- [<- [<- [<- [<- <-]]]]]]].
    set (p := Exec.Build_params u1 k1 i1 n1 v1 c1 m1 b1 t1).
    set (q := Exec.Build_params u1 k2 i1 n1 v1 c1 m1 b1 t1).
    assert (Hexec : fst (Exec.execute_command p w)
                    = fst (Exec.execute_command q w)).
    { unfold Exec.execute_command.
      assert (Hopen : fst (Exec.opening p w Exec.init [])
                      = fst (Exec.opening q w Exec.init [])).
      { unfold Exec.opening, bind, call.
        destruct (Exec.connect w); [reflexivity|].
        destruct (Exec.send_start w); reflexivity. }
      destruct (Exec.opening p w Exec.init []) as [[[u|e] s1] l1],
               (Exec.opening q w Exec.init []) as [[[u'|e'] s2] l2];
        cbn [fst] in Hopen; try discriminate; injection Hopen; intros;
        subst.
      - apply exec_finish_blind. apply while_true_blind.
        intros it s l1' l2'.
        change (Exec.loop_body q it) with (Exec.loop_body p it).
        apply exec_body_blind.
      - apply exec_finish_blind. reflexivity. }
    unfold Exec.execute.
    destruct (Exec.execute_command p w) as [[s1|f1|s1|e1] l1],
             (Exec.execute_command q w) as [[s2|f2|s2|e2] l2];
      cbn [fst] in Hexec; try discriminate; injection Hexec as <-;
      reflexivity.
  - intros [u1 k1 i1 n1 o1 c1 m1 b1 t1] [u2 k2 i2 n2 o2 c2 m2 b2 t2] w.
    unfold Stack.same_but_key. cbn.
    intros [<- [<- [<- [<- [<- [<- [<- <-]]]]]]] Hheader.
    set (p := Stack.Build_params u1 k1 i1 n1 o1 c1 m1 b1 t1).
    set (q := Stack.Build_params u1 k2 i1 n1 o1 c1 m1 b1 t1).
    unfold Stack.execute.
    assert (Hstart : fst (Stack.start_operation p w Stack.init [])
                     = fst (Stack.start_operation q w Stack.init [])).
    { unfold Stack.start_operation, bind, perform, call, modify, read.
      destruct (Stack.post w) as [e|[e|v]|code [|text|e]|e| |e];
        try reflexivity.
      - destruct v as [|b|n|f|s|items|body]; try reflexivity.
        cbn [Stack.operation_id Stack.set_operation_id].
        destruct (negb (truthy (get body (lit "operationId") Null)));
          reflexivity.
      - exfalso. apply Hheader. reflexivity. }
    destruct (Stack.start_operation p w Stack.init []) as [[[v|e] s1] l1],
             (Stack.start_operation q w Stack.init []) as [[[v'|e'] s2] l2];
      cbn [fst] in Hstart; try discriminate; injection Hstart; intros;
      subst.
    + assert (Hstream : fst (Stack.stream_operation p w s2 l1)
                        = fst (Stack.stream_operation q w s2 l2)).
      { unfold Stack.stream_operation.
        assert (Hopen : fst (Stack.opening p w s2 l1)
                        = fst (Stack.opening q w s2 l2)).
        { unfold Stack.opening, call.
          destruct (Stack.connect w); reflexivity. }
        destruct (Stack.opening p w s2 l1) as [[[u|e] s3] l3],
                 (Stack.opening q w s2 l2) as [[[u'|e'] s4] l4];
          cbn [fst] in Hopen; try discriminate; injection Hopen; intros;
          subst.
        - apply stack_finish_blind. apply while_true_blind.
          intros it s l1' l2'.
          change (Stack.loop_body q it) with (Stack.loop_body p it).
          apply stack_body_blind.
        - apply stack_finish_blind. reflexivity. }
      destruct (Stack.stream_operation p w s2 l1) as [[s3|f3|s3|e3] l3],
               (Stack.stream_operation q w s2 l2) as [[s4|f4|s4|e4] l4];
        cbn [fst] in Hstream; try discriminate; injection Hstream as <-;
        reflexivity.
    + destruct e'; reflexivity.
  - intros p w H.
    unfold Stack.execute, Stack.start_operation, bind, perform, call,
      fail_json.
    rewrite H. reflexivity.
Qed.

End Secrecy.

(** ** Examples *)

#[local] Existing Instance Demo.runtime.

(** A text without ESC holds no escape sequence. *)
Lemma no_esc_clean (text : str) :
  existsb (N.eqb ESC) text = false -> clean text.
Proof.
  intros H before m after Hm ->.
  rewrite !existsb_app in H.
  apply orb_false_iff in H as [_ H]. apply orb_false_iff in H as [H _].
  destruct Hm; cbn in H; discriminate.
Qed.

(** The running session a peer's first passes lead to, by evaluation. *)
Ltac exec_runs p w pre :=
  let r := eval vm_compute in
             (Exec.execute_command p (Exec.with_iterations w pre)) in
  lazymatch r with
  | (Pending ?st, ?l) =>
      assert (Exec.running p w pre st l) by (vm_compute; reflexivity)
  end.

Ltac stack_runs p w pre :=
  let r := eval vm_compute in
             (Stack.execute p (Stack.with_iterations w pre)) in
  lazymatch r with
  | (Pending ?st, ?l) =>
      assert (Stack.running p w pre st l) by (vm_compute; reflexivity)
  end.

(** A hypothesis of the examples, by evaluation. *)
Ltac evaluated :=
  repeat first
    [ split
    | eexists
    | intros ? ? [H|[H|[]]]; injection H as <- _; (vm_compute; discriminate)
    | intros ? ? [H|[]]; injection H as <- _; (vm_compute; discriminate)
    | intros ? ? []
    | vm_compute; reflexivity
    | vm_compute; discriminate ].

Lemma strip_ansi_codes_exact_witness :
  strip_ansi_codes (ESC :: lit "[1;32mweb-1" ++ ESC :: lit "[0m") = lit "web-1"
  /\ strip_ansi_codes (lit "web-1") = lit "web-1".
Proof.
  split.
  - symmetry.
    apply (proj1 (proj2 (strip_ansi_codes_exact
                           (ESC :: lit "[1;32mweb-1" ++ ESC :: lit "[0m")))).
    apply (strips_drop (ESC :: lit "[1;32m") (lit "web-1" ++ ESC :: lit "[0m")).
    + apply (CSI (lit "1;32") 109%N); reflexivity.
    + repeat (apply strips_keep;
              [intros m after Hm; destruct Hm; discriminate|]).
      apply (strips_drop (ESC :: lit "[0m") [] []).
      * apply (CSI (lit "0") 109%N); reflexivity.
      * apply strips_end.
  - apply (proj2 (proj2 (strip_ansi_codes_exact (lit "web-1")))).
    apply no_esc_clean. reflexivity.
Defined.

Lemma exec_output_filter_witness :
  fst (Exec.execute Demo.exec_params
         (Demo.exec_peer (Demo.exec_prefix ++ [Demo.exec_pass 5 (Demo.close_msg 0)])))
  = Returned {| Exec.changed := false; Exec.result_exit_code := Int 0;
                Exec.stdout := Demo.real_line; Exec.stderr := [];
                Exec.output := [Demo.real_line]; Exec.failed := false |}.
Proof.
  apply (proj2 (proj2 (proj2 (exec_output_filter Demo.exec_params)))
           (Demo.exec_peer
              (Demo.exec_prefix ++ [Demo.exec_pass 5 (Demo.close_msg 0)]))
           (Demo.exec_pass 1 Demo.success_msg)
           (Demo.exec_pass 2 (Demo.output_msg Demo.prompt_payload))
           (Demo.exec_pass 3 (Demo.output_msg Demo.echo_payload))
           (Demo.exec_pass 4 (Demo.output_msg Demo.real_payload))
           (Demo.exec_pass 5 (Demo.close_msg 0))
           (lit "/app # ")
           (lit "hostname" ++ [13%N; 10%N])
           Demo.real_line).
  all: try (vm_compute; reflexivity).
  - evaluated.
  - evaluated.
  - exists (lit " "). vm_compute. reflexivity.
  - evaluated.
  - exists [], [13%N; 10%N]. vm_compute. reflexivity.
  - evaluated.
  - vm_compute. discriminate.
  - evaluated.
Defined.

Lemma exec_close_result_witness :
  exists r l,
    Exec.execute Demo.exec_params
      (Demo.exec_peer (Demo.exec_prefix ++ [Demo.exec_pass 5 (Demo.close_msg 2)]))
    = (Returned r, l)
    /\ Exec.output r = [Demo.real_line]
    /\ Exec.result_exit_code r = Int 2
    /\ Exec.failed r = true.
Proof.
  exec_runs Demo.exec_params
    (Demo.exec_peer (Demo.exec_prefix ++ [Demo.exec_pass 5 (Demo.close_msg 2)]))
    Demo.exec_prefix.
  match goal with Hrun : Exec.running _ _ _ ?st ?l |- _ =>
    destruct (exec_close_result Demo.exec_params
                (Demo.exec_peer
                   (Demo.exec_prefix ++ [Demo.exec_pass 5 (Demo.close_msg 2)]))
                Demo.exec_prefix [] (Demo.exec_pass 5 (Demo.close_msg 2))
                (Demo.close_msg 2) st l eq_refl Hrun eq_refl eq_refl eq_refl)
      as [r [Hexec [_ [_ [Hout [Hcode _]]]]]]
  end.
  exists r. eexists. split; [exact Hexec|]. split; [exact Hout|].
  destruct (Hcode 2%Z eq_refl) as [H2 Hfailed]. split; [exact H2|].
  apply Hfailed. discriminate.
Defined.

Lemma stack_missing_operation_id_witness :
  Stack.execute Demo.stack_params
    (Demo.stack_peer [(lit "status", Str (lit "accepted"))]
       [Demo.stack_pass 1 (Demo.complete_msg true)])
  = (Exited (Stack.just (lit "No operation ID returned from server")),
     [HttpPost (lit "https://berth.example.com/api/v1/servers/1/stacks/myapp/operations")
        [(lit "Authorization", lit "Bearer brth_0123456789");
         (lit "Content-Type", lit "application/json")]
        (Stack.payload Demo.stack_params) false]).
Proof.
  apply (proj1 (stack_missing_operation_id Demo.stack_params)
           (Demo.stack_peer [(lit "status", Str (lit "accepted"))]
              [Demo.stack_pass 1 (Demo.complete_msg true)])
           [(lit "status", Str (lit "accepted"))] eq_refl).
  left. intros k v [H|[]]. injection H as <- _. vm_compute. discriminate.
Defined.

(** C5, as stated, fails: a [stdout] message whose payload is the empty
    text adds no line, where the statement has it add the empty line. *)
Lemma stack_empty_payload_adds_nothing : ~ Stack.every_output_appends.
Proof.
  intros Hall.
  pose (w := Demo.stack_peer Demo.accepted_body
               [Demo.stack_pass 1 (Demo.stdout_msg [])]).
  stack_runs Demo.stack_params w (@nil Stack.iteration).
  stack_runs Demo.stack_params w [Demo.stack_pass 1 (Demo.stdout_msg [])].
  match goal with
  | H0 : Stack.running _ _ [] ?st _, H1 : Stack.running _ _ [_] _ _ |- _ =>
      destruct (Hall Demo.stack_params w [] (Demo.stack_pass 1 (Demo.stdout_msg []))
                  (Demo.stdout_msg []) [] st _ H0 eq_refl eq_refl
                  (or_introl eq_refl) eq_refl)
        as [st' [l' [Hrun Hlines]]];
      unfold Stack.running in Hrun, H1; cbn [app] in Hrun;
      rewrite H1 in Hrun; injection Hrun as <- _
  end.
  vm_compute in Hlines. discriminate.
Qed.

Lemma stack_output_lines_witness :
  exists r l,
    Stack.execute Demo.stack_params
      (Demo.stack_peer Demo.accepted_body
         [Demo.stack_pass 1 (Demo.stdout_msg (lit "a"));
          Demo.stack_pass 2 (Demo.progress_msg "b" "T");
          Demo.stack_pass 3 (Demo.complete_msg true)])
    = (Returned r, l)
    /\ Stack.output r = [lit "a"; lit "[T] b"]
    /\ Stack.failed r = false
    /\ Stack.result_exit_code r = Int 0.
Proof.
  apply (proj2 (stack_output_lines Demo.stack_params)
           (Demo.stack_peer Demo.accepted_body
              [Demo.stack_pass 1 (Demo.stdout_msg (lit "a"));
               Demo.stack_pass 2 (Demo.progress_msg "b" "T");
               Demo.stack_pass 3 (Demo.complete_msg true)])
           (Str (lit "op-1"))
           (Demo.stack_pass 1 (Demo.stdout_msg (lit "a")))
           (Demo.stack_pass 2 (Demo.progress_msg "b" "T"))
           (Demo.stack_pass 3 (Demo.complete_msg true))
           (Demo.stdout_msg (lit "a")) (Demo.progress_msg "b" "T")
           (Demo.complete_msg true) (lit "a") (lit "b") (lit "T")).
  all: try (vm_compute; reflexivity).
  all: try (vm_compute; discriminate).
  - evaluated.
  - evaluated.
  - evaluated.
  - evaluated.
  - evaluated.
Defined.

Lemma stack_complete_result_witness :
  exists r l,
    Stack.execute Demo.stack_params
      (Demo.stack_peer Demo.accepted_body
         [Demo.stack_pass 1 (Demo.stdout_msg (lit "a"));
          Demo.stack_pass 2 (Demo.complete_msg false)])
    = (Returned r, l)
    /\ Stack.changed r = true
    /\ Stack.failed r = true
    /\ Stack.result_exit_code r = Int 1
    /\ Stack.output r = [lit "a"].
Proof.
  pose (w := Demo.stack_peer Demo.accepted_body
               [Demo.stack_pass 1 (Demo.stdout_msg (lit "a"));
                Demo.stack_pass 2 (Demo.complete_msg false)]).
  stack_runs Demo.stack_params w [Demo.stack_pass 1 (Demo.stdout_msg (lit "a"))].
  match goal with Hrun : Stack.running _ _ _ ?st ?l |- _ =>
    destruct (stack_complete_result Demo.stack_params w
                [Demo.stack_pass 1 (Demo.stdout_msg (lit "a"))] []
                (Demo.stack_pass 2 (Demo.complete_msg false))
                (Demo.complete_msg false) st l eq_refl Hrun
                (conj eq_refl (conj eq_refl eq_refl)))
      as [r [Hexec [Hchanged [_ [Hflag [_ [Hcode [_ [Hout _]]]]]]]]]
  end.
  exists r. eexists. split; [exact Hexec|]. split; [exact Hchanged|].
  pose proof (Hflag false eq_refl) as Hfailed. split; [exact Hfailed|].
  split.
  - rewrite Hcode, Hfailed; [reflexivity|].
    intros k v [Hin|[Hin|[]]]; injection Hin as <- _; vm_compute;
      discriminate.
  - exact Hout.
Defined.

Lemma error_frame_ends_session_witness :
  (exists l,
     Exec.execute Demo.exec_params
       (Demo.exec_peer (Demo.exec_prefix
                        ++ [Demo.exec_pass 5 Demo.exec_error_msg;
                            Demo.exec_pass 6 (Demo.close_msg 0)]))
     = (Exited {| msg := lit "Terminal error: container not found: web";
                  fail_output := Some [Demo.real_line];
                  fail_operation_id := None; fail_details := None |}, l))
  /\ (exists l,
        Stack.execute Demo.stack_params
          (Demo.stack_peer Demo.accepted_body
             [Demo.stack_pass 1 (Demo.stdout_msg (lit "a"));
              Demo.stack_pass 2 Demo.stack_error_msg;
              Demo.stack_pass 3 (Demo.complete_msg true)])
        = (Exited {| msg := lit "Operation error: compose failed";
                     fail_output := Some [lit "a"];
                     fail_operation_id := Some (Str (lit "op-1"));
                     fail_details := None |}, l)).
Proof.
  split.
  - pose (w := Demo.exec_peer (Demo.exec_prefix
                               ++ [Demo.exec_pass 5 Demo.exec_error_msg;
                                   Demo.exec_pass 6 (Demo.close_msg 0)])).
    exec_runs Demo.exec_params w Demo.exec_prefix.
    match goal with Hrun : Exec.running _ _ _ ?st ?l |- _ =>
      pose proof (proj1 (proj1 error_frame_ends_session Demo.exec_params w
                           Demo.exec_prefix [Demo.exec_pass 6 (Demo.close_msg 0)]
                           (Demo.exec_pass 5 Demo.exec_error_msg)
                           Demo.exec_error_msg st l eq_refl Hrun eq_refl
                           eq_refl eq_refl)) as Hexec
    end.
    eexists. exact Hexec.
  - pose (w := Demo.stack_peer Demo.accepted_body
                 [Demo.stack_pass 1 (Demo.stdout_msg (lit "a"));
                  Demo.stack_pass 2 Demo.stack_error_msg;
                  Demo.stack_pass 3 (Demo.complete_msg true)]).
    stack_runs Demo.stack_params w
      [Demo.stack_pass 1 (Demo.stdout_msg (lit "a"))].
    match goal with Hrun : Stack.running _ _ _ ?st ?l |- _ =>
      pose proof (proj2 error_frame_ends_session Demo.stack_params w
                    [Demo.stack_pass 1 (Demo.stdout_msg (lit "a"))]
                    [Demo.stack_pass 3 (Demo.complete_msg true)]
                    (Demo.stack_pass 2 Demo.stack_error_msg)
                    Demo.stack_error_msg st l eq_refl Hrun
                    (conj eq_refl (conj eq_refl eq_refl))) as Hexec
    end.
    eexists. exact Hexec.
Defined.

Lemma timeouts_witness :
  (exists l,
     Exec.execute Demo.exec_params
       (Demo.exec_peer
          (Demo.exec_prefix
           ++ [Demo.exec_raise 100 (WebSocketTimeoutException (lit "timed out"));
               Demo.exec_raise 301 (WebSocketTimeoutException (lit "timed out"))]))
     = (Exited {| msg := lit "Command execution timed out after 30 seconds";
                  fail_output := Some [Demo.real_line];
                  fail_operation_id := None; fail_details := None |}, l))
  /\ (exists l,
        Stack.execute Demo.stack_params
          (Demo.stack_peer Demo.accepted_body
             [Demo.stack_raise 300 (WebSocketTimeoutException (lit "timed out"));
              Demo.stack_raise 601 (WebSocketTimeoutException (lit "timed out"))])
        = (Exited {| msg := lit "Operation timed out after 600 seconds";
                     fail_output := Some [];
                     fail_operation_id := Some (Str (lit "op-1"));
                     fail_details := None |}, l)).
Proof.
  split.
  - pose (late := Demo.exec_raise 301 (WebSocketTimeoutException (lit "timed out"))).
    pose (retry := Demo.exec_raise 100 (WebSocketTimeoutException (lit "timed out"))).
    pose (w := Demo.exec_peer (Demo.exec_prefix ++ [retry; late])).
    exec_runs Demo.exec_params w Demo.exec_prefix.
    match goal with Hrun : Exec.running _ _ _ ?st ?l |- _ =>
      pose proof (proj1 timeouts Demo.exec_params w Demo.exec_prefix [retry]
                    st l Hrun
                    (Forall_cons retry
                       (conj eq_refl (ex_intro _ (lit "timed out") eq_refl))
                       (Forall_nil _))) as Hretry;
      pose proof (proj1 (proj2 timeouts) Demo.exec_params w
                    (Demo.exec_prefix ++ [retry]) [] late st _ eq_refl
                    Hretry eq_refl) as Hexec
    end.
    eexists. exact Hexec.
  - pose (late := Demo.stack_raise 601 (WebSocketTimeoutException (lit "timed out"))).
    pose (retry := Demo.stack_raise 300 (WebSocketTimeoutException (lit "timed out"))).
    pose (w := Demo.stack_peer Demo.accepted_body [retry; late]).
    stack_runs Demo.stack_params w (@nil Stack.iteration).
    match goal with Hrun : Stack.running _ _ _ ?st ?l |- _ =>
      pose proof (proj1 (proj2 (proj2 timeouts)) Demo.stack_params w [] [retry]
                    st l Hrun
                    (Forall_cons retry
                       (conj eq_refl (ex_intro _ (lit "timed out") eq_refl))
                       (Forall_nil _))) as Hretry;
      pose proof (proj2 (proj2 (proj2 timeouts)) Demo.stack_params w
                    ([] ++ [retry]) [] late st _ eq_refl
                    Hretry eq_refl) as Hexec
    end.
    eexists. exact Hexec.
Defined.

(** C9, as stated, fails: under a key that ends in a line break the
    request is refused by [http.client], and the failure message of the
    stack client quotes the header with the key in it; under another
    such key the message is another. *)
Lemma stack_key_in_failure_message : ~ Stack.key_never_returned.
Proof.
  intros Hall.
  pose proof (Hall Demo.stack_params_key_newline
                Demo.stack_params_other_key_newline
                Demo.stack_peer_invalid_header) as H.
  assert (Hsame : Stack.same_but_key Demo.stack_params_key_newline
                    Demo.stack_params_other_key_newline)
    by (repeat split).
  specialize (H Hsame). vm_compute in H. discriminate.
Qed.

Lemma api_key_only_in_header_error_witness :
  fst (Exec.execute Demo.exec_params
         (Demo.exec_peer (Demo.exec_prefix ++ [Demo.exec_pass 5 (Demo.close_msg 0)])))
  = fst (Exec.execute Demo.exec_params_other_key
           (Demo.exec_peer (Demo.exec_prefix ++ [Demo.exec_pass 5 (Demo.close_msg 0)])))
  /\ snd (Exec.execute Demo.exec_params (Demo.exec_peer []))
     <> snd (Exec.execute Demo.exec_params_other_key (Demo.exec_peer []))
  /\ fst (Stack.execute Demo.stack_params
            (Demo.stack_peer Demo.accepted_body
               [Demo.stack_pass 1 Demo.stack_error_msg]))
     = fst (Stack.execute Demo.stack_params_other_key
              (Demo.stack_peer Demo.accepted_body
                 [Demo.stack_pass 1 Demo.stack_error_msg]))
  /\ Stack.execute Demo.stack_params_key_newline
       Demo.stack_peer_invalid_header
     = (Exited (Stack.just
                  (lit "Unexpected error starting operation: Invalid header value b'Bearer brth_0123456789\n'")),
        [Stack.requesting Demo.stack_params_key_newline]).
Proof.
  split; [|split; [|split]].
  - apply (proj1 api_key_only_in_header_error). repeat split.
  - vm_compute. discriminate.
  - apply (proj1 (proj2 api_key_only_in_header_error)).
    + repeat split.
    + discriminate.
  - exact (proj2 (proj2 api_key_only_in_header_error)
             Demo.stack_params_key_newline Demo.stack_peer_invalid_header
             eq_refl).
Defined.

Lemma exec_output_before_success_witness :
  exists st l,
    Exec.running Demo.exec_params
      (Demo.exec_peer [Demo.exec_pass 1 (Demo.output_msg Demo.real_payload);
                       Demo.exec_pass 2 (Demo.output_msg Demo.real_payload)])
      [Demo.exec_pass 1 (Demo.output_msg Demo.real_payload);
       Demo.exec_pass 2 (Demo.output_msg Demo.real_payload)] st l
    /\ Exec.session_ready st = false
    /\ Exec.output_lines st = [].
Proof.
  pose (it1 := Demo.exec_pass 1 (Demo.output_msg Demo.real_payload)).
  pose (it2 := Demo.exec_pass 2 (Demo.output_msg Demo.real_payload)).
  pose (w := Demo.exec_peer [it1; it2]).
  exec_runs Demo.exec_params w (@nil Exec.iteration).
  match goal with Hrun : Exec.running _ _ _ ?st ?l |- _ =>
    pose proof (exec_running_step Demo.exec_params w [] it1 st st l _ Hrun
                  (proj1 (exec_output_before_success Demo.exec_params) it1
                     (Demo.output_msg Demo.real_payload) st l
                     eq_refl eq_refl eq_refl eq_refl)) as H1;
    pose proof (exec_running_step Demo.exec_params w _ it2 st st _ _ H1
                  (proj1 (exec_output_before_success Demo.exec_params) it2
                     (Demo.output_msg Demo.real_payload) st _
                     eq_refl eq_refl eq_refl eq_refl)) as H2
  end.
  eexists. eexists. split; [exact H2|].
  exact (proj2 (exec_output_before_success Demo.exec_params) w [it1; it2]
           _ _ eq_refl H2).
Defined.

(** The filter before the command has been sent.  When the first send of
    the [success] pass times out, the session is ready and the command
    unsent: the prompt is dropped, and the line that holds the command
    text is kept. *)
Example exec_filter_command_unsent :
  exists st l,
    Exec.running Demo.exec_params (Demo.exec_peer [])
      [Demo.exec_pass_unsent;
       Demo.exec_pass 2 (Demo.output_msg Demo.prompt_payload);
       Demo.exec_pass 3 (Demo.output_msg Demo.echo_payload)] st l
    /\ Exec.session_ready st = true
    /\ Exec.command_sent st = false
    /\ Exec.output_lines st = [lit "hostname" ++ [13%N; 10%N]].
Proof.
  exec_runs Demo.exec_params (Demo.exec_peer [])
    [Demo.exec_pass_unsent;
     Demo.exec_pass 2 (Demo.output_msg Demo.prompt_payload);
     Demo.exec_pass 3 (Demo.output_msg Demo.echo_payload)].
  match goal with Hrun : Exec.running _ _ _ ?st ?l |- _ =>
    exists st, l; split; [exact Hrun|]
  end.
  repeat split.
Qed.

(** Stripping can leave an escape sequence behind: the characters around
    a removed sequence may form one. *)
Example strip_not_idempotent :
  strip_ansi_codes (ESC :: ESC :: lit "[0m" ++ lit "[1m") = ESC :: lit "[1m"
  /\ strip_ansi_codes (ESC :: lit "[1m") = [].
Proof. split; vm_compute; reflexivity. Qed.

(** * More of the two modules *)

(** ** [strip_ansi_codes] *)

Lemma strips_to_length (text out : str) :
  strips_to text out ->
  List.length out <= List.length text
  /\ (List.length out = List.length text -> clean text).
Proof.
  induction 1 as [|m rest out Hm _ [IHle _]|c rest out Hno _ [IHle IHeq]].
  - split; [reflexivity|]. intros _ before m after Hm H.
    destruct before; destruct Hm; discriminate.
  - assert (Hlen : 3 <= List.length m).
    { destruct Hm; cbn [List.length]; rewrite length_app; cbn; lia. }
    rewrite length_app. split; [lia|]. intros H. lia.
  - cbn [List.length]. split; [lia|]. intros H.
    assert (Hrest : clean rest) by (apply IHeq; lia).
    intros before m after Hm Heq.
    destruct before as [|b before].
    + exact (Hno m after Hm Heq).
    + injection Heq as _ Heq. exact (Hrest before m after Hm Heq).
Qed.

(** X1.  [strip_ansi_codes] leaves a text as it is exactly when the text
    holds no escape sequence. *)
Theorem strip_fixed_point (text : str) :
  strip_ansi_codes text = text <-> clean text.
Proof.
  split.
  - intros H.
    apply (proj2 (strips_to_length text (strip_ansi_codes text)
                    (strip_strips text))).
    rewrite H. reflexivity.
  - intros H. exact (strips_clean _ _ (strip_strips text) H).
Qed.

Lemma no_esc_no_match (c : char) (s : str) :
  N.eqb ESC c = false -> ansi_match (c :: s) = None.
Proof.
  intros H. unfold ansi_match. destruct s as [|c1 s2]; [reflexivity|].
  rewrite N.eqb_sym, H. reflexivity.
Qed.

(** X2.  Stripping goes through a text piece by piece: a leading piece
    without ESC stays and the rest is stripped on its own, and a leading
    escape sequence goes and the rest is stripped on its own. *)
Theorem strip_composes (head rest : str) :
  (no_esc head ->
   strip_ansi_codes (head ++ rest) = head ++ strip_ansi_codes rest)
  /\ (escape_sequence head ->
      strip_ansi_codes (head ++ rest) = strip_ansi_codes rest).
Proof.
  split.
  - unfold no_esc. induction head as [|c head IH]; intros H; cbn [app].
    + reflexivity.
    + cbn [existsb] in H. apply orb_false_iff in H as [Hc Hrest].
      rewrite (strip_no_match c (head ++ rest) (no_esc_no_match c _ Hc)).
      rewrite (IH Hrest). reflexivity.
  - intros Hm. pose proof (ansi_match_complete head rest Hm) as E.
    destruct (head ++ rest) as [|c s] eqn:Hs.
    + destruct Hm; discriminate.
    + exact (strip_match c s rest E).
Qed.

Lemma subsequence_skip_app (m out text : str) :
  subsequence out text -> subsequence out (m ++ text).
Proof.
  intros H. induction m as [|c m IH]; cbn [app]; [exact H|].
  apply subsequence_skip. exact IH.
Qed.

(** X3.  Stripping only takes characters away: the result is the input
    with some characters left out, in the same order, and no longer than
    the input. *)
Theorem strip_subsequence (text : str) :
  subsequence (strip_ansi_codes text) text
  /\ List.length (strip_ansi_codes text) <= List.length text.
Proof.
  split.
  - induction (strip_strips text) as [|m rest out _ _ IH|c rest out _ _ IH].
    + constructor.
    + apply subsequence_skip_app. exact IH.
    + apply subsequence_take. exact IH.
  - exact (proj1 (strips_to_length _ _ (strip_strips text))).
Qed.

(** ** What one pass of a receive loop can do *)

Lemma eq_str_true (v : value) (s : str) : eq_str v s = true -> v = Str s.
Proof.
  destruct v; cbn [eq_str]; try discriminate.
  intros H. apply text_eqb_eq in H. congruence.
Qed.

(** The definitions a pass is made of. *)
Ltac exec_pass :=
  unfold Exec.loop_body, Exec.dispatch, Exec.on_success,
    Exec.on_terminal_output, Exec.on_terminal_close, Exec.on_error,
    Exec.encoded, bind, try_except, ws_recv, perform, call, modify, read,
    ret, raise, fail_json.

Ltac stack_pass :=
  unfold Stack.loop_body, Stack.dispatch, Stack.on_output,
    Stack.on_progress, Stack.on_complete, Stack.on_error,
    bind, try_except, ws_recv, perform, call, modify, read,
    ret, raise, fail_json.

(** Every way through a pass: each test and each [match], innermost
    first. *)
Ltac split_cases :=
  repeat first
    [ progress cbn beta iota delta [Exec.on_websocket_exception
                                    Stack.on_websocket_exception fst snd
                                    bind perform call fail_json ret]
    | match goal with
      | |- context [match ?x with _ => _ end] =>
          lazymatch x with
          | context [match _ with _ => _ end] => fail
          | _ => destruct x eqn:?
          end
      end ].

(** The log of a pass as the log before and what the pass added. *)
Ltac added_actions :=
  rewrite <- ?app_assoc; cbn [app]; eexists; split; [reflexivity|];
  cbn [existsb filter List.length count is_connect is_post is_close is_send
       orb].

Section ExecPassFacts.
Context {rt : Runtime}.
Import Exec.

Variable p : params.

Lemma not_skipped_not_prompt (st : state) (line : str) :
  should_skip_output p st line = false ->
  Text.startswith PROMPT line = false.
Proof.
  unfold should_skip_output.
  destruct (negb (command_sent st)).
  - destruct (Text.startswith PROMPT line); [discriminate|reflexivity].
  - destruct (Text.contains (command p) line); cbn [orb]; [discriminate|].
    destruct (Text.startswith PROMPT line); cbn [orb];
      [discriminate|reflexivity].
Qed.

(** A pass adds to the captured output at most lines the filter lets
    through, and takes nothing away. *)
Lemma exec_pass_lines (it : iteration) (st : state) (l : list action) :
  exists lines,
    output_lines (snd (fst (loop_body p it st l))) = output_lines st ++ lines
    /\ Forall kept_line lines.
Proof.
  exec_pass. split_cases.
  all: cbn [fst snd output_lines append_output set_exit_code set_session_id
            set_session_ready set_command_sent].
  all: try (exists []; split; [symmetry; apply app_nil_r | constructor]).
  eexists. split; [reflexivity|]. constructor; [|constructor].
  match goal with H : _ && _ = true |- _ =>
    apply andb_true_iff in H as [Hne Hskip] end.
  apply negb_true_iff in Hne, Hskip. split.
  - intros E. rewrite E in Hne. discriminate.
  - exact (not_skipped_not_prompt _ _ Hskip).
Qed.

(** What a pass adds to the log: no connection is opened; the
    connection is closed once when the pass returns or exits through
    [fail_json], and not at all when it continues or lets an exception
    out. *)
Lemma exec_pass_log (it : iteration) (st : state) (l : list action) :
  exists added,
    snd (loop_body p it st l) = l ++ added
    /\ existsb is_connect added = false
    /\ existsb is_post added = false
    /\ count is_close added =
       match fst (fst (loop_body p it st l)) with
       | inl Continue => 0
       | inl Return => 1
       | inr (SystemExit _) => 1
       | inr (Lib _) => 0
       end.
Proof.
  exec_pass. split_cases.
  all: added_actions; repeat split.
Qed.

(** A pass that brings no [success] sends nothing. *)
Lemma exec_pass_no_send (it : iteration) (st : state) (l : list action) :
  is_success it = false ->
  exists added,
    snd (loop_body p it st l) = l ++ added
    /\ existsb is_send added = false.
Proof.
  unfold is_success. exec_pass. split_cases.
  all: try discriminate.
  all: intros _; added_actions; repeat split.
Qed.

(** How a pass exits: a [fail_json] of the loop hands over the lines
    captured so far, and the only exceptions let out are those that are
    no [WebSocketException]. *)
Lemma exec_pass_failure (it : iteration) (st : state) (l : list action) :
  match fst (fst (loop_body p it st l)) with
  | inr (SystemExit f) =>
      fail_output f = Some (output_lines st)
      /\ output_lines (snd (fst (loop_body p it st l))) = output_lines st
  | inr (Lib e) =>
      (exists t, e = OtherException t)
      /\ output_lines (snd (fst (loop_body p it st l))) = output_lines st
  | inl _ => True
  end.
Proof.
  exec_pass. split_cases.
  all: cbn [fst snd output_lines append_output set_exit_code set_session_id
            set_session_ready set_command_sent fail_output].
  all: try exact I.
  all: try (split; [reflexivity|reflexivity]).
  all: try (split; [eexists; reflexivity|reflexivity]).
Qed.

(** A pass returns only on a [terminal_close] received in time. *)
Lemma exec_pass_return (it : iteration) (st : state) (l : list action) :
  fst (fst (loop_body p it st l)) = inl Return ->
  in_time p it
  /\ exists msg_data,
       recv it = frame_of msg_data
       /\ msg_type msg_data = Str (lit "terminal_close")
       /\ loop_body p it st l =
          (inl Return,
           set_exit_code (get msg_data (lit "exit_code") (Int 0)) st,
           l ++ [WsRecv; WsClose; Sleep 100]).
Proof.
  unfold in_time, frame_of.
  assert (Hbody : forall d, msg_type d = Str (lit "terminal_close") ->
            in_time p it -> recv it = Frame (Parsed (Obj d)) ->
            loop_body p it st l =
            (inl Return, set_exit_code (get d (lit "exit_code") (Int 0)) st,
             l ++ [WsRecv; WsClose; Sleep 100])).
  { intros d Hty Ht Hr. exact (exec_body_close p it d st l Ht Hr Hty). }
  revert Hbody. unfold in_time. exec_pass. split_cases.
  all: cbn [fst snd]; intros Hbody H; try discriminate.
  split; [reflexivity|]. eexists. split; [reflexivity|].
  match goal with E : eq_str _ (lit "terminal_close") = true |- _ =>
    apply eq_str_true in E; split; [exact E|];
    rewrite <- ?app_assoc; reflexivity
  end.
Qed.

(** What a pass keeps: the exit code is set only by the pass that
    returns, a session that is ready stays ready, and the command is
    sent only in a session that is ready. *)
Lemma exec_pass_state (it : iteration) (st : state) (l : list action) :
  (fst (fst (loop_body p it st l)) <> inl Return ->
   exit_code (snd (fst (loop_body p it st l))) = exit_code st)
  /\ (session_ready st = true ->
      session_ready (snd (fst (loop_body p it st l))) = true)
  /\ ((command_sent st = true -> session_ready st = true) ->
      command_sent (snd (fst (loop_body p it st l))) = true ->
      session_ready (snd (fst (loop_body p it st l))) = true).
Proof.
  exec_pass. split_cases.
  all: cbn [fst snd exit_code session_ready command_sent append_output
            set_exit_code set_session_id set_session_ready set_command_sent].
  all: intuition congruence.
Qed.

End ExecPassFacts.

Section StackPassFacts.
Context {rt : Runtime}.
Import Stack.

Variable p : params.

(** A pass adds to the captured output and takes nothing away. *)
Lemma stack_pass_lines (it : iteration) (st : state) (l : list action) :
  exists lines,
    output_lines (snd (fst (loop_body p it st l))) = output_lines st ++ lines.
Proof.
  stack_pass. split_cases.
  all: cbn [fst snd output_lines append_output set_exit_code set_success].
  all: try (exists []; symmetry; apply app_nil_r).
  all: eexists; reflexivity.
Qed.

(** What a pass adds to the log: nothing is sent and no connection is
    opened; the connection is closed once when the pass returns or exits
    through [fail_json], and not at all when it continues or lets an
    exception out. *)
Lemma stack_pass_log (it : iteration) (st : state) (l : list action) :
  exists added,
    snd (loop_body p it st l) = l ++ added
    /\ existsb is_connect added = false
    /\ existsb is_post added = false
    /\ existsb is_send added = false
    /\ count is_close added =
       match fst (fst (loop_body p it st l)) with
       | inl Continue => 0
       | inl Return => 1
       | inr (SystemExit _) => 1
       | inr (Lib _) => 0
       end.
Proof.
  stack_pass. split_cases.
  all: added_actions; repeat split.
Qed.

(** How a pass exits: a [fail_json] of the loop hands over the lines
    captured so far and the operation identifier, and the only exceptions
    let out are those that are no [WebSocketException]. *)
Lemma stack_pass_failure (it : iteration) (st : state) (l : list action) :
  match fst (fst (loop_body p it st l)) with
  | inr (SystemExit f) =>
      fail_output f = Some (output_lines st)
      /\ fail_operation_id f = Some (operation_id st)
      /\ snd (fst (loop_body p it st l)) = st
  | inr (Lib e) =>
      (exists t, e = OtherException t)
      /\ snd (fst (loop_body p it st l)) = st
  | inl _ => True
  end.
Proof.
  stack_pass. split_cases.
  all: cbn [fst snd output_lines operation_id fail_output fail_operation_id].
  all: try exact I.
  all: try (repeat split; reflexivity).
  all: try (split; [eexists; reflexivity|reflexivity]).
Qed.

(** A pass returns only on a [complete] received in time. *)
Lemma stack_pass_return (it : iteration) (st : state) (l : list action) :
  fst (fst (loop_body p it st l)) = inl Return ->
  exists msg_data, brings p it "complete" msg_data.
Proof.
  unfold brings, in_time, frame_of. stack_pass. split_cases.
  all: cbn [fst snd]; intros H; try discriminate.
  eexists. split; [reflexivity|]. split; [reflexivity|].
  match goal with E : eq_str _ (lit "complete") = true |- _ =>
    apply eq_str_true in E; exact E
  end.
Qed.

(** What a pass keeps: the operation identifier, and, unless it
    returns, the success flag and the exit code. *)
Lemma stack_pass_state (it : iteration) (st : state) (l : list action) :
  operation_id (snd (fst (loop_body p it st l))) = operation_id st
  /\ (fst (fst (loop_body p it st l)) <> inl Return ->
      success (snd (fst (loop_body p it st l))) = success st
      /\ exit_code (snd (fst (loop_body p it st l))) = exit_code st).
Proof.
  stack_pass. split_cases.
  all: cbn [fst snd operation_id success exit_code append_output
            set_exit_code set_success].
  all: intuition congruence.
Qed.

End StackPassFacts.

(** ** What a receive loop can do *)

Lemma count_app (kind : action -> bool) (a b : list action) :
  count kind (a ++ b) = count kind a + count kind b.
Proof. unfold count. rewrite filter_app, length_app. reflexivity. Qed.

Section Loops.
Context {S I : Type}.
Variable body : I -> io S control.

(** A loop that has ended has a last pass, which did not continue, after
    passes that all continued. *)
Lemma while_true_end (script : list I) (s : S) (l : list action) :
  fst (fst (while_true body script s l)) <> Starved ->
  exists pre it post s0 l0,
    script = pre ++ it :: post
    /\ while_true body pre s l = (Starved, s0, l0)
    /\ fst (fst (body it s0 l0)) <> inl Continue
    /\ while_true body script s l =
       (match fst (fst (body it s0 l0)) with
        | inl Continue => Starved
        | inl Return => Done
        | inr e => Raised e
        end, snd (fst (body it s0 l0)), snd (body it s0 l0)).
Proof.
  revert s l. induction script as [|it script IH]; intros s l;
    cbn [while_true].
  - intros H. exfalso. apply H. reflexivity.
  - destruct (body it s l) as [[[[]|e] s1] l1] eqn:E.
    + intros H. destruct (IH s1 l1 H)
        as [pre [it' [post [s0 [l0 [Hs [Hpre [Hlast Hall]]]]]]]].
      exists (it :: pre), it', post, s0, l0. repeat split.
      * rewrite Hs. reflexivity.
      * cbn [while_true]. rewrite E. exact Hpre.
      * exact Hlast.
      * exact Hall.
    + intros _. exists [], it, script, s, l. rewrite E. cbn [fst snd].
      repeat split; discriminate.
    + intros _. exists [], it, script, s, l. rewrite E. cbn [fst snd].
      repeat split; discriminate.
Qed.

(** What every pass keeps, the loop keeps. *)
Lemma while_true_keeps (R : S -> S -> Prop) :
  (forall s, R s s) ->
  (forall s1 s2 s3, R s1 s2 -> R s2 s3 -> R s1 s3) ->
  (forall it s l, R s (snd (fst (body it s l)))) ->
  forall script s l, R s (snd (fst (while_true body script s l))).
Proof.
  intros Hrefl Htrans Hpass. induction script as [|it script IH];
    intros s l; cbn [while_true].
  - apply Hrefl.
  - pose proof (Hpass it s l) as H.
    destruct (body it s l) as [[[[]|e] s1] l1]; cbn [fst snd] in *.
    + exact (Htrans _ _ _ H (IH s1 l1)).
    + exact H.
    + exact H.
Qed.

(** The log of a loop whose passes open nothing and close as they end:
    nothing is opened, and the connection is closed once if the loop
    returns or exits through [fail_json], and not at all otherwise. *)
Lemma while_true_log (script : list I) :
  (forall it s l, exists added,
      snd (body it s l) = l ++ added
      /\ existsb is_connect added = false
      /\ existsb is_post added = false
      /\ count is_close added =
         match fst (fst (body it s l)) with
         | inl Continue => 0
         | inl Return => 1
         | inr (SystemExit _) => 1
         | inr (Lib _) => 0
         end) ->
  forall s l, exists added,
    snd (while_true body script s l) = l ++ added
    /\ existsb is_connect added = false
    /\ existsb is_post added = false
    /\ count is_close added =
       match fst (fst (while_true body script s l)) with
       | Starved => 0
       | Done => 1
       | Raised (SystemExit _) => 1
       | Raised (Lib _) => 0
       end.
Proof.
  intros Hpass. induction script as [|it script IH]; intros s l;
    cbn [while_true].
  - exists []. rewrite app_nil_r. repeat split.
  - destruct (Hpass it s l) as [added [Hl [Hc [Hp Hn]]]].
    destruct (body it s l) as [[[[]|e] s1] l1]; cbn [fst snd] in *.
    + destruct (IH s1 l1) as [more [Hl' [Hc' [Hp' Hn']]]].
      exists (added ++ more).
      rewrite !existsb_app, count_app, Hc, Hp, Hc', Hp', Hn, Hn'.
      repeat split. rewrite Hl', Hl, app_assoc. reflexivity.
    + exists added. repeat split; assumption.
    + exists added. repeat split; assumption.
Qed.

End Loops.

(** ** Sessions of the exec client *)

Section ExecSessionFacts.
Context {rt : Runtime}.
Import Exec.

(** [execute_command] by what the opening calls do. *)
Lemma exec_command_cases (p : params) (w : peer) :
  execute_command p w =
  match connect w, send_start w with
  | Some e, _ => (Exited (connect_failed e), [connecting p])
  | None, Some e =>
      (Exited (connect_failed e), [connecting p; WsSend (start_msg p)])
  | None, None =>
      finish (while_true (loop_body p) (iterations w) init
                [connecting p; WsSend (start_msg p)])
  end.
Proof.
  unfold execute_command, opening, bind, call.
  destruct (connect w) as [e|]; [reflexivity|].
  destruct (send_start w) as [e|]; reflexivity.
Qed.

(** A session in its loop got there through both opening calls. *)
Lemma exec_running_opened (p : params) (w : peer) (pre : list iteration)
    (st : state) (l : list action) :
  running p w pre st l ->
  connect w = None /\ send_start w = None
  /\ while_true (loop_body p) pre init [connecting p; WsSend (start_msg p)]
     = (Starved, st, l).
Proof.
  unfold running. rewrite exec_command_cases.
  cbn [with_iterations connect send_start iterations].
  destruct (connect w); [discriminate|].
  destruct (send_start w); [discriminate|].
  destruct (while_true (loop_body p) pre init
              [connecting p; WsSend (start_msg p)]) as [[[|[e|f]|] s0] l0];
    cbn [finish]; try discriminate.
  intros H. injection H as -> ->. repeat split.
Qed.

(** The pass after a running prefix decides, when it does not continue. *)
Lemma exec_last_pass (p : params) (w : peer) (pre post : list iteration)
    (it : iteration) (st : state) (l : list action) :
  iterations w = pre ++ it :: post ->
  running p w pre st l ->
  fst (fst (loop_body p it st l)) <> inl Continue ->
  execute_command p w =
  finish (match fst (fst (loop_body p it st l)) with
          | inl Continue => Starved
          | inl Return => Done
          | inr e => Raised e
          end, snd (fst (loop_body p it st l)), snd (loop_body p it st l)).
Proof.
  intros Hw Hrun Hlast.
  rewrite (exec_resume p w pre (it :: post) st l Hw Hrun).
  cbn [while_true].
  destruct (loop_body p it st l) as [[[[]|e] s1] l1]; cbn [fst snd] in *;
    [contradiction|reflexivity|reflexivity].
Qed.

Lemma exec_lets_out (p : params) (w : peer) (pre post : list iteration)
    (it : iteration) (st st' : state) (l l' : list action) (e : lib_error) :
  iterations w = pre ++ it :: post ->
  running p w pre st l ->
  loop_body p it st l = (inr (Lib e), st', l') ->
  execute p w = (Exited (connect_failed e), l').
Proof.
  intros Hw Hrun Hbody. unfold execute.
  rewrite (exec_last_pass p w pre post it st l Hw Hrun);
    rewrite Hbody; cbn [fst snd finish]; [reflexivity|discriminate].
Qed.

Lemma exec_exits (p : params) (w : peer) (pre post : list iteration)
    (it : iteration) (st st' : state) (l l' : list action) (f : failure) :
  iterations w = pre ++ it :: post ->
  running p w pre st l ->
  loop_body p it st l = (inr (SystemExit f), st', l') ->
  execute p w = (Exited f, l').
Proof.
  intros Hw Hrun Hbody. unfold execute.
  rewrite (exec_last_pass p w pre post it st l Hw Hrun);
    rewrite Hbody; cbn [fst snd finish]; [reflexivity|discriminate].
Qed.

End ExecSessionFacts.

(** ** Sessions of the stack client *)

Section StackSessionFacts.
Context {rt : Runtime}.
Import Stack.

(** [execute] by what the request and the opening call do. *)
Lemma stack_execute_cases (p : params) (w : peer) :
  execute p w =
  match post w with
  | InvalidURL e => (Uncaught e, [])
  | Response (Parsed (Obj body)) =>
      if truthy (get body (lit "operationId") Null) then
        match connect w with
        | Some e =>
            (Exited (connect_failed e (get body (lit "operationId") Null)),
             [requesting p;
              connecting p (get body (lit "operationId") Null)])
        | None =>
            conclude p
              (finish
                 (while_true (loop_body p) (iterations w)
                    (set_operation_id (get body (lit "operationId") Null)
                       init)
                    [requesting p;
                     connecting p (get body (lit "operationId") Null)]))
        end
      else (Exited (just (lit "No operation ID returned from server")),
            [requesting p])
  | Response (Parsed v) =>
      (Exited (just (lit "Unexpected error starting operation: "
                     ++ attribute_error v (lit "get"))), [requesting p])
  | Response (Malformed e) =>
      (Exited (just (lit "Unexpected error starting operation: " ++ e)),
       [requesting p])
  | HTTPError code NoBody =>
      (Exited {| msg := lit "Failed to start operation: HTTP "
                        ++ Text.of_Z code;
                 fail_output := None; fail_operation_id := None;
                 fail_details := Some [] |}, [requesting p])
  | HTTPError code (Body text) =>
      (Exited {| msg := lit "Failed to start operation: HTTP "
                        ++ Text.of_Z code;
                 fail_output := None; fail_operation_id := None;
                 fail_details := Some text |}, [requesting p])
  | HTTPError code (Undecodable e) => (Uncaught e, [requesting p])
  | URLError e =>
      (Exited (just (lit "Failed to connect to Berth server: " ++ e)),
       [requesting p])
  | InvalidHeader =>
      (Exited (just (lit "Unexpected error starting operation: "
                     ++ header_error (lit "Bearer " ++ api_key p))),
       [requesting p])
  | HttpException e =>
      (Exited (just (lit "Unexpected error starting operation: " ++ e)),
       [requesting p])
  end.
Proof.
  unfold execute, start_operation, bind, perform, call, modify, read.
  destruct (post w) as [e|[e|v]|code [|text|e]|e| |e]; try reflexivity.
  destruct v as [|b|n|f|s|items|body]; try reflexivity.
  cbn [operation_id set_operation_id].
  destruct (truthy (get body (lit "operationId") Null)); [|reflexivity].
  cbn [negb ret]. unfold stream_operation, opening, call.
  destruct (connect w); reflexivity.
Qed.

(** A session in its loop got there through an accepted request and the
    opening call. *)
Lemma stack_running_opened (p : params) (w : peer) (pre : list iteration)
    (st : state) (l : list action) :
  running p w pre st l ->
  exists id,
    accepted w id
    /\ while_true (loop_body p) pre (set_operation_id id init)
         [requesting p; connecting p id] = (Starved, st, l).
Proof.
  unfold running. rewrite stack_execute_cases.
  cbn [with_iterations post connect iterations].
  destruct (post w) as [e0|[e|v]|code [|text|e]|e| |e] eqn:Hpost;
    try discriminate.
  destruct v as [|b|n|f|s|items|body]; try discriminate.
  destruct (truthy (get body (lit "operationId") Null)) eqn:Hid;
    [|discriminate].
  destruct (connect w) eqn:Hc; [discriminate|].
  destruct (while_true (loop_body p) pre
              (set_operation_id (get body (lit "operationId") Null) init)
              [requesting p;
               connecting p (get body (lit "operationId") Null)])
    as [[[|[e|f]|] s0] l0] eqn:Ew; cbn [finish conclude]; try discriminate.
  intros H. injection H as <- <-.
  exists (get body (lit "operationId") Null). split; [|exact Ew].
  split; [exists body; split; [exact Hpost|reflexivity]|].
  split; [exact Hid|exact Hc].
Qed.

(** The pass after a running prefix decides, when it does not continue. *)
Lemma stack_last_pass (p : params) (w : peer) (pre post : list iteration)
    (it : iteration) (st : state) (l : list action) :
  iterations w = pre ++ it :: post ->
  running p w pre st l ->
  fst (fst (loop_body p it st l)) <> inl Continue ->
  execute p w =
  conclude p
    (finish (match fst (fst (loop_body p it st l)) with
             | inl Continue => Starved
             | inl Return => Done
             | inr e => Raised e
             end, snd (fst (loop_body p it st l)),
             snd (loop_body p it st l))).
Proof.
  intros Hw Hrun Hlast.
  rewrite (stack_resume p w pre (it :: post) st l Hw Hrun).
  cbn [while_true].
  destruct (loop_body p it st l) as [[[[]|e] s1] l1]; cbn [fst snd] in *;
    [contradiction|reflexivity|reflexivity].
Qed.

Lemma stack_lets_out (p : params) (w : peer) (pre post : list iteration)
    (it : iteration) (st st' : state) (l l' : list action) (e : lib_error) :
  iterations w = pre ++ it :: post ->
  running p w pre st l ->
  loop_body p it st l = (inr (Lib e), st', l') ->
  execute p w = (Exited (connect_failed e (operation_id st')), l').
Proof.
  intros Hw Hrun Hbody.
  rewrite (stack_last_pass p w pre post it st l Hw Hrun);
    rewrite Hbody; cbn [fst snd finish conclude]; [reflexivity|discriminate].
Qed.

Lemma stack_exits (p : params) (w : peer) (pre post : list iteration)
    (it : iteration) (st st' : state) (l l' : list action) (f : failure) :
  iterations w = pre ++ it :: post ->
  running p w pre st l ->
  loop_body p it st l = (inr (SystemExit f), st', l') ->
  execute p w = (Exited f, l').
Proof.
  intros Hw Hrun Hbody.
  rewrite (stack_last_pass p w pre post it st l Hw Hrun);
    rewrite Hbody; cbn [fst snd finish conclude]; [reflexivity|discriminate].
Qed.

End StackSessionFacts.

(** ** Frames that are not messages, and exceptions *)

Section Frames.
Context {rt : Runtime}.

Lemma exec_body_lets_out (p : Exec.params) (it : Exec.iteration)
    (st : Exec.state) (l : list action) :
  Exec.in_time p it ->
  (forall e, Exec.recv it = Frame (Malformed e) ->
     Exec.loop_body p it st l =
     (inr (Lib (OtherException e)), st, l ++ [WsRecv]))
  /\ (forall v, Exec.recv it = Frame (Parsed v) -> (forall d, v <> Obj d) ->
        Exec.loop_body p it st l =
        (inr (Lib (OtherException (attribute_error v (lit "get")))), st,
         l ++ [WsRecv]))
  /\ (forall e, Exec.recv it = RecvRaises (OtherException e) ->
        Exec.loop_body p it st l =
        (inr (Lib (OtherException e)), st, l ++ [WsRecv]))
  /\ (forall e, Exec.recv it = RecvRaises (WebSocketException e) ->
        Exec.loop_body p it st l =
        (inr (SystemExit
           {| msg := lit "WebSocket error: " ++ e;
              fail_output := Some (Exec.output_lines st);
              fail_operation_id := None; fail_details := None |}),
         st, l ++ [WsRecv; WsClose]))
  /\ (forall d e, Exec.recv it = Exec.frame_of d ->
        msg_type d = Str (lit "terminal_output") ->
        Exec.session_ready st = true ->
        truthy (get d (lit "output") (Str [])) = true ->
        b64decode_utf8 (get d (lit "output") (Str [])) = inr e ->
        Exec.loop_body p it st l =
        (inr (Lib (OtherException e)), st, l ++ [WsRecv])).
Proof.
  intros Ht. repeat split.
  - intros e Hr. rewrite (exec_body_frame p it _ st l Ht Hr). reflexivity.
  - intros v Hr Hv. rewrite (exec_body_frame p it _ st l Ht Hr).
    destruct v; try reflexivity. exfalso. exact (Hv _ eq_refl).
  - intros e Hr. unfold Exec.loop_body, bind, try_except, ws_recv.
    rewrite Ht, Hr. reflexivity.
  - intros e Hr. unfold Exec.loop_body, bind, try_except, ws_recv.
    rewrite Ht, Hr. cbn. rewrite <- app_assoc. reflexivity.
  - intros d e Hr Hty Hready Htrue Hdec.
    rewrite (exec_body_frame p it _ st l Ht Hr),
      (exec_dispatch_output p it d Hty).
    unfold try_except, Exec.on_terminal_output, bind, read.
    rewrite Hready, Htrue, Hdec. reflexivity.
Qed.

Lemma stack_body_lets_out (p : Stack.params) (it : Stack.iteration)
    (st : Stack.state) (l : list action) :
  Stack.in_time p it ->
  (forall e, Stack.recv it = Frame (Malformed e) ->
     Stack.loop_body p it st l =
     (inr (Lib (OtherException e)), st, l ++ [WsRecv]))
  /\ (forall v, Stack.recv it = Frame (Parsed v) -> (forall d, v <> Obj d) ->
        Stack.loop_body p it st l =
        (inr (Lib (OtherException (attribute_error v (lit "get")))), st,
         l ++ [WsRecv]))
  /\ (forall e, Stack.recv it = RecvRaises (OtherException e) ->
        Stack.loop_body p it st l =
        (inr (Lib (OtherException e)), st, l ++ [WsRecv]))
  /\ (forall e, Stack.recv it = RecvRaises (WebSocketException e) ->
        Stack.loop_body p it st l =
        (inr (SystemExit
           {| msg := lit "WebSocket error: " ++ e;
              fail_output := Some (Stack.output_lines st);
              fail_operation_id := Some (Stack.operation_id st);
              fail_details := None |}),
         st, l ++ [WsRecv; WsClose]))
  /\ (forall d, Stack.recv it = Stack.frame_of d ->
        msg_type d = Str (lit "stdout") \/ msg_type d = Str (lit "stderr") ->
        truthy (get d (lit "data") (Str [])) = true ->
        (forall text, get d (lit "data") (Str []) <> Str text) ->
        Stack.loop_body p it st l =
        (inr (Lib (OtherException
                     (attribute_error (get d (lit "data") (Str []))
                        (lit "rstrip")))), st, l ++ [WsRecv])).
Proof.
  intros Ht. repeat split.
  - intros e Hr. rewrite (stack_body_frame p it _ st l Ht Hr). reflexivity.
  - intros v Hr Hv. rewrite (stack_body_frame p it _ st l Ht Hr).
    destruct v; try reflexivity. exfalso. exact (Hv _ eq_refl).
  - intros e Hr. unfold Stack.loop_body, bind, try_except, ws_recv.
    rewrite Ht, Hr. reflexivity.
  - intros e Hr. unfold Stack.loop_body, bind, try_except, ws_recv.
    rewrite Ht, Hr. cbn. rewrite <- app_assoc. reflexivity.
  - intros d Hr Hty Htrue Htext.
    rewrite (stack_body_output p it d st l Ht Hr Hty).
    unfold try_except, Stack.on_output. rewrite Htrue.
    destruct (get d (lit "data") (Str [])); try reflexivity.
    exfalso. exact (Htext _ eq_refl).
Qed.

(** X4.  A frame that is not a JSON object, a payload that does not
    decode, and any exception of [ws.recv()] that is no
    [WebSocketException] end the session through the outer handler: the
    client fails with [Failed to connect to ...] and the text of the
    exception, hands over none of the lines it has captured, and leaves
    the connection open.  So does, in the stack client, a [stdout] or
    [stderr] message whose data is not text. *)
Theorem unhandled_exception_drops_output :
  (forall (p : Exec.params) w pre post it st l,
     Exec.iterations w = pre ++ it :: post ->
     Exec.running p w pre st l ->
     Exec.in_time p it ->
     (forall e, Exec.recv it = Frame (Malformed e) ->
        Exec.execute p w =
        (Exited (Exec.connect_failed (OtherException e)), l ++ [WsRecv]))
     /\ (forall v, Exec.recv it = Frame (Parsed v) -> (forall d, v <> Obj d) ->
           Exec.execute p w =
           (Exited (Exec.connect_failed
                      (OtherException (attribute_error v (lit "get")))),
            l ++ [WsRecv]))
     /\ (forall e, Exec.recv it = RecvRaises (OtherException e) ->
           Exec.execute p w =
           (Exited (Exec.connect_failed (OtherException e)), l ++ [WsRecv]))
     /\ (forall d e, Exec.recv it = Exec.frame_of d ->
           msg_type d = Str (lit "terminal_output") ->
           Exec.session_ready st = true ->
           truthy (get d (lit "output") (Str [])) = true ->
           b64decode_utf8 (get d (lit "output") (Str [])) = inr e ->
           Exec.execute p w =
           (Exited (Exec.connect_failed (OtherException e)), l ++ [WsRecv])))
  /\ (forall (p : Stack.params) w pre post it st l,
        Stack.iterations w = pre ++ it :: post ->
        Stack.running p w pre st l ->
        Stack.in_time p it ->
        (forall e, Stack.recv it = Frame (Malformed e) ->
           Stack.execute p w =
           (Exited (Stack.connect_failed (OtherException e)
                      (Stack.operation_id st)), l ++ [WsRecv]))
        /\ (forall v, Stack.recv it = Frame (Parsed v) ->
              (forall d, v <> Obj d) ->
              Stack.execute p w =
              (Exited (Stack.connect_failed
                         (OtherException (attribute_error v (lit "get")))
                         (Stack.operation_id st)), l ++ [WsRecv]))
        /\ (forall e, Stack.recv it = RecvRaises (OtherException e) ->
              Stack.execute p w =
              (Exited (Stack.connect_failed (OtherException e)
                         (Stack.operation_id st)), l ++ [WsRecv]))
        /\ (forall d, Stack.recv it = Stack.frame_of d ->
              msg_type d = Str (lit "stdout")
              \/ msg_type d = Str (lit "stderr") ->
              truthy (get d (lit "data") (Str [])) = true ->
              (forall text, get d (lit "data") (Str []) <> Str text) ->
              Stack.execute p w =
              (Exited (Stack.connect_failed
                         (OtherException
                            (attribute_error (get d (lit "data") (Str []))
                               (lit "rstrip")))
                         (Stack.operation_id st)), l ++ [WsRecv]))).
Proof.
  split.
  - intros p w pre post it st l Hw Hrun Ht.
    destruct (exec_body_lets_out p it st l Ht) as [H1 [H2 [H3 [_ H5]]]].
    repeat split.
    + intros e Hr.
      exact (exec_lets_out p w pre post it st st l _ _ Hw Hrun (H1 e Hr)).
    + intros v Hr Hv.
      exact (exec_lets_out p w pre post it st st l _ _ Hw Hrun (H2 v Hr Hv)).
    + intros e Hr.
      exact (exec_lets_out p w pre post it st st l _ _ Hw Hrun (H3 e Hr)).
    + intros d e Hr Hty Hready Htrue Hdec.
      exact (exec_lets_out p w pre post it st st l _ _ Hw Hrun
               (H5 d e Hr Hty Hready Htrue Hdec)).
  - intros p w pre post it st l Hw Hrun Ht.
    destruct (stack_body_lets_out p it st l Ht) as [H1 [H2 [H3 [_ H5]]]].
    repeat split.
    + intros e Hr.
      exact (stack_lets_out p w pre post it st st l _ _ Hw Hrun (H1 e Hr)).
    + intros v Hr Hv.
      exact (stack_lets_out p w pre post it st st l _ _ Hw Hrun
               (H2 v Hr Hv)).
    + intros e Hr.
      exact (stack_lets_out p w pre post it st st l _ _ Hw Hrun (H3 e Hr)).
    + intros d Hr Hty Htrue Htext.
      exact (stack_lets_out p w pre post it st st l _ _ Hw Hrun
               (H5 d Hr Hty Htrue Htext)).
Qed.

(** X5.  A [WebSocketException] of [ws.recv()] other than a timeout ends
    the session: the connection is closed and the client fails with
    [WebSocket error: ] and the text of the exception, handing over the
    lines captured so far (and, in the stack client, the operation
    identifier). *)
Theorem websocket_exception_ends_session :
  (forall (p : Exec.params) w pre post it e st l,
     Exec.iterations w = pre ++ it :: post ->
     Exec.running p w pre st l ->
     Exec.in_time p it ->
     Exec.recv it = RecvRaises (WebSocketException e) ->
     Exec.execute p w =
     (Exited {| msg := lit "WebSocket error: " ++ e;
                fail_output := Some (Exec.output_lines st);
                fail_operation_id := None; fail_details := None |},
      l ++ [WsRecv; WsClose]))
  /\ (forall (p : Stack.params) w pre post it e st l,
        Stack.iterations w = pre ++ it :: post ->
        Stack.running p w pre st l ->
        Stack.in_time p it ->
        Stack.recv it = RecvRaises (WebSocketException e) ->
        Stack.execute p w =
        (Exited {| msg := lit "WebSocket error: " ++ e;
                   fail_output := Some (Stack.output_lines st);
                   fail_operation_id := Some (Stack.operation_id st);
                   fail_details := None |},
         l ++ [WsRecv; WsClose])).
Proof.
  split.
  - intros p w pre post it e st l Hw Hrun Ht Hr.
    destruct (exec_body_lets_out p it st l Ht) as [_ [_ [_ [H4 _]]]].
    exact (exec_exits p w pre post it st st l _ _ Hw Hrun (H4 e Hr)).
  - intros p w pre post it e st l Hw Hrun Ht Hr.
    destruct (stack_body_lets_out p it st l Ht) as [_ [_ [_ [H4 _]]]].
    exact (stack_exits p w pre post it st st l _ _ Hw Hrun (H4 e Hr)).
Qed.

End Frames.

(** ** Before the stream, and frames the loop passes over *)

Section Openings.
Context {rt : Runtime}.

(** X6.  When the connection cannot be opened, or the exec client's
    [terminal_start] cannot be sent, the client fails with
    [Failed to connect to ...] and the text of the exception, without
    output, and does nothing more: it receives nothing and does not
    close.  The stack client hands over the operation identifier it was
    given. *)
Theorem connection_failure :
  (forall (p : Exec.params) w e,
     Exec.connect w = Some e ->
     Exec.execute p w = (Exited (Exec.connect_failed e), [Exec.connecting p]))
  /\ (forall (p : Exec.params) w e,
        Exec.connect w = None -> Exec.send_start w = Some e ->
        Exec.execute p w =
        (Exited (Exec.connect_failed e),
         [Exec.connecting p; WsSend (Exec.start_msg p)]))
  /\ (forall (p : Stack.params) w body e,
        Stack.post w = Stack.Response (Parsed (Obj body)) ->
        truthy (get body (lit "operationId") Null) = true ->
        Stack.connect w = Some e ->
        Stack.execute p w =
        (Exited (Stack.connect_failed e (get body (lit "operationId") Null)),
         [Stack.requesting p;
          Stack.connecting p (get body (lit "operationId") Null)])).
Proof.
  repeat split.
  - intros p w e Hc. unfold Exec.execute.
    rewrite exec_command_cases, Hc. reflexivity.
  - intros p w e Hc Hs. unfold Exec.execute.
    rewrite exec_command_cases, Hc, Hs. reflexivity.
  - intros p w body e Hpost Hid Hc.
    rewrite stack_execute_cases, Hpost, Hid, Hc. reflexivity.
Qed.

(** X7.  Every way the request of the stack client can fail ends the
    invocation with no WebSocket opened.  When [Request] refuses the
    address, its [ValueError] leaves [execute] uncaught and [urlopen] is
    not called.  After the one call of [urlopen]: an HTTP error status
    gives [Failed to start operation: HTTP ] and the status, with the
    body of the response as [details] (the empty text when it has
    none), unless the body is not UTF-8: the [UnicodeDecodeError] is
    raised inside the [except] clause, leaves [execute] uncaught, and
    nothing is reported.  A URL error gives
    [Failed to connect to Berth server: ]; a refused header, any other
    exception, a body that is not JSON and a body that is no JSON object
    give [Unexpected error starting operation: ]. *)
Theorem start_operation_failure (p : Stack.params) (w : Stack.peer) :
  (forall e, Stack.post w = Stack.InvalidURL e ->
     Stack.execute p w = (Uncaught e, []))
  /\ (forall code error_body,
        Stack.post w = Stack.HTTPError code error_body ->
        Stack.execute p w =
        (match error_body with
         | Stack.NoBody =>
             Exited {| msg := lit "Failed to start operation: HTTP "
                              ++ Text.of_Z code;
                       fail_output := None; fail_operation_id := None;
                       fail_details := Some [] |}
         | Stack.Body text =>
             Exited {| msg := lit "Failed to start operation: HTTP "
                              ++ Text.of_Z code;
                       fail_output := None; fail_operation_id := None;
                       fail_details := Some text |}
         | Stack.Undecodable e => Uncaught e
         end, [Stack.requesting p]))
  /\ (forall e, Stack.post w = Stack.URLError e ->
        Stack.execute p w =
        (Exited (Stack.just (lit "Failed to connect to Berth server: " ++ e)),
         [Stack.requesting p]))
  /\ (Stack.post w = Stack.InvalidHeader ->
      Stack.execute p w =
      (Exited (Stack.just
                 (lit "Unexpected error starting operation: "
                  ++ header_error (lit "Bearer " ++ Stack.api_key p))),
       [Stack.requesting p]))
  /\ (forall e,
        Stack.post w = Stack.HttpException e
        \/ Stack.post w = Stack.Response (Malformed e) ->
        Stack.execute p w =
        (Exited (Stack.just
                   (lit "Unexpected error starting operation: " ++ e)),
         [Stack.requesting p]))
  /\ (forall v, Stack.post w = Stack.Response (Parsed v) ->
        (forall d, v <> Obj d) ->
        Stack.execute p w =
        (Exited (Stack.just
                   (lit "Unexpected error starting operation: "
                    ++ attribute_error v (lit "get"))),
         [Stack.requesting p])).
Proof.
  repeat split.
  - intros e H. rewrite stack_execute_cases, H. reflexivity.
  - intros code error_body H. rewrite stack_execute_cases, H.
    destruct error_body; reflexivity.
  - intros e H. rewrite stack_execute_cases, H. reflexivity.
  - intros H. rewrite stack_execute_cases, H. reflexivity.
  - intros e [H|H]; rewrite stack_execute_cases, H; reflexivity.
  - intros v H Hv. rewrite stack_execute_cases, H.
    destruct v; try reflexivity. exfalso. exact (Hv _ eq_refl).
Qed.

(** X8.  The loop passes over what it has no use for: an empty frame, a
    message whose type it does not know (or that has none), and, in the
    exec client, a [terminal_output] without payload.  The session goes
    on in the same state. *)
Theorem ignored_frames :
  (forall (p : Exec.params) w pre it st l,
     Exec.running p w pre st l ->
     Exec.in_time p it ->
     Exec.recv it = EmptyFrame
     \/ (exists d, Exec.recv it = Exec.frame_of d /\ Exec.unknown_type d)
     \/ (exists d, Exec.recv it = Exec.frame_of d
                   /\ msg_type d = Str (lit "terminal_output")
                   /\ truthy (get d (lit "output") (Str [])) = false) ->
     Exec.running p w (pre ++ [it]) st (l ++ [WsRecv]))
  /\ (forall (p : Stack.params) w pre it st l,
        Stack.running p w pre st l ->
        Stack.in_time p it ->
        Stack.recv it = EmptyFrame
        \/ (exists d, Stack.recv it = Stack.frame_of d
                      /\ Stack.unknown_type d) ->
        Stack.running p w (pre ++ [it]) st (l ++ [WsRecv])).
Proof.
  split.
  - intros p w pre it st l Hrun Ht H.
    apply (exec_running_step p w pre it st st l _ Hrun).
    destruct H as [Hr|[[d [Hr [H1 [H2 [H3 H4]]]]]|[d [Hr [Hty Hfalse]]]]].
    + exact (exec_body_empty p it st l Ht Hr).
    + rewrite (exec_body_frame p it _ st l Ht Hr).
      unfold Exec.dispatch. rewrite H1, H2, H3, H4. reflexivity.
    + rewrite (exec_body_frame p it _ st l Ht Hr),
        (exec_dispatch_output p it d Hty).
      unfold try_except, Exec.on_terminal_output, bind, read.
      rewrite Hfalse. destruct (Exec.session_ready st); reflexivity.
  - intros p w pre it st l Hrun Ht H.
    apply (stack_running_step p w pre it st st l _ Hrun).
    destruct H as [Hr|[d [Hr [H1 [H2 [H3 [H4 H5]]]]]]].
    + unfold Stack.loop_body, bind, try_except, ws_recv.
      rewrite Ht, Hr. reflexivity.
    + rewrite (stack_body_frame p it _ st l Ht Hr).
      unfold Stack.dispatch. rewrite H1, H2, H3, H4, H5. reflexivity.
Qed.

(** A message without type has none of the known types. *)
Lemma lacks_type_unknown (d : dict) :
  lacks d (lit "type") -> Exec.unknown_type d /\ Stack.unknown_type d.
Proof.
  intros H. unfold Exec.unknown_type, Stack.unknown_type, msg_type.
  rewrite (get_lacks _ _ _ H). repeat split.
Qed.

(** X9.  An [error] message that names no error is reported as
    [Unknown error]: the exec client fails with
    [Terminal error: Unknown error] when the message has neither
    [error] nor [context], the stack client with
    [Operation error: Unknown error] when it has no [data]. *)
Theorem error_frame_defaults :
  (forall (p : Exec.params) w pre post it d st l,
     Exec.iterations w = pre ++ it :: post ->
     Exec.running p w pre st l ->
     Exec.in_time p it -> Exec.recv it = Exec.frame_of d ->
     msg_type d = Str (lit "error") ->
     lacks d (lit "error") -> lacks d (lit "context") ->
     Exec.execute p w =
     (Exited {| msg := lit "Terminal error: Unknown error";
                fail_output := Some (Exec.output_lines st);
                fail_operation_id := None; fail_details := None |},
      l ++ [WsRecv; WsClose]))
  /\ (forall (p : Stack.params) w pre post it d st l,
        Stack.iterations w = pre ++ it :: post ->
        Stack.running p w pre st l ->
        Stack.brings p it "error" d ->
        lacks d (lit "data") ->
        Stack.execute p w =
        (Exited {| msg := lit "Operation error: Unknown error";
                   fail_output := Some (Stack.output_lines st);
                   fail_operation_id := Some (Stack.operation_id st);
                   fail_details := None |},
         l ++ [WsRecv; WsClose])).
Proof.
  split.
  - intros p w pre post it d st l Hw Hrun Ht Hr Hty He Hc.
    rewrite (exec_exits p w pre post it st st l _ _ Hw Hrun
               (exec_body_error p it d st l Ht Hr Hty)).
    unfold Exec.full_error.
    rewrite (get_lacks _ _ _ He), (get_lacks _ _ _ Hc). reflexivity.
  - intros p w pre post it d st l Hw Hrun [Ht [Hr Hty]] Hd.
    rewrite (stack_exits p w pre post it st st l _ _ Hw Hrun
               (stack_body_error p it d st l Ht Hr Hty)).
    rewrite (get_lacks _ _ _ Hd). reflexivity.
Qed.

End Openings.

(** ** What a whole session keeps *)

Lemma existsb_false_filter {A : Type} (f : A -> bool) (l : list A) :
  existsb f l = false -> filter f l = [].
Proof.
  induction l as [|a l IH]; cbn [existsb filter]; [reflexivity|].
  intros H. apply orb_false_iff in H as [Ha Hl]. rewrite Ha. exact (IH Hl).
Qed.

Lemma opens_nothing_verifies (l : list action) :
  existsb is_connect l = false -> existsb is_post l = false ->
  forallb verifies l = true.
Proof.
  induction l as [|a l IH]; cbn [existsb forallb]; [reflexivity|].
  intros Hc Hp. apply orb_false_iff in Hc as [Hc Hc'].
  apply orb_false_iff in Hp as [Hp Hp'].
  rewrite (IH Hc' Hp'), andb_true_r.
  destruct a; try reflexivity; discriminate.
Qed.

Section ExecInvariants.
Context {rt : Runtime}.
Import Exec.

Lemma exec_execute_report (p : params) (w : peer) :
  execute p w = (report (fst (execute_command p w)),
                 snd (execute_command p w)).
Proof.
  unfold execute. destruct (execute_command p w) as [[st|f|st|e] l];
    reflexivity.
Qed.

(** The loop adds to the captured output at most lines the filter lets
    through. *)
Lemma exec_loop_lines (p : params) (script : list iteration) (s : state)
    (l : list action) :
  exists lines,
    output_lines (snd (fst (while_true (loop_body p) script s l)))
    = output_lines s ++ lines
    /\ Forall kept_line lines.
Proof.
  apply (while_true_keeps (loop_body p)
           (fun s s' => exists lines,
              output_lines s' = output_lines s ++ lines
              /\ Forall kept_line lines)).
  - intros s0. exists []. rewrite app_nil_r. split; constructor.
  - intros s1 s2 s3 [a [Ha Hka]] [b [Hb Hkb]]. exists (a ++ b).
    rewrite Hb, Ha, app_assoc. split; [reflexivity|].
    apply Forall_app. split; assumption.
  - intros it s0 l0. apply exec_pass_lines.
Qed.

(** When the loop exits through [fail_json], the failure carries the
    lines of the final state. *)
Lemma exec_loop_failure (p : params) (script : list iteration) (s : state)
    (l : list action) (f : failure) :
  fst (fst (while_true (loop_body p) script s l)) = Raised (SystemExit f) ->
  fail_output f
  = Some (output_lines (snd (fst (while_true (loop_body p) script s l)))).
Proof.
  intros H.
  destruct (while_true_end (loop_body p) script s l)
    as [pre [it [post [s0 [l0 [_ [_ [_ Hall]]]]]]]].
  { rewrite H. discriminate. }
  rewrite Hall in H |- *. cbn [fst snd] in *.
  pose proof (exec_pass_failure p it s0 l0) as Hf.
  destruct (fst (fst (loop_body p it s0 l0))) as [[]|[e|f']];
    try discriminate.
  injection H as ->. destruct Hf as [Hf Hlines]. rewrite Hlines. exact Hf.
Qed.

(** The lines an invocation hands over are those of the state the loop
    ended in, unless it fails without naming any. *)
Lemma exec_finish_lines (p : params) (script : list iteration) (s : state)
    (l : list action) :
  lines_of (report (fst (finish (while_true (loop_body p) script s l))))
  = output_lines (snd (fst (while_true (loop_body p) script s l)))
  \/ exists f,
       report (fst (finish (while_true (loop_body p) script s l)))
       = Exited f /\ fail_output f = None.
Proof.
  pose proof (exec_loop_failure p script s l) as Hf.
  destruct (while_true (loop_body p) script s l) as [[[|[e|f]|] s1] l1];
    cbn [finish fst snd report lines_of result_of output] in *.
  - left. reflexivity.
  - right. eexists. split; reflexivity.
  - left. rewrite (Hf f eq_refl). reflexivity.
  - left. reflexivity.
Qed.

(** X10.  The captured output only grows.  What an invocation of the exec
    client hands over (in its result, in a failure, or what it holds
    while still receiving) begins with the lines it held at any earlier
    point of the session, unless it fails without handing over any
    output. *)
Theorem exec_output_only_grows (p : params) (w : peer)
    (pre post : list iteration) (st : state) (l : list action) :
  iterations w = pre ++ post ->
  running p w pre st l ->
  (exists more, lines_of (fst (execute p w)) = output_lines st ++ more)
  \/ (exists f, fst (execute p w) = Exited f /\ fail_output f = None).
Proof.
  intros Hw Hrun.
  rewrite exec_execute_report, (exec_resume p w pre post st l Hw Hrun).
  cbn [fst].
  destruct (exec_finish_lines p post st l) as [H|H]; [left|right; exact H].
  destruct (exec_loop_lines p post st l) as [more [Hmore _]].
  exists more. rewrite H. exact Hmore.
Qed.

(** X11.  Every line the exec client hands over, on every exit path, is
    not empty and does not begin with the prompt [/app #]. *)
Theorem exec_lines_pass_filter (p : params) (w : peer) :
  Forall kept_line (lines_of (fst (execute p w))).
Proof.
  rewrite exec_execute_report, exec_command_cases. cbn [fst].
  destruct (connect w); [constructor|].
  destruct (send_start w); [constructor|].
  destruct (exec_finish_lines p (iterations w) init
              [connecting p; WsSend (start_msg p)]) as [H|[f [H Hnone]]].
  - rewrite H.
    destruct (exec_loop_lines p (iterations w) init
                [connecting p; WsSend (start_msg p)]) as [lines [Hl Hk]].
    rewrite Hl. exact Hk.
  - rewrite H. cbn [lines_of]. rewrite Hnone. constructor.
Qed.

(** A returned result comes from a [terminal_close] received in a
    session that was still running. *)
Lemma exec_returned_inv (p : params) (w : peer) (r : result)
    (l : list action) :
  execute p w = (Returned r, l) ->
  exists pre it post st l0 msg_data,
    iterations w = pre ++ it :: post
    /\ running p w pre st l0
    /\ in_time p it
    /\ recv it = frame_of msg_data
    /\ msg_type msg_data = Str (lit "terminal_close")
    /\ r = result_of (set_exit_code
                        (get msg_data (lit "exit_code") (Int 0)) st)
    /\ l = l0 ++ [WsRecv; WsClose; Sleep 100].
Proof.
  rewrite exec_execute_report, exec_command_cases.
  destruct (connect w) eqn:Hc; [discriminate|].
  destruct (send_start w) eqn:Hs; [discriminate|].
  intros H.
  destruct (while_true_end (loop_body p) (iterations w) init
              [connecting p; WsSend (start_msg p)])
    as [pre [it [post [s0 [l0 [Hw [Hpre [_ Hall]]]]]]]].
  { intros E. revert H E.
    destruct (while_true (loop_body p) (iterations w) init
                [connecting p; WsSend (start_msg p)]) as [[[|[e|f]|] s1] l1];
      cbn [finish fst snd report]; discriminate. }
  rewrite Hall in H. cbn [fst snd] in H. revert H.
  pose proof (exec_pass_return p it s0 l0) as Hret.
  destruct (fst (fst (loop_body p it s0 l0))) as [[]|[e|f]] eqn:E;
    cbn [finish fst snd report]; try discriminate.
  destruct (Hret eq_refl) as [Ht [d [Hr [Hty Hbody]]]].
  rewrite Hbody. cbn [fst snd]. intros H. injection H as <- <-.
  exists pre, it, post, s0, l0, d. repeat split; try assumption.
  unfold running. rewrite exec_command_cases.
  cbn [with_iterations connect send_start iterations].
  rewrite Hc, Hs, Hpre. reflexivity.
Qed.

(** X12.  The exec client returns a result only when a [terminal_close]
    has been received, in time, in a session that was still running: the
    result is the one built from the state at that point and the exit
    code of that message (0 when it has none), and the last things done
    are the receive, the close and the pause. *)
Theorem exec_returns_only_on_close (p : params) (w : peer) (r : result)
    (l : list action) :
  execute p w = (Returned r, l) ->
  exists pre it post st l0 code,
    iterations w = pre ++ it :: post
    /\ running p w pre st l0
    /\ brings_close p it code
    /\ r = result_of (set_exit_code code st)
    /\ l = l0 ++ [WsRecv; WsClose; Sleep 100].
Proof.
  intros H.
  destruct (exec_returned_inv p w r l H)
    as [pre [it [post [st [l0 [d [Hw [Hrun [Ht [Hr [Hty [Hres Hl]]]]]]]]]]]].
  exists pre, it, post, st, l0, (get d (lit "exit_code") (Int 0)).
  repeat split; try assumption.
  exists d. repeat split; assumption.
Qed.

End ExecInvariants.

Section ExecLog.
Context {rt : Runtime}.
Import Exec.

Lemma exec_loop_log (p : params) (script : list iteration) (s : state)
    (l : list action) :
  exists added,
    snd (while_true (loop_body p) script s l) = l ++ added
    /\ existsb is_connect added = false
    /\ existsb is_post added = false
    /\ count is_close added =
       match fst (fst (while_true (loop_body p) script s l)) with
       | Starved => 0
       | Done => 1
       | Raised (SystemExit _) => 1
       | Raised (Lib _) => 0
       end.
Proof.
  apply while_true_log. intros it s0 l0. apply exec_pass_log.
Qed.

Lemma exec_loop_no_send (p : params) (script : list iteration) :
  forallb (fun it => negb (is_success it)) script = true ->
  forall s l, exists added,
    snd (while_true (loop_body p) script s l) = l ++ added
    /\ existsb is_send added = false.
Proof.
  induction script as [|it script IH]; intros Hall s l; cbn [while_true].
  - exists []. rewrite app_nil_r. split; reflexivity.
  - cbn [forallb] in Hall. apply andb_true_iff in Hall as [Hit Hall].
    apply negb_true_iff in Hit.
    destruct (exec_pass_no_send p it s l Hit) as [added [Hl Hs]].
    destruct (loop_body p it s l) as [[[[]|e] s1] l1]; cbn [snd] in *.
    + destruct (IH Hall s1 l1) as [more [Hl' Hs']].
      exists (added ++ more). rewrite existsb_app, Hs, Hs'.
      split; [|reflexivity]. rewrite Hl', Hl, app_assoc. reflexivity.
    + exists added. split; assumption.
    + exists added. split; assumption.
Qed.

(** X13.  Until a [success] message arrives the exec client sends
    nothing but the [terminal_start] message: over a peer that never
    sends [success], that message is all it sends, and it sends nothing
    if the connection could not be opened. *)
Theorem exec_sends_nothing_before_success (p : params) (w : peer) :
  forallb (fun it => negb (is_success it)) (iterations w) = true ->
  filter is_send (snd (execute p w)) =
  match connect w with
  | None => [WsSend (start_msg p)]
  | Some _ => []
  end.
Proof.
  intros Hall. rewrite exec_execute_report, exec_command_cases. cbn [snd].
  destruct (connect w); [reflexivity|].
  destruct (send_start w); [reflexivity|].
  destruct (exec_loop_no_send p (iterations w) Hall init
              [connecting p; WsSend (start_msg p)]) as [added [Hl Hs]].
  assert (Hsnd : forall r, snd (finish r) = snd r).
  { intros [[[|[e|f]|] s1] l1]; reflexivity. }
  rewrite Hsnd, Hl, filter_app, (existsb_false_filter _ _ Hs).
  reflexivity.
Qed.

Lemma exec_finish_log (r : loop_end * state * list action) :
  snd (finish r) = snd r.
Proof. destruct r as [[[|[e|f]|] s1] l1]; reflexivity. Qed.

(** The log of an invocation: what the opening calls did, then what the
    loop added. *)
Lemma exec_log_shape (p : params) (w : peer) :
  exists added,
    snd (execute p w) = connecting p :: added
    /\ existsb is_connect added = false
    /\ existsb is_post added = false
    /\ count is_close added =
       match fst (execute p w) with
       | Returned _ => 1
       | Pending _ | Uncaught _ => 0
       | Exited f => match fail_output f with Some _ => 1 | None => 0 end
       end
    /\ forall e, fst (execute p w) <> Uncaught e.
Proof.
  rewrite exec_execute_report, exec_command_cases. cbn [fst snd].
  destruct (connect w); [exists []; repeat split; discriminate|].
  destruct (send_start w);
    [exists [WsSend (start_msg p)]; repeat split; discriminate|].
  destruct (exec_loop_log p (iterations w) init
              [connecting p; WsSend (start_msg p)])
    as [added [Hl [Hc [Hp Hn]]]].
  pose proof (exec_loop_failure p (iterations w) init
                [connecting p; WsSend (start_msg p)]) as Hf.
  exists (WsSend (start_msg p) :: added).
  rewrite exec_finish_log, Hl. split; [reflexivity|].
  cbn [existsb is_connect is_post orb]. split; [exact Hc|].
  split; [exact Hp|].
  change (count is_close (WsSend (start_msg p) :: added))
    with (count is_close added).
  rewrite Hn.
  destruct (while_true (loop_body p) (iterations w) init
              [connecting p; WsSend (start_msg p)]) as [[[|[e|f]|] s1] l1];
    cbn [finish fst snd report fail_output connect_failed] in *;
    try (split; [reflexivity|discriminate]).
  rewrite (Hf f eq_refl). split; [reflexivity|discriminate].
Qed.

End ExecLog.

Section StackInvariants.
Context {rt : Runtime}.
Import Stack.

Lemma stack_conclude_report (p : params)
    (r : outcome state state * list action) :
  conclude p r = (report p (fst r), snd r).
Proof. destruct r as [[st|f|st|e] l]; reflexivity. Qed.

Lemma stack_finish_log (r : loop_end * state * list action) :
  snd (finish r) = snd r.
Proof. destruct r as [[[|[e|f]|] s1] l1]; reflexivity. Qed.

Lemma stack_loop_lines (p : params) (script : list iteration) (s : state)
    (l : list action) :
  exists lines,
    output_lines (snd (fst (while_true (loop_body p) script s l)))
    = output_lines s ++ lines.
Proof.
  apply (while_true_keeps (loop_body p)
           (fun s s' => exists lines,
              output_lines s' = output_lines s ++ lines)).
  - intros s0. exists []. rewrite app_nil_r. reflexivity.
  - intros s1 s2 s3 [a Ha] [b Hb]. exists (a ++ b).
    rewrite Hb, Ha, app_assoc. reflexivity.
  - intros it s0 l0. apply stack_pass_lines.
Qed.

Lemma stack_loop_keeps_id (p : params) (script : list iteration) (s : state)
    (l : list action) :
  operation_id (snd (fst (while_true (loop_body p) script s l)))
  = operation_id s.
Proof.
  apply (while_true_keeps (loop_body p)
           (fun s s' => operation_id s' = operation_id s)).
  - reflexivity.
  - intros s1 s2 s3 H1 H2. congruence.
  - intros it s0 l0. exact (proj1 (stack_pass_state p it s0 l0)).
Qed.

Lemma stack_loop_failure (p : params) (script : list iteration) (s : state)
    (l : list action) (f : failure) :
  fst (fst (while_true (loop_body p) script s l)) = Raised (SystemExit f) ->
  fail_output f
  = Some (output_lines (snd (fst (while_true (loop_body p) script s l))))
  /\ fail_operation_id f = Some (operation_id s).
Proof.
  intros H. rewrite <- (stack_loop_keeps_id p script s l).
  destruct (while_true_end (loop_body p) script s l)
    as [pre [it [post [s0 [l0 [_ [_ [_ Hall]]]]]]]].
  { rewrite H. discriminate. }
  rewrite Hall in H |- *. cbn [fst snd] in *.
  pose proof (stack_pass_failure p it s0 l0) as Hf.
  destruct (fst (fst (loop_body p it s0 l0))) as [[]|[e|f']];
    try discriminate.
  injection H as ->. destruct Hf as [Hf [Hid Hst]]. rewrite Hst.
  split; assumption.
Qed.

Lemma stack_finish_lines (p : params) (script : list iteration) (s : state)
    (l : list action) :
  lines_of (report p (fst (finish (while_true (loop_body p) script s l))))
  = output_lines (snd (fst (while_true (loop_body p) script s l)))
  \/ exists f,
       report p (fst (finish (while_true (loop_body p) script s l)))
       = Exited f /\ fail_output f = None.
Proof.
  pose proof (stack_loop_failure p script s l) as Hf.
  destruct (while_true (loop_body p) script s l) as [[[|[e|f]|] s1] l1];
    cbn [finish fst snd report lines_of result_of output] in *.
  - left. reflexivity.
  - right. eexists. split; reflexivity.
  - left. rewrite (proj1 (Hf f eq_refl)). reflexivity.
  - left. reflexivity.
Qed.

(** X14.  The captured output of the stack client only grows.  What an
    invocation hands over (in its result, in a failure, or what it holds
    while still receiving) begins with the lines it held at any earlier
    point of the session, unless it fails without handing over any
    output. *)
Theorem stack_output_only_grows (p : params) (w : peer)
    (pre post : list iteration) (st : state) (l : list action) :
  iterations w = pre ++ post ->
  running p w pre st l ->
  (exists more, lines_of (fst (execute p w)) = output_lines st ++ more)
  \/ (exists f, fst (execute p w) = Exited f /\ fail_output f = None).
Proof.
  intros Hw Hrun.
  rewrite (stack_resume p w pre post st l Hw Hrun), stack_conclude_report.
  cbn [fst].
  destruct (stack_finish_lines p post st l) as [H|H]; [left|right; exact H].
  destruct (stack_loop_lines p post st l) as [more Hmore].
  exists more. rewrite H. exact Hmore.
Qed.

(** A returned result comes from a [complete] received in a session
    that was still running. *)
Lemma stack_returned_inv (p : params) (w : peer) (r : result)
    (l : list action) :
  execute p w = (Returned r, l) ->
  exists pre it post st l0 msg_data,
    iterations w = pre ++ it :: post
    /\ running p w pre st l0
    /\ brings p it "complete" msg_data
    /\ r = result_of p
             (set_exit_code
                (get msg_data (lit "exitCode")
                   (if negb (truthy (get msg_data (lit "success")
                                       (Bool false)))
                    then Int 1 else Int 0))
                (set_success (get msg_data (lit "success") (Bool false))
                   st))
    /\ l = l0 ++ [WsRecv; WsClose].
Proof.
  intros H. pose proof H as Hexec. revert H.
  rewrite stack_execute_cases.
  destruct (post w) as [e0|[e|v]|code [|text|e]|e| |e] eqn:Hpost;
    try discriminate.
  destruct v as [|b|n|f|s|items|body]; try discriminate.
  destruct (truthy (get body (lit "operationId") Null)) eqn:Hid;
    [|discriminate].
  destruct (connect w) eqn:Hc; [discriminate|].
  rewrite stack_conclude_report. intros H.
  destruct (while_true_end (loop_body p) (iterations w)
              (set_operation_id (get body (lit "operationId") Null) init)
              [requesting p;
               connecting p (get body (lit "operationId") Null)])
    as [pre [it [post [s0 [l0 [Hw [Hpre [_ Hall]]]]]]]].
  { intros E. revert H E.
    destruct (while_true (loop_body p) (iterations w)
                (set_operation_id (get body (lit "operationId") Null) init)
                [requesting p;
                 connecting p (get body (lit "operationId") Null)])
      as [[[|[e|f]|] s1] l1];
      cbn [finish fst snd report]; discriminate. }
  rewrite Hall in H. cbn [fst snd] in H. revert H.
  pose proof (stack_pass_return p it s0 l0) as Hret.
  destruct (fst (fst (loop_body p it s0 l0))) as [[]|[e|f]] eqn:E;
    cbn [finish fst snd report]; try discriminate.
  destruct (Hret eq_refl) as [d Hd]. intros _.
  assert (Hrun : running p w pre s0 l0).
  { unfold running. rewrite stack_execute_cases.
    cbn [with_iterations Stack.post connect iterations].
    rewrite Hpost, Hid, Hc, Hpre. reflexivity. }
  pose proof (stack_complete_step p w pre post it d s0 l0 Hw Hrun Hd)
    as Hstep.
  rewrite Hexec in Hstep. injection Hstep as -> ->.
  exists pre, it, post, s0, l0, d. repeat split; try assumption;
    destruct Hd as [? [? ?]]; assumption.
Qed.

(** X15.  The stack client returns a result only when the request was
    accepted, the connection opened and a [complete] message received,
    in time, in a session that was still running; the result has the
    lines and the identifier of the state at that point, and [failed]
    is the negation of the success flag of that message. *)
Theorem stack_returns_only_on_complete (p : params) (w : peer) (r : result)
    (l : list action) :
  execute p w = (Returned r, l) ->
  exists pre it post st l0 msg_data,
    iterations w = pre ++ it :: post
    /\ running p w pre st l0
    /\ brings p it "complete" msg_data
    /\ output r = output_lines st
    /\ result_operation_id r = operation_id st
    /\ failed r = negb (truthy (get msg_data (lit "success") (Bool false)))
    /\ l = l0 ++ [WsRecv; WsClose].
Proof.
  intros H.
  destruct (stack_returned_inv p w r l H)
    as [pre [it [post [st [l0 [d [Hw [Hrun [Hd [Hres Hl]]]]]]]]]].
  exists pre, it, post, st, l0, d. rewrite Hres.
  destruct Hd as [Ht [Hr Hty]].
  repeat split; first [assumption|reflexivity].
Qed.

Lemma stack_loop_log (p : params) (script : list iteration) (s : state)
    (l : list action) :
  exists added,
    snd (while_true (loop_body p) script s l) = l ++ added
    /\ existsb is_connect added = false
    /\ existsb is_post added = false
    /\ count is_close added =
       match fst (fst (while_true (loop_body p) script s l)) with
       | Starved => 0
       | Done => 1
       | Raised (SystemExit _) => 1
       | Raised (Lib _) => 0
       end.
Proof.
  apply while_true_log. intros it s0 l0.
  destruct (stack_pass_log p it s0 l0) as [added [H1 [H2 [H3 [_ H5]]]]].
  exists added. repeat split; assumption.
Qed.

Lemma stack_loop_no_send (p : params) (script : list iteration) (s : state)
    (l : list action) :
  exists added,
    snd (while_true (loop_body p) script s l) = l ++ added
    /\ existsb is_send added = false.
Proof.
  revert s l. induction script as [|it script IH]; intros s l;
    cbn [while_true].
  - exists []. rewrite app_nil_r. split; reflexivity.
  - destruct (stack_pass_log p it s l) as [added [Hl [_ [_ [Hs _]]]]].
    destruct (loop_body p it s l) as [[[[]|e] s1] l1]; cbn [snd] in *.
    + destruct (IH s1 l1) as [more [Hl' Hs']].
      exists (added ++ more). rewrite existsb_app, Hs, Hs'.
      split; [|reflexivity]. rewrite Hl', Hl, app_assoc. reflexivity.
    + exists added. split; assumption.
    + exists added. split; assumption.
Qed.

End StackInvariants.

Section Connections.
Context {rt : Runtime}.

(** The log of an invocation of the stack client: the request, then, if
    it was accepted, the opening call and what the loop added. *)
Lemma stack_log_shape (p : Stack.params) (w : Stack.peer) :
  (exists e, Stack.execute p w = (Uncaught e, []))
  \/ exists rest,
       snd (Stack.execute p w) = Stack.requesting p :: rest
       /\ existsb is_post rest = false
       /\ existsb is_send rest = false
       /\ (rest = []
           \/ exists id added,
                rest = Stack.connecting p id :: added
                /\ existsb is_connect added = false)
       /\ count is_close rest =
          match fst (Stack.execute p w) with
          | Returned _ => 1
          | Pending _ | Uncaught _ => 0
          | Exited f => match fail_output f with Some _ => 1 | None => 0 end
          end.
Proof.
  rewrite stack_execute_cases.
  destruct (Stack.post w) as [e0|[e|v]|code [|text|e]|e| |e];
    try (right; exists []; repeat split; left; reflexivity).
  { left. exists e0. reflexivity. }
  destruct v as [|b|n|f|s|items|body];
    try (right; exists []; repeat split; left; reflexivity).
  destruct (truthy (get body (lit "operationId") Null));
    [|right; exists []; repeat split; left; reflexivity].
  set (id := get body (lit "operationId") Null).
  right.
  destruct (Stack.connect w).
  { exists [Stack.connecting p id]. repeat split.
    right. exists id, []. split; reflexivity. }
  rewrite stack_conclude_report, stack_finish_log. cbn [fst snd].
  destruct (stack_loop_log p (Stack.iterations w)
              (Stack.set_operation_id id Stack.init)
              [Stack.requesting p; Stack.connecting p id])
    as [added [Hl [Hc [Hp Hn]]]].
  destruct (stack_loop_no_send p (Stack.iterations w)
              (Stack.set_operation_id id Stack.init)
              [Stack.requesting p; Stack.connecting p id])
    as [added' [Hl' Hs]].
  assert (added' = added) by (rewrite Hl in Hl'; exact (app_inv_head _ _ _ (eq_sym Hl'))).
  subst added'.
  pose proof (stack_loop_failure p (Stack.iterations w)
                (Stack.set_operation_id id Stack.init)
                [Stack.requesting p; Stack.connecting p id]) as Hf.
  exists (Stack.connecting p id :: added). rewrite Hl.
  split; [reflexivity|].
  cbn [existsb is_post is_send Stack.connecting orb].
  split; [exact Hp|]. split; [exact Hs|].
  split; [right; exists id, added; split; [reflexivity|exact Hc]|].
  change (count is_close (Stack.connecting p id :: added))
    with (count is_close added).
  rewrite Hn.
  destruct (while_true (Stack.loop_body p) (Stack.iterations w)
              (Stack.set_operation_id id Stack.init)
              [Stack.requesting p; Stack.connecting p id])
    as [[[|[e|f]|] s1] l1];
    cbn [Stack.finish fst snd Stack.report fail_output Stack.connect_failed]
      in *; try reflexivity.
  rewrite (proj1 (Hf f eq_refl)). reflexivity.
Qed.


(** X17.  With [validate_certs] true nothing the client does switches
    certificate checks off: the WebSocket is never opened with
    [CERT_NONE] and the HTTP request never uses an unverified
    context. *)
Theorem certificates_checked :
  (forall (p : Exec.params) w,
     Exec.validate_certs p = true ->
     forallb verifies (snd (Exec.execute p w)) = true)
  /\ (forall (p : Stack.params) w,
        Stack.validate_certs p = true ->
        forallb verifies (snd (Stack.execute p w)) = true).
Proof.
  split.
  - intros p w Hv.
    destruct (exec_log_shape p w) as [added [Hl [Hc [Hp _]]]].
    rewrite Hl. cbn [forallb verifies Exec.connecting].
    rewrite Hv, andb_false_r. cbn [negb andb].
    exact (opens_nothing_verifies added Hc Hp).
  - intros p w Hv.
    destruct (stack_log_shape p w)
      as [[e He]|[rest [Hl [Hp [_ [Hrest _]]]]]].
    { rewrite He. reflexivity. }
    rewrite Hl. cbn [forallb verifies Stack.requesting].
    rewrite Hv. cbn [negb andb].
    destruct Hrest as [->|[id [added [-> Hc]]]]; [reflexivity|].
    cbn [forallb verifies Stack.connecting].
    rewrite Hv, andb_false_r. cbn [negb andb].
    cbn [existsb is_post Stack.connecting orb] in Hp.
    exact (opens_nothing_verifies added Hc Hp).
Qed.

End Connections.

(** ** Parameters *)

Lemma rstrip_repeat (c : char) (n : nat) : Text.rstrip c (repeat c n) = [].
Proof.
  induction n as [|n IH]; cbn [repeat Text.rstrip]; [reflexivity|].
  rewrite IH, N.eqb_refl. reflexivity.
Qed.

Lemma rstrip_trailing (c : char) (s : str) (n : nat) :
  Text.rstrip c (s ++ repeat c n) = Text.rstrip c s.
Proof.
  induction s as [|x s IH]; cbn [app Text.rstrip].
  - rewrite rstrip_repeat. reflexivity.
  - rewrite IH. reflexivity.
Qed.

Section Parameters.
Context {rt : Runtime}.

Lemma exec_loop_same (p q : Exec.params) (script : list Exec.iteration)
    (s : Exec.state) (l : list action) :
  Exec.command p = Exec.command q -> Exec.timeout p = Exec.timeout q ->
  while_true (Exec.loop_body p) script s l
  = while_true (Exec.loop_body q) script s l.
Proof.
  intros Hc Ht. revert s l.
  induction script as [|it script IH]; intros s l; cbn [while_true];
    [reflexivity|].
  assert (Hbody : Exec.loop_body p it s l = Exec.loop_body q it s l).
  { unfold Exec.loop_body, Exec.dispatch, Exec.on_success,
      Exec.on_terminal_output, Exec.should_skip_output.
    rewrite Hc, Ht. reflexivity. }
  rewrite Hbody.
  destruct (Exec.loop_body q it s l) as [[[[]|e] s1] l1]; auto.
Qed.

Lemma stack_loop_same (p q : Stack.params) (script : list Stack.iteration)
    (s : Stack.state) (l : list action) :
  Stack.timeout p = Stack.timeout q ->
  while_true (Stack.loop_body p) script s l
  = while_true (Stack.loop_body q) script s l.
Proof.
  intros Ht. revert s l.
  induction script as [|it script IH]; intros s l; cbn [while_true];
    [reflexivity|].
  assert (Hbody : Stack.loop_body p it s l = Stack.loop_body q it s l).
  { unfold Stack.loop_body. rewrite Ht. reflexivity. }
  rewrite Hbody.
  destruct (Stack.loop_body q it s l) as [[[[]|e] s1] l1]; auto.
Qed.

(** X18.  Slashes at the end of [berth_url] make no difference: with any
    number of them added, each client does the same things, to the same
    URLs, and ends the same way. *)
Theorem trailing_slashes_ignored (n : nat) :
  (forall (p : Exec.params) w,
     Exec.execute
       (Exec.with_berth_url p (Exec.berth_url p ++ repeat 47%N n)) w
     = Exec.execute p w)
  /\ (forall (p : Stack.params) w,
        Stack.execute
          (Stack.with_berth_url p (Stack.berth_url p ++ repeat 47%N n)) w
        = Stack.execute p w).
Proof.
  split.
  - intros p w.
    set (q := Exec.with_berth_url p (Exec.berth_url p ++ repeat 47%N n)).
    assert (Hscheme : Exec.ws_scheme q = Exec.ws_scheme p).
    { unfold Exec.ws_scheme, q. cbn [Exec.berth_url Exec.with_berth_url].
      rewrite rstrip_trailing. reflexivity. }
    assert (Hconnect : Exec.connecting q = Exec.connecting p).
    { unfold Exec.connecting, Exec.ws_url. rewrite Hscheme. unfold q.
      cbn [Exec.berth_url Exec.with_berth_url Exec.api_key Exec.server_id
           Exec.validate_certs Exec.timeout].
      rewrite rstrip_trailing. reflexivity. }
    rewrite !exec_execute_report, !exec_command_cases, Hconnect.
    change (Exec.start_msg q) with (Exec.start_msg p).
    rewrite (exec_loop_same q p) by reflexivity. reflexivity.
  - intros p w.
    set (q := Stack.with_berth_url p (Stack.berth_url p ++ repeat 47%N n)).
    assert (Hscheme : Stack.ws_scheme q = Stack.ws_scheme p).
    { unfold Stack.ws_scheme, q. cbn [Stack.berth_url Stack.with_berth_url].
      rewrite rstrip_trailing. reflexivity. }
    assert (Hconnect : forall id, Stack.connecting q id
                                  = Stack.connecting p id).
    { intros id. unfold Stack.connecting, Stack.ws_url. rewrite Hscheme.
      unfold q.
      cbn [Stack.berth_url Stack.with_berth_url Stack.api_key
           Stack.server_id Stack.stack_name Stack.validate_certs
           Stack.timeout].
      rewrite rstrip_trailing. reflexivity. }
    assert (Hrequest : Stack.requesting q = Stack.requesting p).
    { unfold Stack.requesting, Stack.operations_url, q.
      cbn [Stack.berth_url Stack.with_berth_url Stack.api_key
           Stack.server_id Stack.stack_name Stack.validate_certs].
      rewrite rstrip_trailing. reflexivity. }
    rewrite !stack_execute_cases, Hrequest.
    destruct (Stack.post w) as [e0|[e|v]|code [|text|e]|e| |e]; try reflexivity.
    destruct v as [|b|m|f|s|items|body]; try reflexivity.
    destruct (truthy (get body (lit "operationId") Null)); [|reflexivity].
    rewrite Hconnect.
    destruct (Stack.connect w); [reflexivity|].
    rewrite (stack_loop_same q p) by reflexivity.
    rewrite !stack_conclude_report. reflexivity.
Qed.

(** X19.  Once the server has accepted the operation, whatever the stack
    client reports names the identifier the server gave: the result it
    returns, and every failure, whether the connection could not be
    opened, the session timed out, the server sent an error, or an
    exception ended the stream; and no exception goes uncaught. *)
Theorem stack_operation_id_reported (p : Stack.params) (w : Stack.peer)
    (body : dict) :
  Stack.post w = Stack.Response (Parsed (Obj body)) ->
  truthy (get body (lit "operationId") Null) = true ->
  match fst (Stack.execute p w) with
  | Returned r =>
      Stack.result_operation_id r = get body (lit "operationId") Null
  | Exited f =>
      fail_operation_id f = Some (get body (lit "operationId") Null)
  | Pending st => Stack.operation_id st = get body (lit "operationId") Null
  | Uncaught _ => False
  end.
Proof.
  intros Hpost Hid. rewrite stack_execute_cases, Hpost, Hid.
  set (id := get body (lit "operationId") Null).
  destruct (Stack.connect w); [reflexivity|].
  rewrite stack_conclude_report. cbn [fst].
  pose proof (stack_loop_keeps_id p (Stack.iterations w)
                (Stack.set_operation_id id Stack.init)
                [Stack.requesting p; Stack.connecting p id]) as Hkeep.
  pose proof (stack_loop_failure p (Stack.iterations w)
                (Stack.set_operation_id id Stack.init)
                [Stack.requesting p; Stack.connecting p id]) as Hf.
  destruct (while_true (Stack.loop_body p) (Stack.iterations w)
              (Stack.set_operation_id id Stack.init)
              [Stack.requesting p; Stack.connecting p id])
    as [[[|[e|f]|] s1] l1];
    cbn [Stack.finish fst snd Stack.report Stack.result_of
         Stack.result_operation_id fail_operation_id] in *.
  - exact Hkeep.
  - rewrite Hkeep. reflexivity.
  - exact (proj2 (Hf f eq_refl)).
  - exact Hkeep.
Qed.

End Parameters.

(** ** Output that is dropped whole, and [main] *)

Lemma strip_sequence (m rest : str) :
  escape_sequence m -> strip_ansi_codes (m ++ rest) = strip_ansi_codes rest.
Proof.
  intros Hm. pose proof (ansi_match_complete m rest Hm) as E.
  destruct (m ++ rest) as [|c s] eqn:Hs.
  - destruct Hm; discriminate.
  - exact (strip_match c s rest E).
Qed.

Lemma strip_sequences (parts : list str) :
  Forall escape_sequence parts -> strip_ansi_codes (List.concat parts) = [].
Proof.
  induction 1 as [|m parts Hm _ IH]; cbn [List.concat].
  - apply strip_nil.
  - rewrite (strip_sequence m _ Hm). exact IH.
Qed.

Lemma contains_empty (line : str) : Text.contains [] line = true.
Proof. destruct line; reflexivity. Qed.

Section Dropped.
Context {rt : Runtime}.
Import Exec.

(** X20.  Two ways the exec client captures nothing from a
    [terminal_output].  A payload that is escape sequences and nothing
    else cleans to the empty text and is dropped.  And with an empty
    command every line received after the command has been sent counts
    as its echo and is dropped. *)
Theorem exec_output_dropped_entirely (p : params) (w : peer)
    (pre : list iteration) (it : iteration) (decoded : str) (st : state)
    (l : list action) :
  running p w pre st l ->
  session_ready st = true ->
  brings_output p it decoded ->
  (exists parts,
     Forall escape_sequence parts /\ decoded = List.concat parts)
  \/ (command p = [] /\ command_sent st = true) ->
  running p w (pre ++ [it]) st (l ++ [WsRecv]).
Proof.
  intros Hrun Hready Hout Hwhy.
  pose proof (exec_output_step p w pre it decoded st l Hrun Hready Hout) as H.
  destruct Hwhy as [[parts [Hparts ->]]|[Hcmd Hsent]].
  - rewrite (strip_sequences parts Hparts) in H. exact H.
  - assert (Hskip : should_skip_output p st (strip_ansi_codes decoded) = true).
    { unfold should_skip_output.
      rewrite Hsent, Hcmd, contains_empty. reflexivity. }
    rewrite Hskip, andb_false_r in H. exact H.
Qed.

End Dropped.

Section Main.
Context {rt : Runtime}.

(** X21.  [main] of either module.  Without the [websocket] package it
    fails at once and touches no network.  With it, a result reaches
    [exit_json] or the [fail_json] at the end of [main] only from a
    session that ended with a [terminal_close] (exec) or a [complete]
    (stack).  It reaches [exit_json] exactly when the exit code is 0 or
    [null], respectively when the success flag counts as true.
    Otherwise [main] calls [fail_json] with the result as keyword
    arguments, which raises [TypeError] for want of [msg]: a command
    that exits with another code and an operation that does not succeed
    end in that exception, and their result is reported nowhere. *)
Theorem main_reports :
  (forall (p : Exec.params) w,
     Exec.main false p w = (FailJson missing_websocket, []))
  /\ (forall (p : Exec.params) w pre it post st l code,
        Exec.iterations w = pre ++ it :: post ->
        Exec.running p w pre st l ->
        Exec.brings_close p it code ->
        Exec.main true p w =
        (if (if negb (Exec.is_none code) then ne_zero code else false)
         then TypeError (Exec.result_of (Exec.set_exit_code code st))
         else ExitJson (Exec.result_of (Exec.set_exit_code code st)),
         l ++ [WsRecv; WsClose; Sleep 100]))
  /\ (forall (p : Exec.params) w r l,
        Exec.main true p w = (ExitJson r, l)
        \/ Exec.main true p w = (TypeError r, l) ->
        exists pre it post st l0 code,
          Exec.iterations w = pre ++ it :: post
          /\ Exec.running p w pre st l0
          /\ Exec.brings_close p it code
          /\ (Exec.main true p w = (ExitJson r, l) <->
              code = Null \/ ne_zero code = false))
  /\ (forall (p : Stack.params) w,
        Stack.main false p w = (FailJson missing_websocket, []))
  /\ (forall (p : Stack.params) w pre it post st l msg_data,
        Stack.iterations w = pre ++ it :: post ->
        Stack.running p w pre st l ->
        Stack.brings p it "complete" msg_data ->
        exists r,
          Stack.output r = Stack.output_lines st
          /\ Stack.main true p w =
             (if negb (truthy (get msg_data (lit "success") (Bool false)))
              then TypeError r else ExitJson r,
              l ++ [WsRecv; WsClose]))
  /\ (forall (p : Stack.params) w r l,
        Stack.main true p w = (ExitJson r, l)
        \/ Stack.main true p w = (TypeError r, l) ->
        exists pre it post st l0 msg_data,
          Stack.iterations w = pre ++ it :: post
          /\ Stack.running p w pre st l0
          /\ Stack.brings p it "complete" msg_data
          /\ (Stack.main true p w = (ExitJson r, l) <->
              truthy (get msg_data (lit "success") (Bool false)) = true)).
Proof.
  split; [reflexivity|].
  split; [|split; [|split; [reflexivity|split]]].
  - intros p w pre it post st l code Hw Hrun Hclose.
    unfold Exec.main. cbn [negb].
    rewrite (exec_close_step p w pre post it code st l Hw Hrun Hclose).
    change (Exec.failed (Exec.result_of (Exec.set_exit_code code st)))
      with (if negb (Exec.is_none code) then ne_zero code else false).
    destruct (if negb (Exec.is_none code) then ne_zero code else false);
      reflexivity.
  - intros p w r l H.
    assert (Hexec : Exec.execute p w = (Returned r, l)).
    { unfold Exec.main in H. cbn [negb] in H.
      destruct (Exec.execute p w) as [[r'|f|st|e] l'].
      - destruct (Exec.failed r'); destruct H as [H|H]; try discriminate;
          injection H as <- <-; reflexivity.
      - destruct H as [H|H]; discriminate.
      - destruct H as [H|H]; discriminate.
      - destruct H as [H|H]; discriminate. }
    destruct (exec_returned_inv p w r l Hexec)
      as [pre [it [post [st [l0 [d [Hw [Hrun [Ht [Hr [Hty [Hres Hl]]]]]]]]]]]].
    exists pre, it, post, st, l0, (get d (lit "exit_code") (Int 0)).
    split; [exact Hw|]. split; [exact Hrun|].
    split; [split; [exact Ht|]; exists d; repeat split; assumption|].
    unfold Exec.main. cbn [negb]. rewrite Hexec, Hres.
    unfold Exec.result_of, Exec.set_exit_code. cbn [Exec.failed Exec.exit_code].
    destruct (get d (lit "exit_code") (Int 0)) as [|b|n|f|s|items|items];
      cbn [Exec.is_none negb ne_zero].
    + split; [intros _; left; reflexivity|reflexivity].
    + destruct b; split; try discriminate; try reflexivity;
        try (intros _; right; reflexivity);
        intros [H'|H']; discriminate.
    + destruct (negb (Z.eqb n 0)); split; try discriminate; try reflexivity;
        try (intros _; right; reflexivity);
        intros [H'|H']; discriminate.
    + destruct (negb (PrimFloat.eqb f PrimFloat.zero)); split;
        try discriminate; try reflexivity;
        try (intros _; right; reflexivity);
        intros [H'|H']; discriminate.
    + split; [discriminate|intros [H'|H']; discriminate].
    + split; [discriminate|intros [H'|H']; discriminate].
    + split; [discriminate|intros [H'|H']; discriminate].
  - intros p w pre it post st l d Hw Hrun Hd.
    pose proof (stack_complete_step p w pre post it d st l Hw Hrun Hd)
      as Hexec.
    match type of Hexec with
    | _ = (Returned ?r, _) =>
        exists r; split; [reflexivity|];
        unfold Stack.main; cbn [negb]; rewrite Hexec;
        set (res := r);
        change (Stack.failed res)
          with (negb (truthy (get d (lit "success") (Bool false))));
        destruct (negb (truthy (get d (lit "success") (Bool false))));
        reflexivity
    end.
  - intros p w r l H.
    assert (Hexec : Stack.execute p w = (Returned r, l)).
    { unfold Stack.main in H. cbn [negb] in H.
      destruct (Stack.execute p w) as [[r'|f|st|e] l'].
      - destruct (Stack.failed r'); destruct H as [H|H]; try discriminate;
          injection H as <- <-; reflexivity.
      - destruct H as [H|H]; discriminate.
      - destruct H as [H|H]; discriminate.
      - destruct H as [H|H]; discriminate. }
    destruct (stack_returned_inv p w r l Hexec)
      as [pre [it [post [st [l0 [d [Hw [Hrun [Hd [Hres Hl]]]]]]]]]].
    exists pre, it, post, st, l0, d.
    split; [exact Hw|]. split; [exact Hrun|]. split; [exact Hd|].
    unfold Stack.main. cbn [negb]. rewrite Hexec, Hres.
    unfold Stack.result_of, Stack.set_exit_code, Stack.set_success.
    cbn [Stack.failed Stack.success].
    destruct (truthy (get d (lit "success") (Bool false))); cbn [negb];
      split; try discriminate; reflexivity.
Qed.

End Main.

(** ** Examples of the further properties *)

(** The result an invocation returns, by evaluation. *)
Ltac exec_returns p w :=
  let r := eval vm_compute in (Exec.execute p w) in
  lazymatch r with
  | (Returned ?res, ?l) =>
      assert (Exec.execute p w = (Returned res, l))
        by (vm_compute; reflexivity)
  end.

Ltac stack_returns p w :=
  let r := eval vm_compute in (Stack.execute p w) in
  lazymatch r with
  | (Returned ?res, ?l) =>
      assert (Stack.execute p w = (Returned res, l))
        by (vm_compute; reflexivity)
  end.

Lemma strip_composes_witness :
  strip_ansi_codes (lit "ab" ++ ESC :: lit "[0m")
  = lit "ab" ++ strip_ansi_codes (ESC :: lit "[0m")
  /\ strip_ansi_codes ((ESC :: lit "[0m") ++ lit "ab")
     = strip_ansi_codes (lit "ab").
Proof.
  split.
  - apply (proj1 (strip_composes (lit "ab") (ESC :: lit "[0m"))).
    reflexivity.
  - apply (proj2 (strip_composes (ESC :: lit "[0m") (lit "ab"))).
    apply (CSI (lit "0") 109%N); reflexivity.
Defined.

Lemma unhandled_exception_drops_output_witness :
  (exists l,
     Exec.execute Demo.exec_params
       (Demo.exec_peer (Demo.exec_prefix
                        ++ [Demo.exec_garbled 5;
                            Demo.exec_pass 6 (Demo.close_msg 0)]))
     = (Exited {| msg := lit "Failed to connect to terminal WebSocket: Expecting value";
                  fail_output := None; fail_operation_id := None;
                  fail_details := None |}, l))
  /\ (exists l,
        Stack.execute Demo.stack_params
          (Demo.stack_peer Demo.accepted_body
             [Demo.stack_pass 1 (Demo.stdout_msg (lit "a"));
              Demo.stack_pass 2 Demo.stdout_number_msg])
        = (Exited {| msg := lit "Failed to connect to WebSocket: 'int' object has no attribute 'rstrip'";
                     fail_output := None;
                     fail_operation_id := Some (Str (lit "op-1"));
                     fail_details := None |}, l)).
Proof.
  split.
  - pose (w := Demo.exec_peer (Demo.exec_prefix
                               ++ [Demo.exec_garbled 5;
                                   Demo.exec_pass 6 (Demo.close_msg 0)])).
    exec_runs Demo.exec_params w Demo.exec_prefix.
    match goal with Hrun : Exec.running _ _ _ ?st ?l |- _ =>
      pose proof (proj1 (proj1 unhandled_exception_drops_output
                           Demo.exec_params w Demo.exec_prefix
                           [Demo.exec_pass 6 (Demo.close_msg 0)]
                           (Demo.exec_garbled 5) st l eq_refl Hrun eq_refl)
                    (lit "Expecting value") eq_refl) as Hexec
    end.
    eexists. exact Hexec.
  - pose (w := Demo.stack_peer Demo.accepted_body
                 [Demo.stack_pass 1 (Demo.stdout_msg (lit "a"));
                  Demo.stack_pass 2 Demo.stdout_number_msg]).
    stack_runs Demo.stack_params w
      [Demo.stack_pass 1 (Demo.stdout_msg (lit "a"))].
    match goal with Hrun : Stack.running _ _ _ ?st ?l |- _ =>
      pose proof (proj2 (proj2 (proj2
                    (proj2 unhandled_exception_drops_output
                       Demo.stack_params w
                       [Demo.stack_pass 1 (Demo.stdout_msg (lit "a"))] []
                       (Demo.stack_pass 2 Demo.stdout_number_msg) st l
                       eq_refl Hrun eq_refl)))
                    Demo.stdout_number_msg eq_refl (or_introl eq_refl)
                    eq_refl) as Hexec
    end.
    eexists. apply Hexec. intros text. vm_compute. discriminate.
Defined.

Lemma websocket_exception_ends_session_witness :
  (exists l,
     Exec.execute Demo.exec_params
       (Demo.exec_peer (Demo.exec_prefix
                        ++ [Demo.exec_raise 5 (WebSocketException (lit "closed"))]))
     = (Exited {| msg := lit "WebSocket error: closed";
                  fail_output := Some [Demo.real_line];
                  fail_operation_id := None; fail_details := None |}, l))
  /\ (exists l,
        Stack.execute Demo.stack_params
          (Demo.stack_peer Demo.accepted_body
             [Demo.stack_pass 1 (Demo.stdout_msg (lit "a"));
              Demo.stack_raise 2 (WebSocketException (lit "closed"))])
        = (Exited {| msg := lit "WebSocket error: closed";
                     fail_output := Some [lit "a"];
                     fail_operation_id := Some (Str (lit "op-1"));
                     fail_details := None |}, l)).
Proof.
  split.
  - pose (w := Demo.exec_peer
                 (Demo.exec_prefix
                  ++ [Demo.exec_raise 5 (WebSocketException (lit "closed"))])).
    exec_runs Demo.exec_params w Demo.exec_prefix.
    match goal with Hrun : Exec.running _ _ _ ?st ?l |- _ =>
      pose proof (proj1 websocket_exception_ends_session
                    Demo.exec_params w Demo.exec_prefix []
                    (Demo.exec_raise 5 (WebSocketException (lit "closed")))
                    (lit "closed") st l eq_refl Hrun eq_refl eq_refl)
        as Hexec
    end.
    eexists. exact Hexec.
  - pose (w := Demo.stack_peer Demo.accepted_body
                 [Demo.stack_pass 1 (Demo.stdout_msg (lit "a"));
                  Demo.stack_raise 2 (WebSocketException (lit "closed"))]).
    stack_runs Demo.stack_params w
      [Demo.stack_pass 1 (Demo.stdout_msg (lit "a"))].
    match goal with Hrun : Stack.running _ _ _ ?st ?l |- _ =>
      pose proof (proj2 websocket_exception_ends_session
                    Demo.stack_params w
                    [Demo.stack_pass 1 (Demo.stdout_msg (lit "a"))] []
                    (Demo.stack_raise 2 (WebSocketException (lit "closed")))
                    (lit "closed") st l eq_refl Hrun eq_refl eq_refl)
        as Hexec
    end.
    eexists. exact Hexec.
Defined.

Lemma connection_failure_witness :
  Exec.execute Demo.exec_params Demo.exec_peer_refusing
  = (Exited (Exec.connect_failed (OtherException (lit "Connection refused"))),
     [Exec.connecting Demo.exec_params])
  /\ Stack.execute Demo.stack_params Demo.stack_peer_refusing
     = (Exited (Stack.connect_failed
                  (OtherException (lit "Connection refused"))
                  (Str (lit "op-1"))),
        [Stack.requesting Demo.stack_params;
         Stack.connecting Demo.stack_params (Str (lit "op-1"))]).
Proof.
  split.
  - exact (proj1 connection_failure Demo.exec_params Demo.exec_peer_refusing
             (OtherException (lit "Connection refused")) eq_refl).
  - exact (proj2 (proj2 connection_failure) Demo.stack_params
             Demo.stack_peer_refusing Demo.accepted_body
             (OtherException (lit "Connection refused"))
             eq_refl eq_refl eq_refl).
Defined.

Lemma start_operation_failure_witness :
  Stack.execute Demo.stack_params_no_scheme Demo.stack_peer_invalid_url
  = (Uncaught
       (lit "unknown url type: 'berth.example.com/api/v1/servers/1/stacks/myapp/operations'"),
     [])
  /\ Stack.execute Demo.stack_params Demo.stack_peer_http_error
     = (Exited {| msg := lit "Failed to start operation: HTTP 500";
                  fail_output := None; fail_operation_id := None;
                  fail_details := Some (lit "internal error") |},
        [Stack.requesting Demo.stack_params])
  /\ Stack.execute Demo.stack_params Demo.stack_peer_undecodable
     = (Uncaught
          (lit "'utf-8' codec can't decode byte 0xff in position 0: invalid start byte"),
        [Stack.requesting Demo.stack_params]).
Proof.
  split; [|split].
  - exact (proj1 (start_operation_failure Demo.stack_params_no_scheme
                    Demo.stack_peer_invalid_url) _ eq_refl).
  - exact (proj1 (proj2 (start_operation_failure Demo.stack_params
                           Demo.stack_peer_http_error))
             500%Z (Stack.Body (lit "internal error")) eq_refl).
  - exact (proj1 (proj2 (start_operation_failure Demo.stack_params
                           Demo.stack_peer_undecodable))
             502%Z _ eq_refl).
Defined.

Lemma ignored_frames_witness :
  (exists st l,
     Exec.running Demo.exec_params (Demo.exec_peer []) Demo.exec_prefix st l
     /\ Exec.running Demo.exec_params (Demo.exec_peer [])
          (Demo.exec_prefix ++ [Demo.exec_empty 5]) st (l ++ [WsRecv]))
  /\ (exists st l,
        Stack.running Demo.stack_params
          (Demo.stack_peer Demo.accepted_body [])
          [Demo.stack_pass 1 (Demo.stdout_msg (lit "a"))] st l
        /\ Stack.running Demo.stack_params
             (Demo.stack_peer Demo.accepted_body [])
             ([Demo.stack_pass 1 (Demo.stdout_msg (lit "a"))]
              ++ [Demo.stack_pass 2 Demo.heartbeat_msg]) st (l ++ [WsRecv])).
Proof.
  split.
  - exec_runs Demo.exec_params (Demo.exec_peer []) Demo.exec_prefix.
    match goal with Hrun : Exec.running _ _ _ ?st ?l |- _ =>
      exists st, l; split; [exact Hrun|];
      exact (proj1 ignored_frames Demo.exec_params (Demo.exec_peer [])
               Demo.exec_prefix (Demo.exec_empty 5) st l Hrun eq_refl
               (or_introl eq_refl))
    end.
  - stack_runs Demo.stack_params (Demo.stack_peer Demo.accepted_body [])
      [Demo.stack_pass 1 (Demo.stdout_msg (lit "a"))].
    match goal with Hrun : Stack.running _ _ _ ?st ?l |- _ =>
      exists st, l; split; [exact Hrun|];
      apply (proj2 ignored_frames Demo.stack_params
               (Demo.stack_peer Demo.accepted_body [])
               [Demo.stack_pass 1 (Demo.stdout_msg (lit "a"))]
               (Demo.stack_pass 2 Demo.heartbeat_msg) st l Hrun eq_refl)
    end.
    right. exists Demo.heartbeat_msg. split; [reflexivity|].
    repeat split.
Defined.

Lemma error_frame_defaults_witness :
  (exists l,
     Exec.execute Demo.exec_params
       (Demo.exec_peer (Demo.exec_prefix
                        ++ [Demo.exec_pass 5 Demo.bare_error_msg]))
     = (Exited {| msg := lit "Terminal error: Unknown error";
                  fail_output := Some [Demo.real_line];
                  fail_operation_id := None; fail_details := None |}, l))
  /\ (exists l,
        Stack.execute Demo.stack_params
          (Demo.stack_peer Demo.accepted_body
             [Demo.stack_pass 1 (Demo.stdout_msg (lit "a"));
              Demo.stack_pass 2 Demo.bare_error_msg])
        = (Exited {| msg := lit "Operation error: Unknown error";
                     fail_output := Some [lit "a"];
                     fail_operation_id := Some (Str (lit "op-1"));
                     fail_details := None |}, l)).
Proof.
  assert (Hlacks : forall key, key <> lit "type" ->
                     lacks Demo.bare_error_msg key).
  { intros key Hkey k v [H|[]]. injection H as <- _.
    intros Heq. apply Hkey. symmetry. exact Heq. }
  split.
  - pose (w := Demo.exec_peer (Demo.exec_prefix
                               ++ [Demo.exec_pass 5 Demo.bare_error_msg])).
    exec_runs Demo.exec_params w Demo.exec_prefix.
    match goal with Hrun : Exec.running _ _ _ ?st ?l |- _ =>
      pose proof (proj1 error_frame_defaults Demo.exec_params w
                    Demo.exec_prefix []
                    (Demo.exec_pass 5 Demo.bare_error_msg)
                    Demo.bare_error_msg st l eq_refl Hrun eq_refl eq_refl
                    eq_refl) as Hexec
    end.
    eexists. apply Hexec; apply Hlacks; vm_compute; discriminate.
  - pose (w := Demo.stack_peer Demo.accepted_body
                 [Demo.stack_pass 1 (Demo.stdout_msg (lit "a"));
                  Demo.stack_pass 2 Demo.bare_error_msg]).
    stack_runs Demo.stack_params w
      [Demo.stack_pass 1 (Demo.stdout_msg (lit "a"))].
    match goal with Hrun : Stack.running _ _ _ ?st ?l |- _ =>
      pose proof (proj2 error_frame_defaults Demo.stack_params w
                    [Demo.stack_pass 1 (Demo.stdout_msg (lit "a"))] []
                    (Demo.stack_pass 2 Demo.bare_error_msg)
                    Demo.bare_error_msg st l eq_refl Hrun
                    (conj eq_refl (conj eq_refl eq_refl))) as Hexec
    end.
    eexists. apply Hexec; apply Hlacks; vm_compute; discriminate.
Defined.

Lemma exec_output_only_grows_witness :
  exists st l,
    Exec.running Demo.exec_params
      (Demo.exec_peer (Demo.exec_prefix ++ [Demo.exec_pass 5 Demo.exec_error_msg]))
      Demo.exec_prefix st l
    /\ ((exists more,
           Exec.lines_of
             (fst (Exec.execute Demo.exec_params
                     (Demo.exec_peer
                        (Demo.exec_prefix
                         ++ [Demo.exec_pass 5 Demo.exec_error_msg]))))
           = Exec.output_lines st ++ more)
        \/ (exists f,
              fst (Exec.execute Demo.exec_params
                     (Demo.exec_peer
                        (Demo.exec_prefix
                         ++ [Demo.exec_pass 5 Demo.exec_error_msg])))
              = Exited f /\ fail_output f = None)).
Proof.
  pose (w := Demo.exec_peer (Demo.exec_prefix
                             ++ [Demo.exec_pass 5 Demo.exec_error_msg])).
  exec_runs Demo.exec_params w Demo.exec_prefix.
  match goal with Hrun : Exec.running _ _ _ ?st ?l |- _ =>
    exists st, l; split; [exact Hrun|];
    exact (exec_output_only_grows Demo.exec_params w Demo.exec_prefix
             [Demo.exec_pass 5 Demo.exec_error_msg] st l eq_refl Hrun)
  end.
Defined.

Lemma exec_returns_only_on_close_witness :
  exists r l,
    Exec.execute Demo.exec_params
      (Demo.exec_peer (Demo.exec_prefix ++ [Demo.exec_pass 5 (Demo.close_msg 2)]))
    = (Returned r, l)
    /\ exists pre it post st l0 code,
         Demo.exec_prefix ++ [Demo.exec_pass 5 (Demo.close_msg 2)]
         = pre ++ it :: post
         /\ Exec.running Demo.exec_params
              (Demo.exec_peer
                 (Demo.exec_prefix ++ [Demo.exec_pass 5 (Demo.close_msg 2)]))
              pre st l0
         /\ Exec.brings_close Demo.exec_params it code
         /\ r = Exec.result_of (Exec.set_exit_code code st)
         /\ l = l0 ++ [WsRecv; WsClose; Sleep 100].
Proof.
  pose (w := Demo.exec_peer
               (Demo.exec_prefix ++ [Demo.exec_pass 5 (Demo.close_msg 2)])).
  exec_returns Demo.exec_params w.
  match goal with H : Exec.execute _ _ = (Returned ?r, ?l) |- _ =>
    exists r, l; split; [exact H|];
    exact (exec_returns_only_on_close Demo.exec_params w r l H)
  end.
Defined.

Lemma exec_sends_nothing_before_success_witness :
  filter is_send
    (snd (Exec.execute Demo.exec_params
            (Demo.exec_peer
               [Demo.exec_pass 1 (Demo.output_msg Demo.real_payload);
                Demo.exec_pass 2 (Demo.close_msg 0)])))
  = [WsSend (Exec.start_msg Demo.exec_params)].
Proof.
  exact (exec_sends_nothing_before_success Demo.exec_params
           (Demo.exec_peer
              [Demo.exec_pass 1 (Demo.output_msg Demo.real_payload);
               Demo.exec_pass 2 (Demo.close_msg 0)])
           eq_refl).
Defined.

Lemma stack_output_only_grows_witness :
  exists st l,
    Stack.running Demo.stack_params
      (Demo.stack_peer Demo.accepted_body
         [Demo.stack_pass 1 (Demo.stdout_msg (lit "a"));
          Demo.stack_pass 2 Demo.stack_error_msg])
      [Demo.stack_pass 1 (Demo.stdout_msg (lit "a"))] st l
    /\ ((exists more,
           Stack.lines_of
             (fst (Stack.execute Demo.stack_params
                     (Demo.stack_peer Demo.accepted_body
                        [Demo.stack_pass 1 (Demo.stdout_msg (lit "a"));
                         Demo.stack_pass 2 Demo.stack_error_msg])))
           = Stack.output_lines st ++ more)
        \/ (exists f,
              fst (Stack.execute Demo.stack_params
                     (Demo.stack_peer Demo.accepted_body
                        [Demo.stack_pass 1 (Demo.stdout_msg (lit "a"));
                         Demo.stack_pass 2 Demo.stack_error_msg]))
              = Exited f /\ fail_output f = None)).
Proof.
  pose (w := Demo.stack_peer Demo.accepted_body
               [Demo.stack_pass 1 (Demo.stdout_msg (lit "a"));
                Demo.stack_pass 2 Demo.stack_error_msg]).
  stack_runs Demo.stack_params w
    [Demo.stack_pass 1 (Demo.stdout_msg (lit "a"))].
  match goal with Hrun : Stack.running _ _ _ ?st ?l |- _ =>
    exists st, l; split; [exact Hrun|];
    exact (stack_output_only_grows Demo.stack_params w
             [Demo.stack_pass 1 (Demo.stdout_msg (lit "a"))]
             [Demo.stack_pass 2 Demo.stack_error_msg] st l eq_refl Hrun)
  end.
Defined.

Lemma stack_returns_only_on_complete_witness :
  exists r l,
    Stack.execute Demo.stack_params
      (Demo.stack_peer Demo.accepted_body
         [Demo.stack_pass 1 (Demo.stdout_msg (lit "a"));
          Demo.stack_pass 2 (Demo.complete_msg false)])
    = (Returned r, l)
    /\ exists pre it post st l0 msg_data,
         [Demo.stack_pass 1 (Demo.stdout_msg (lit "a"));
          Demo.stack_pass 2 (Demo.complete_msg false)]
         = pre ++ it :: post
         /\ Stack.running Demo.stack_params
              (Demo.stack_peer Demo.accepted_body
                 [Demo.stack_pass 1 (Demo.stdout_msg (lit "a"));
                  Demo.stack_pass 2 (Demo.complete_msg false)])
              pre st l0
         /\ Stack.brings Demo.stack_params it "complete" msg_data
         /\ Stack.output r = Stack.output_lines st
         /\ Stack.result_operation_id r = Stack.operation_id st
         /\ Stack.failed r
            = negb (truthy (get msg_data (lit "success") (Bool false)))
         /\ l = l0 ++ [WsRecv; WsClose].
Proof.
  pose (w := Demo.stack_peer Demo.accepted_body
               [Demo.stack_pass 1 (Demo.stdout_msg (lit "a"));
                Demo.stack_pass 2 (Demo.complete_msg false)]).
  stack_returns Demo.stack_params w.
  match goal with H : Stack.execute _ _ = (Returned ?r, ?l) |- _ =>
    exists r, l; split; [exact H|];
    exact (stack_returns_only_on_complete Demo.stack_params w r l H)
  end.
Defined.

Lemma certificates_checked_witness :
  forallb verifies
    (snd (Exec.execute Demo.exec_params
            (Demo.exec_peer
               (Demo.exec_prefix ++ [Demo.exec_pass 5 (Demo.close_msg 0)]))))
  = true
  /\ forallb verifies
       (snd (Stack.execute Demo.stack_params
               (Demo.stack_peer Demo.accepted_body
                  [Demo.stack_pass 1 (Demo.complete_msg true)])))
     = true.
Proof.
  split.
  - exact (proj1 certificates_checked Demo.exec_params
             (Demo.exec_peer
                (Demo.exec_prefix ++ [Demo.exec_pass 5 (Demo.close_msg 0)]))
             eq_refl).
  - exact (proj2 certificates_checked Demo.stack_params
             (Demo.stack_peer Demo.accepted_body
                [Demo.stack_pass 1 (Demo.complete_msg true)])
             eq_refl).
Defined.

Lemma stack_operation_id_reported_witness :
  match
    fst (Stack.execute Demo.stack_params
           (Demo.stack_peer Demo.accepted_body
              [Demo.stack_raise 601
                 (WebSocketTimeoutException (lit "timed out"))]))
  with
  | Returned r => Stack.result_operation_id r = Str (lit "op-1")
  | Exited f => fail_operation_id f = Some (Str (lit "op-1"))
  | Pending st => Stack.operation_id st = Str (lit "op-1")
  | Uncaught _ => False
  end.
Proof.
  exact (stack_operation_id_reported Demo.stack_params
           (Demo.stack_peer Demo.accepted_body
              [Demo.stack_raise 601
                 (WebSocketTimeoutException (lit "timed out"))])
           Demo.accepted_body eq_refl eq_refl).
Defined.

Lemma exec_output_dropped_entirely_witness :
  (exists st l,
     Exec.running Demo.exec_params (Demo.exec_peer [])
       [Demo.exec_pass 1 Demo.success_msg] st l
     /\ Exec.running Demo.exec_params (Demo.exec_peer [])
          ([Demo.exec_pass 1 Demo.success_msg]
           ++ [Demo.exec_pass 2 (Demo.output_msg Demo.escapes_payload)])
          st (l ++ [WsRecv]))
  /\ (exists st l,
        Exec.running Demo.exec_params_no_command (Demo.exec_peer [])
          [Demo.exec_pass 1 Demo.success_msg] st l
        /\ Exec.running Demo.exec_params_no_command (Demo.exec_peer [])
             ([Demo.exec_pass 1 Demo.success_msg]
              ++ [Demo.exec_pass 2 (Demo.output_msg Demo.anything_payload)])
             st (l ++ [WsRecv])).
Proof.
  split.
  - exec_runs Demo.exec_params (Demo.exec_peer [])
      [Demo.exec_pass 1 Demo.success_msg].
    match goal with Hrun : Exec.running _ _ _ ?st ?l |- _ =>
      exists st, l; split; [exact Hrun|];
      apply (exec_output_dropped_entirely Demo.exec_params (Demo.exec_peer [])
               [Demo.exec_pass 1 Demo.success_msg]
               (Demo.exec_pass 2 (Demo.output_msg Demo.escapes_payload))
               ((ESC :: lit "[0m") ++ (ESC :: lit "[1m")) st l Hrun eq_refl)
    end.
    + split; [reflexivity|].
      exists (Demo.output_msg Demo.escapes_payload).
      repeat split.
    + left. exists [ESC :: lit "[0m"; ESC :: lit "[1m"].
      split; [|reflexivity].
      repeat constructor.
      * apply (CSI (lit "0") 109%N); reflexivity.
      * apply (CSI (lit "1") 109%N); reflexivity.
  - exec_runs Demo.exec_params_no_command (Demo.exec_peer [])
      [Demo.exec_pass 1 Demo.success_msg].
    match goal with Hrun : Exec.running _ _ _ ?st ?l |- _ =>
      exists st, l; split; [exact Hrun|];
      apply (exec_output_dropped_entirely Demo.exec_params_no_command
               (Demo.exec_peer [])
               [Demo.exec_pass 1 Demo.success_msg]
               (Demo.exec_pass 2 (Demo.output_msg Demo.anything_payload))
               (lit "anything") st l Hrun eq_refl)
    end.
    + split; [reflexivity|].
      exists (Demo.output_msg Demo.anything_payload).
      repeat split.
    + right. split; reflexivity.
Defined.

Lemma main_reports_witness :
  (exists r l,
     Exec.main true Demo.exec_params
       (Demo.exec_peer (Demo.exec_prefix ++ [Demo.exec_pass 5 (Demo.close_msg 2)]))
     = (TypeError r, l)
     /\ exists pre it post st l0 code,
          Demo.exec_prefix ++ [Demo.exec_pass 5 (Demo.close_msg 2)]
          = pre ++ it :: post
          /\ Exec.running Demo.exec_params
               (Demo.exec_peer
                  (Demo.exec_prefix ++ [Demo.exec_pass 5 (Demo.close_msg 2)]))
               pre st l0
          /\ Exec.brings_close Demo.exec_params it code
          /\ (Exec.main true Demo.exec_params
                (Demo.exec_peer
                   (Demo.exec_prefix ++ [Demo.exec_pass 5 (Demo.close_msg 2)]))
              = (ExitJson r, l)
              <-> code = Null \/ ne_zero code = false))
  /\ (exists r l,
        Stack.main true Demo.stack_params
          (Demo.stack_peer Demo.accepted_body
             [Demo.stack_pass 1 (Demo.complete_msg true)])
        = (ExitJson r, l)
        /\ exists pre it post st l0 msg_data,
             [Demo.stack_pass 1 (Demo.complete_msg true)] = pre ++ it :: post
             /\ Stack.running Demo.stack_params
                  (Demo.stack_peer Demo.accepted_body
                     [Demo.stack_pass 1 (Demo.complete_msg true)])
                  pre st l0
             /\ Stack.brings Demo.stack_params it "complete" msg_data
             /\ (Stack.main true Demo.stack_params
                   (Demo.stack_peer Demo.accepted_body
                      [Demo.stack_pass 1 (Demo.complete_msg true)])
                 = (ExitJson r, l)
                 <-> truthy (get msg_data (lit "success") (Bool false))
                     = true)).
Proof.
  split.
  - pose (w := Demo.exec_peer
                 (Demo.exec_prefix ++ [Demo.exec_pass 5 (Demo.close_msg 2)])).
    let r := eval vm_compute in (Exec.main true Demo.exec_params w) in
    lazymatch r with
    | (TypeError ?res, ?l) =>
        assert (H : Exec.main true Demo.exec_params w = (TypeError res, l))
          by (vm_compute; reflexivity);
        exists res, l; split; [exact H|];
        exact (proj1 (proj2 (proj2 main_reports)) Demo.exec_params w res l
                 (or_intror H))
    end.
  - pose (w := Demo.stack_peer Demo.accepted_body
                 [Demo.stack_pass 1 (Demo.complete_msg true)]).
    let r := eval vm_compute in (Stack.main true Demo.stack_params w) in
    lazymatch r with
    | (ExitJson ?res, ?l) =>
        assert (H : Stack.main true Demo.stack_params w = (ExitJson res, l))
          by (vm_compute; reflexivity);
        exists res, l; split; [exact H|];
        exact (proj2 (proj2 (proj2 (proj2 (proj2 main_reports))))
                 Demo.stack_params w res l (or_introl H))
    end.
Defined.
